(** * OpenRouter Flows app: signing, verification gate and retry executor

    A shallow embedding of
      - [lib/security.ts]  ([generateFlowSecret], [signRequest]),
      - [lib/retry.ts]     ([withRetry]),
      - [blocks/tool.ts]   (the inbound [onRequest] handler and the
        [processResult] input),
      - [blocks/generate.ts] ([createToolsFromConfig] with its per-call
        operation, and the block's [onEvent]) and
      - [main.ts]          (the application's [onSync]),
    together with the platform primitives they call
    ([Number.prototype.toString], [parseInt], [String.prototype.includes],
    [createHmac("sha256", _)], [JSON.stringify], [JSON.parse]).

    JavaScript strings are modelled as Rocq [string]s holding their UTF-8
    bytes, JavaScript integers (timestamps, status codes, attempt counters,
    the options of the retry executor) as [Z]; the embedding of the number
    primitives is exact on safe integers. *)

From stdpp Require Import gmap strings list.
From Stdlib Require Import ZArith String Ascii List Lia.
Import ListNotations.
Open Scope string_scope.
Open Scope list_scope.
Open Scope Z_scope.

(** ** JavaScript primitives *)

Module JS.

(** Truthiness of a [string | undefined] value: [undefined] and the
    empty string are falsy. *)
Definition truthy (v : option string) : bool :=
  match v with
  | None => false
  | Some EmptyString => false
  | Some (String _ _) => true
  end.

Definition digit_char (d : Z) : ascii := ascii_of_nat (Z.to_nat (48 + d)).

(** The decimal digits of a non-negative integer, most significant
    first; [fuel] bounds the number of digits. *)
Fixpoint digits_onto (fuel : nat) (n : Z) (acc : string) : string :=
  let acc' := String (digit_char (n mod 10)) acc in
  match fuel with
  | O => acc'
  | S fuel' => if n <? 10 then acc' else digits_onto fuel' (n / 10) acc'
  end.

Definition digits (n : Z) : string :=
  digits_onto (Z.to_nat (Z.log2 n)) n "".

(** [Number.prototype.toString] on an integer. *)
Definition Number_toString (n : Z) : string :=
  if n <? 0 then String "-" (digits (- n)) else digits n.

(** The value of a byte. *)
Definition octet (c : ascii) : Z := Z.of_nat (nat_of_ascii c).

(** [StrWhiteSpaceChar] (white space and line terminators), by the
    UTF-8 bytes of the code point.  One byte: TAB, LF, VT, FF, CR and
    the space. *)
Definition is_whitespace (c : ascii) : bool :=
  let n := octet c in
  (n =? 9) || (n =? 10) || (n =? 11) || (n =? 12) || (n =? 13) || (n =? 32).

(** Two bytes: U+00A0, the no-break space. *)
Definition is_whitespace2 (c1 c2 : ascii) : bool :=
  (octet c1 =? 194) && (octet c2 =? 160).

(** Three bytes: U+1680, U+2000 to U+200A, U+2028, U+2029, U+202F,
    U+205F, U+3000 and U+FEFF. *)
Definition is_whitespace3 (c1 c2 c3 : ascii) : bool :=
  let n1 := octet c1 in
  let n2 := octet c2 in
  let n3 := octet c3 in
  ((n1 =? 225) && (n2 =? 154) && (n3 =? 128)) ||
  ((n1 =? 226) && (n2 =? 128) &&
   (((128 <=? n3) && (n3 <=? 138)) || (n3 =? 168) || (n3 =? 169) || (n3 =? 175))) ||
  ((n1 =? 226) && (n2 =? 129) && (n3 =? 159)) ||
  ((n1 =? 227) && (n2 =? 128) && (n3 =? 128)) ||
  ((n1 =? 239) && (n2 =? 187) && (n3 =? 191)).

(** The text without its leading white space. *)
Fixpoint trim_start (s : string) : string :=
  match s with
  | EmptyString => s
  | String c1 s1 =>
      if is_whitespace c1 then trim_start s1
      else
        match s1 with
        | EmptyString => s
        | String c2 s2 =>
            if is_whitespace2 c1 c2 then trim_start s2
            else
              match s2 with
              | EmptyString => s
              | String c3 s3 =>
                  if is_whitespace3 c1 c2 c3 then trim_start s3 else s
              end
        end
  end.

(** The value of [c] as a digit in the given radix (10 or 16). *)
Definition digit_value (radix : Z) (c : ascii) : option Z :=
  let n := Z.of_nat (nat_of_ascii c) in
  let v :=
    if (48 <=? n) && (n <=? 57) then n - 48
    else if (97 <=? n) && (n <=? 122) then n - 87
    else if (65 <=? n) && (n <=? 90) then n - 55
    else 36 in
  if v <? radix then Some v else None.

(** Reads the longest prefix of digits; [None] when there is none. *)
Fixpoint parse_digits (radix : Z) (acc : option Z) (s : string) : option Z :=
  match s with
  | EmptyString => acc
  | String c s' =>
      match digit_value radix c with
      | None => acc
      | Some d =>
          parse_digits radix
            (Some (match acc with Some a => a * radix + d | None => d end)) s'
      end
  end.

Definition strip_sign (s : string) : Z * string :=
  match s with
  | String "-" s' => (-1, s')
  | String "+" s' => (1, s')
  | _ => (1, s)
  end.

Definition strip_hex_prefix (s : string) : Z * string :=
  match s with
  | String "0" (String "x" s') => (16, s')
  | String "0" (String "X" s') => (16, s')
  | _ => (10, s)
  end.

(** [parseInt(s)] without a radix argument; [None] is [NaN]. *)
Definition parseInt (s : string) : option Z :=
  let '(sign, s1) := strip_sign (trim_start s) in
  let '(radix, s2) := strip_hex_prefix s1 in
  match parse_digits radix None s2 with
  | Some n => Some (sign * n)
  | None => None
  end.

(** [String.prototype.includes]. *)
Fixpoint includes (s sub : string) : bool :=
  String.prefix sub s ||
  match s with
  | EmptyString => false
  | String _ s' => includes s' sub
  end.

(** Decimal text: [digit_led s] holds when [s] begins with a decimal
    digit and goes on, if at all, with another. *)
Definition is_digit (c : ascii) : bool :=
  let n := Z.of_nat (nat_of_ascii c) in (48 <=? n) && (n <=? 57).

Definition digit_led (s : string) : bool :=
  match s with
  | String c EmptyString => is_digit c
  | String c (String c' _) => is_digit c && is_digit c'
  | EmptyString => false
  end.

Fixpoint all_digits (s : string) : bool :=
  match s with
  | EmptyString => true
  | String c s' => is_digit c && all_digits s'
  end.

End JS.

(** ** SHA-256 and HMAC (FIPS 180-4, RFC 2104), as [crypto.createHmac] computes them *)

Module SHA256.

Definition word_modulus : Z := 2 ^ 32.

Definition add32 (x y : Z) : Z := (x + y) mod word_modulus.

Definition rotr (n x : Z) : Z :=
  Z.lor (Z.shiftr x n) (Z.shiftl x (32 - n) mod word_modulus).

Definition not32 (x : Z) : Z := word_modulus - 1 - x.

Definition Ch (x y z : Z) : Z := Z.lxor (Z.land x y) (Z.land (not32 x) z).
Definition Maj (x y z : Z) : Z :=
  Z.lxor (Z.lxor (Z.land x y) (Z.land x z)) (Z.land y z).
Definition Sigma0 (x : Z) : Z := Z.lxor (Z.lxor (rotr 2 x) (rotr 13 x)) (rotr 22 x).
Definition Sigma1 (x : Z) : Z := Z.lxor (Z.lxor (rotr 6 x) (rotr 11 x)) (rotr 25 x).
Definition sigma0 (x : Z) : Z := Z.lxor (Z.lxor (rotr 7 x) (rotr 18 x)) (Z.shiftr x 3).
Definition sigma1 (x : Z) : Z := Z.lxor (Z.lxor (rotr 17 x) (rotr 19 x)) (Z.shiftr x 10).

(** The round constants are the first 32 bits of the fractional parts of
    the cube roots of the first 64 primes, the initial hash value those
    of the square roots of the first 8. *)
Definition primes : list Z :=
  [2; 3; 5; 7; 11; 13; 17; 19; 23; 29; 31; 37; 41; 43; 47; 53;
   59; 61; 67; 71; 73; 79; 83; 89; 97; 101; 103; 107; 109; 113; 127; 131;
   137; 139; 149; 151; 157; 163; 167; 173; 179; 181; 191; 193; 197; 199;
   211; 223; 227; 229; 233; 239; 241; 251; 257; 263; 269; 271; 277; 281;
   283; 293; 307; 311].

Fixpoint cube_root_bits (bits : nat) (n r : Z) : Z :=
  match bits with
  | O => r
  | S b =>
      let r' := r + 2 ^ Z.of_nat b in
      cube_root_bits b n (if r' * r' * r' <=? n then r' else r)
  end.

Definition K : list Z :=
  Eval vm_compute in
    map (fun p => cube_root_bits 36 (p * 2 ^ 96) 0 mod 2 ^ 32) primes.

Record hash := Hash {
  h_a : Z; h_b : Z; h_c : Z; h_d : Z; h_e : Z; h_f : Z; h_g : Z; h_h : Z
}.

Definition H0 : hash :=
  Eval vm_compute in
    let r p := Z.sqrt (p * 2 ^ 64) mod 2 ^ 32 in
    Hash (r 2) (r 3) (r 5) (r 7) (r 11) (r 13) (r 17) (r 19).

(** Message schedule: [rev_w] holds W(t-1), W(t-2), ... *)
Fixpoint extend_schedule (n : nat) (rev_w : list Z) : list Z :=
  match n with
  | O => rev_w
  | S n' =>
      let w :=
        add32 (add32 (add32 (sigma1 (nth 1 rev_w 0)) (nth 6 rev_w 0))
                     (sigma0 (nth 14 rev_w 0)))
              (nth 15 rev_w 0) in
      extend_schedule n' (w :: rev_w)
  end.

Definition schedule (block : list Z) : list Z :=
  rev (extend_schedule 48 (rev block)).

Definition round (s : hash) (kw : Z * Z) : hash :=
  let t1 :=
    add32 (add32 (add32 (add32 (h_h s) (Sigma1 (h_e s)))
                        (Ch (h_e s) (h_f s) (h_g s))) (fst kw)) (snd kw) in
  let t2 := add32 (Sigma0 (h_a s)) (Maj (h_a s) (h_b s) (h_c s)) in
  Hash (add32 t1 t2) (h_a s) (h_b s) (h_c s)
       (add32 (h_d s) t1) (h_e s) (h_f s) (h_g s).

Definition compress (H : hash) (block : list Z) : hash :=
  let s := fold_left round (combine K (schedule block)) H in
  Hash (add32 (h_a H) (h_a s)) (add32 (h_b H) (h_b s))
       (add32 (h_c H) (h_c s)) (add32 (h_d H) (h_d s))
       (add32 (h_e H) (h_e s)) (add32 (h_f H) (h_f s))
       (add32 (h_g H) (h_g s)) (add32 (h_h H) (h_h s)).

(** Big-endian bytes of [x], [n] of them. *)
Fixpoint be_bytes (n : nat) (x : Z) : list Z :=
  match n with
  | O => []
  | S n' => (x / 256 ^ Z.of_nat n') mod 256 :: be_bytes n' x
  end.

Definition pad (msg : list Z) : list Z :=
  let len := Z.of_nat (length msg) in
  msg ++ 128 :: repeat 0 (Z.to_nat ((55 - len) mod 64)) ++ be_bytes 8 (8 * len).

Fixpoint be_words (bytes : list Z) : list Z :=
  match bytes with
  | b3 :: b2 :: b1 :: b0 :: rest =>
      (((b3 * 256 + b2) * 256 + b1) * 256 + b0) :: be_words rest
  | _ => []
  end.

Fixpoint blocks (count : nat) (words : list Z) : list (list Z) :=
  match count with
  | O => []
  | S n => firstn 16 words :: blocks n (skipn 16 words)
  end.

Definition sha256 (msg : list Z) : hash :=
  let words := be_words (pad msg) in
  fold_left compress (blocks (length words / 16) words) H0.

Definition digest_bytes (h : hash) : list Z :=
  be_bytes 4 (h_a h) ++ be_bytes 4 (h_b h) ++ be_bytes 4 (h_c h) ++
  be_bytes 4 (h_d h) ++ be_bytes 4 (h_e h) ++ be_bytes 4 (h_f h) ++
  be_bytes 4 (h_g h) ++ be_bytes 4 (h_h h).

End SHA256.

Module Crypto.

Definition bytes_of_string (s : string) : list Z :=
  map (fun c => Z.of_nat (nat_of_ascii c)) (list_ascii_of_string s).

Definition hex_digit (d : Z) : ascii :=
  ascii_of_nat (Z.to_nat (if d <? 10 then 48 + d else 87 + d)).

(** [Buffer.prototype.toString("hex")]: two lowercase digits per byte. *)
Fixpoint to_hex (bytes : list Z) : string :=
  match bytes with
  | [] => ""
  | b :: rest => String (hex_digit (b / 16)) (String (hex_digit (b mod 16)) (to_hex rest))
  end.

Definition block_size : nat := 64.

(** The key is hashed when longer than a block, then zero-padded. *)
Definition block_key (key : list Z) : list Z :=
  let k := if (block_size <? length key)%nat
           then SHA256.digest_bytes (SHA256.sha256 key) else key in
  k ++ repeat 0 (block_size - length k).

Definition hmac_sha256 (key msg : list Z) : SHA256.hash :=
  let k := block_key key in
  let inner := SHA256.sha256 (map (Z.lxor 54) k ++ msg) in
  SHA256.sha256 (map (Z.lxor 92) k ++ SHA256.digest_bytes inner).

(** [createHmac("sha256", key).update(data).digest("hex")] on strings. *)
Definition createHmac_sha256_hex (key data : string) : string :=
  to_hex (SHA256.digest_bytes
            (hmac_sha256 (bytes_of_string key) (bytes_of_string data))).

End Crypto.

(** ** JSON values and [JSON.stringify] *)

Module JSON.

#[local] Set Warnings "-register-all".

(** Numbers are restricted to integers; an object lists its members
    in the order in which it enumerates them. *)
Inductive value : Type :=
| Null
| Bool (b : bool)
| Number (n : Z)
| Str (s : string)
| Array (items : list value)
| Object (members : list (string * value)).

Definition quote_char : ascii := ascii_of_nat 34.
Definition backslash : ascii := ascii_of_nat 92.

Definition escape_char (c : ascii) : string :=
  let n := Z.of_nat (nat_of_ascii c) in
  if n =? 34 then String backslash (String quote_char "")
  else if n =? 92 then String backslash (String backslash "")
  else if n =? 8 then String backslash "b"
  else if n =? 9 then String backslash "t"
  else if n =? 10 then String backslash "n"
  else if n =? 12 then String backslash "f"
  else if n =? 13 then String backslash "r"
  else if n <? 32 then
    String backslash ("u00" +:+ Crypto.to_hex [n])
  else String c "".

Fixpoint escape (s : string) : string :=
  match s with
  | EmptyString => ""
  | String c s' => escape_char c +:+ escape s'
  end.

Definition quote (s : string) : string :=
  String quote_char (escape s +:+ String quote_char "").

Fixpoint join (parts : list string) : string :=
  match parts with
  | [] => ""
  | [p] => p
  | p :: rest => p +:+ "," +:+ join rest
  end.

Fixpoint stringify (v : value) : string :=
  match v with
  | Null => "null"
  | Bool true => "true"
  | Bool false => "false"
  | Number n => JS.Number_toString n
  | Str s => quote s
  | Array items => "[" +:+ join (map stringify items) +:+ "]"
  | Object members =>
      "{" +:+ join (map (fun kv => quote (fst kv) +:+ ":" +:+ stringify (snd kv))
                        members) +:+ "}"
  end.

(** [JSON.stringify(undefined)] is [undefined]. *)
Definition JSON_stringify (v : option value) : option string :=
  match v with
  | None => None
  | Some v => Some (stringify v)
  end.

Fixpoint assoc (key : string) (members : list (string * value)) : option value :=
  match members with
  | [] => None
  | (k, v) :: rest => if String.eqb k key then Some v else assoc key rest
  end.

(** Property read [v.key] on a non-nullish value: [undefined] unless
    [v] is an object holding the key. *)
Definition get (v : value) (key : string) : option value :=
  match v with
  | Object members => assoc key members
  | _ => None
  end.

(** *** [JSON.parse] *)

(** JSON white space: space, tab, line feed and carriage return. *)
Definition is_space (c : ascii) : bool :=
  let n := JS.octet c in
  (n =? 32) || (n =? 9) || (n =? 10) || (n =? 13).

Fixpoint skip_spaces (s : string) : string :=
  match s with
  | String c s' => if is_space c then skip_spaces s' else s
  | EmptyString => s
  end.

(** The UTF-8 bytes of a code point. *)
Definition utf8 (cp : Z) : string :=
  let byte n := String (ascii_of_nat (Z.to_nat n)) in
  if cp <? 128 then byte cp ""
  else if cp <? 2048 then byte (192 + cp / 64) (byte (128 + cp mod 64) "")
  else if cp <? 65536 then
    byte (224 + cp / 4096) (byte (128 + cp / 64 mod 64) (byte (128 + cp mod 64) ""))
  else
    byte (240 + cp / 262144)
      (byte (128 + cp / 4096 mod 64)
         (byte (128 + cp / 64 mod 64) (byte (128 + cp mod 64) ""))).

(** The number written by four hexadecimal digits. *)
Definition hex4 (a b c d : ascii) : option Z :=
  match JS.digit_value 16 a, JS.digit_value 16 b,
        JS.digit_value 16 c, JS.digit_value 16 d with
  | Some x, Some y, Some z, Some w => Some (((x * 16 + y) * 16 + z) * 16 + w)
  | _, _, _, _ => None
  end.

(** The character that a one-letter escape stands for. *)
Definition escaped (e : ascii) : option ascii :=
  let n := JS.octet e in
  if n =? 34 then Some quote_char
  else if n =? 92 then Some backslash
  else if n =? 47 then Some "/"%char
  else if n =? 98 then Some (ascii_of_nat 8)
  else if n =? 102 then Some (ascii_of_nat 12)
  else if n =? 110 then Some (ascii_of_nat 10)
  else if n =? 114 then Some (ascii_of_nat 13)
  else if n =? 116 then Some (ascii_of_nat 9)
  else None.

Definition prepend (prefix : string) (r : option (string * string))
  : option (string * string) :=
  match r with
  | Some (text, rest) => Some (prefix +:+ text, rest)
  | None => None
  end.

(** The characters of a string literal behind its opening quote: the
    text up to the closing quote, unescaped, and what follows that
    quote.  A surrogate that is not half of a pair has no UTF-8 form:
    the model has no value for it, and gives [None] as for text that
    is not JSON. *)
Fixpoint parse_chars (s : string) : option (string * string) :=
  match s with
  | EmptyString => None
  | String c rest =>
      if Ascii.eqb c quote_char then Some ("", rest)
      else if Ascii.eqb c backslash then
        match rest with
        | EmptyString => None
        | String e rest1 =>
            match escaped e with
            | Some ch => prepend (String ch "") (parse_chars rest1)
            | None =>
                if Ascii.eqb e "u" then
                  match rest1 with
                  | String h1 (String h2 (String h3 (String h4 rest2))) =>
                      match hex4 h1 h2 h3 h4 with
                      | None => None
                      | Some cp =>
                          if (cp <? 55296) || (57344 <=? cp) then
                            prepend (utf8 cp) (parse_chars rest2)
                          else if cp <? 56320 then
                            match rest2 with
                            | String b (String u (String l1 (String l2
                                (String l3 (String l4 rest3))))) =>
                                if Ascii.eqb b backslash && Ascii.eqb u "u" then
                                  match hex4 l1 l2 l3 l4 with
                                  | Some low =>
                                      if (56320 <=? low) && (low <? 57344) then
                                        prepend
                                          (utf8 (65536 + (cp - 55296) * 1024 +
                                                 (low - 56320)))
                                          (parse_chars rest3)
                                      else None
                                  | None => None
                                  end
                                else None
                            | _ => None
                            end
                          else None
                      end
                  | _ => None
                  end
                else None
            end
        end
      else if JS.octet c <? 32 then None
      else prepend (String c "") (parse_chars rest)
  end.

(** The longest prefix of decimal digits and what follows it. *)
Fixpoint read_digits (acc : option Z) (s : string) : option Z * string :=
  match s with
  | EmptyString => (acc, s)
  | String c s' =>
      match JS.digit_value 10 c with
      | None => (acc, s)
      | Some d =>
          read_digits (Some (match acc with Some a => a * 10 + d | None => d end)) s'
      end
  end.

(** A fraction or an exponent follows. *)
Definition continues_number (s : string) : bool :=
  match s with
  | String c _ => Ascii.eqb c "." || Ascii.eqb c "e" || Ascii.eqb c "E"
  | EmptyString => false
  end.

(** A number without sign: a zero, or digits that begin with another
    one.  Numbers with a fraction or an exponent are no values of the
    model, which gives [None] on them. *)
Definition parse_natural (s : string) : option (Z * string) :=
  match s with
  | EmptyString => None
  | String c rest =>
      let '(n, rest') :=
        if Ascii.eqb c "0" then
          match rest with
          | String d _ => if JS.is_digit d then (None, rest) else (Some 0, rest)
          | EmptyString => (Some 0, rest)
          end
        else read_digits None s in
      match n with
      | Some n => if continues_number rest' then None else Some (n, rest')
      | None => None
      end
  end.

Definition parse_number (s : string) : option (value * string) :=
  match s with
  | String c rest =>
      if Ascii.eqb c "-" then
        match parse_natural rest with
        | Some (n, rest') => Some (Number (- n), rest')
        | None => None
        end
      else
        match parse_natural s with
        | Some (n, rest') => Some (Number n, rest')
        | None => None
        end
  | EmptyString => None
  end.

(** What follows [word] in [s], when [s] begins with it. *)
Fixpoint strip_prefix (word s : string) : option string :=
  match word with
  | EmptyString => Some s
  | String w word' =>
      match s with
      | String c s' => if Ascii.eqb w c then strip_prefix word' s' else None
      | EmptyString => None
      end
  end.

Definition parse_keyword (s : string) : option (value * string) :=
  match strip_prefix "null" s with
  | Some rest => Some (Null, rest)
  | None =>
      match strip_prefix "true" s with
      | Some rest => Some (Bool true, rest)
      | None =>
          match strip_prefix "false" s with
          | Some rest => Some (Bool false, rest)
          | None => None
          end
      end
  end.

(** The canonical text of an array index: a number below [2 ^ 32 - 1],
    written without a leading zero. *)
Definition array_index (k : string) : option Z :=
  match k with
  | EmptyString => None
  | String c rest =>
      if JS.all_digits k && (negb (Ascii.eqb c "0") || String.eqb rest "") then
        match JS.parse_digits 10 None k with
        | Some n => if n <? 4294967295 then Some n else None
        | None => None
        end
      else None
  end.

(** A property [k] defined after [k'] is enumerated before it: array
    indices come first, in ascending order. *)
Definition precedes (k k' : string) : bool :=
  match array_index k, array_index k' with
  | Some i, Some j => i <? j
  | Some _, None => true
  | None, _ => false
  end.

(** The members of an object once [k] is defined as [v]: a key that is
    there keeps its place. *)
Fixpoint define (k : string) (v : value) (members : list (string * value))
  : list (string * value) :=
  match members with
  | [] => [(k, v)]
  | (k', v') :: rest =>
      if String.eqb k' k then (k', v) :: rest
      else if precedes k k' then (k, v) :: members
      else (k', v') :: define k v rest
  end.

Definition build (members : list (string * value)) : list (string * value) :=
  fold_left (fun object kv => define (fst kv) (snd kv) object) members [].

Section Containers.

(** The parser of the values inside the container. *)
Variable parse_element : string -> option (value * string).

(** The elements of an array, from the first one to the closing
    bracket. *)
Fixpoint parse_items (fuel : nat) (s : string) : option (list value * string) :=
  match fuel with
  | O => None
  | S fuel' =>
      match parse_element s with
      | None => None
      | Some (v, rest) =>
          match skip_spaces rest with
          | EmptyString => None
          | String c rest' =>
              if Ascii.eqb c "," then
                match parse_items fuel' rest' with
                | Some (vs, rest'') => Some (v :: vs, rest'')
                | None => None
                end
              else if Ascii.eqb c "]" then Some ([v], rest')
              else None
          end
      end
  end.

(** The members of an object, from the first key to the closing brace,
    in the order of the text. *)
Fixpoint parse_members (fuel : nat) (s : string)
  : option (list (string * value) * string) :=
  match fuel with
  | O => None
  | S fuel' =>
      match skip_spaces s with
      | EmptyString => None
      | String q after_quote =>
          if Ascii.eqb q quote_char then
            match parse_chars after_quote with
            | None => None
            | Some (k, after_key) =>
                match skip_spaces after_key with
                | EmptyString => None
                | String colon after_colon =>
                    if Ascii.eqb colon ":" then
                      match parse_element after_colon with
                      | None => None
                      | Some (v, rest) =>
                          match skip_spaces rest with
                          | EmptyString => None
                          | String c rest' =>
                              if Ascii.eqb c "," then
                                match parse_members fuel' rest' with
                                | Some (ms, rest'') => Some ((k, v) :: ms, rest'')
                                | None => None
                                end
                              else if Ascii.eqb c "}" then Some ([(k, v)], rest')
                              else None
                          end
                      end
                    else None
                end
            end
          else None
      end
  end.

End Containers.

(** One value and what follows it.  [fuel] bounds the nesting and the
    number of elements of a container; the length of the text is
    enough of it. *)
Fixpoint parse_value (fuel : nat) (s : string) : option (value * string) :=
  match fuel with
  | O => None
  | S fuel' =>
      match skip_spaces s with
      | EmptyString => None
      | String c rest =>
          if Ascii.eqb c "{" then
            match skip_spaces rest with
            | EmptyString => None
            | String c' rest' =>
                if Ascii.eqb c' "}" then Some (Object [], rest')
                else
                  match parse_members (parse_value fuel') fuel' rest with
                  | Some (members, rest'') => Some (Object (build members), rest'')
                  | None => None
                  end
            end
          else if Ascii.eqb c "[" then
            match skip_spaces rest with
            | EmptyString => None
            | String c' rest' =>
                if Ascii.eqb c' "]" then Some (Array [], rest')
                else
                  match parse_items (parse_value fuel') fuel' rest with
                  | Some (items, rest'') => Some (Array items, rest'')
                  | None => None
                  end
            end
          else if Ascii.eqb c quote_char then
            match parse_chars rest with
            | Some (text, rest') => Some (Str text, rest')
            | None => None
            end
          else if Ascii.eqb c "-" || JS.is_digit c then parse_number (String c rest)
          else parse_keyword (String c rest)
      end
  end.

(** [JSON.parse]: [None] when it throws, and for a text that holds
    what the model has no value for (a number with a fraction or an
    exponent, a surrogate that is not half of a pair). *)
Definition parse (s : string) : option value :=
  match parse_value (S (String.length s)) s with
  | Some (v, rest) =>
      match skip_spaces rest with
      | EmptyString => Some v
      | String _ _ => None
      end
  | None => None
  end.

(** The keys are listed the way an object enumerates them: none twice,
    array indices first and in ascending order. *)
Fixpoint enumerated (keys : list string) : bool :=
  match keys with
  | [] => true
  | k :: rest =>
      forallb (fun k' => negb (String.eqb k k') && negb (precedes k' k)) rest &&
      enumerated rest
  end.

(** Every object of the value lists its members in that way. *)
Fixpoint canonical (v : value) : bool :=
  match v with
  | Array items => forallb canonical items
  | Object members =>
      enumerated (map fst members) && forallb (fun kv => canonical (snd kv)) members
  | _ => true
  end.

End JSON.

(** ** [lib/headers.ts] and [lib/security.ts] *)

Module Security.

(** Modelled from the spec: the header names of [SECURITY_HEADERS]
    ([lib/headers.ts]), as section 6 of the specification fixes them. *)
Definition EVENT_ID : string := "X-Event-Id".
Definition TIMESTAMP : string := "X-Timestamp".
Definition SIGNATURE : string := "X-Signature".

Definition generateFlowSecret (blockId appSecretKey : string) : string :=
  Crypto.createHmac_sha256_hex appSecretKey blockId.

Definition signRequest (body : string) (timestamp : Z) (flowSecret : string) : string :=
  let data := body +:+ JS.Number_toString timestamp in
  Crypto.createHmac_sha256_hex flowSecret data.

End Security.

(** ** [lib/retry.ts] *)

Module Retry.

(** The options that are given; [maxRetries] and [maxDelay] are whole
    numbers. *)
Record RetryOptions := {
  maxRetries : option Z;
  maxDelay : option Z;
  pendingEventId : option string;
  operationName : option string
}.

Definition no_options : RetryOptions :=
  {| maxRetries := None; maxDelay := None;
     pendingEventId := None; operationName := None |}.

(** What a rejected operation throws, as [withRetry] observes it:
    through [instanceof Error], [String(_)] and the [message] property.
    An [Error] has its message.  Any other value converts to [text]
    under [String(_)]; its [message] property is the string [message],
    or [None] for a value on which the read [error.message.includes]
    throws a [TypeError] (a string or a number, [null], an object
    without a [message]).  A value that [String(_)] cannot convert,
    and a [message] that is no string but has an [includes] method of
    its own, an array say, are not modelled. *)
Inductive thrown : Type :=
| ErrorObject (message : string)
| OtherValue (message : option string) (text : string).

Inductive settled (T : Type) : Type :=
| Resolved (v : T)
| Rejected (e : thrown).
Arguments Resolved {T} v.
Arguments Rejected {T} e.

(** The observable steps of a run, in order. *)
Inductive effect : Type :=
| UpdatePending (pendingEventId statusDescription : string)
| Invoke (attempt : Z)
| SetTimeout (delay : Z).

(** How the promise returned by [withRetry] settles.  [ThrowsTypeError]
    is the engine's [TypeError] for a property read on [undefined]. *)
Inductive completion (T : Type) : Type :=
| Returns (v : T)
| Throws (e : thrown)
| ThrowsTypeError.
Arguments Returns {T} v.
Arguments Throws {T} e.
Arguments ThrowsTypeError {T}.

Definition retryable (message : string) : bool :=
  JS.includes message "HTTP 504" ||
  JS.includes message "timeout" ||
  JS.includes message "ECONNRESET" ||
  JS.includes message "ENOTFOUND".

Definition backoff (maxDelay attempt : Z) : Z :=
  Z.min (1000 * 2 ^ (attempt - 1)) maxDelay.

(** [error.message], where it is a string. *)
Definition message_of (error : thrown) : option string :=
  match error with
  | ErrorObject message => Some message
  | OtherValue message _ => message
  end.

(** [error instanceof Error ? error : new Error(String(error))]. *)
Definition as_error (error : thrown) : thrown :=
  match error with
  | ErrorObject _ => error
  | OtherValue _ text => ErrorObject text
  end.

Section Loop.
Context {T : Type}.
(** [operation n] is the way the call made by attempt [n] settles. *)
Variable operation : Z -> settled T.
Variables (maxRetries maxDelay : Z).
Variable pendingEventId : option string.
Variable operationName : string.

Definition progress (attempt : Z) : list effect :=
  if JS.truthy pendingEventId && (attempt >? 1)
  then [UpdatePending (default "" pendingEventId)
          (operationName +:+ " (attempt " +:+ JS.Number_toString attempt +:+ ")...")]
  else [].

(** The [for] loop from [attempt] on; [remaining] is the number of
    iterations left, [maxRetries - attempt + 1], so that
    [attempt <= maxRetries] holds exactly when it is not [O].  The
    [O] case is the code after the loop; [lastError], once assigned,
    is an [Error]. *)
Fixpoint attempts (remaining : nat) (attempt : Z) (lastError : option thrown)
  : list effect * completion T :=
  match remaining with
  | O =>
      ([], match lastError with
           | Some (ErrorObject message) =>
               Throws (ErrorObject
                 (operationName +:+ " failed after " +:+
                  JS.Number_toString maxRetries +:+ " attempts: " +:+ message))
           | _ => ThrowsTypeError
           end)
  | S remaining' =>
      match operation attempt with
      | Resolved v => (progress attempt ++ [Invoke attempt], Returns v)
      | Rejected error =>
          let lastError := as_error error in
          if attempt <? maxRetries then
            match message_of error with
            | None => (progress attempt ++ [Invoke attempt], ThrowsTypeError)
            | Some message =>
                if retryable message then
                  let delay := backoff maxDelay attempt in
                  let '(trace, result) :=
                    attempts remaining' (attempt + 1) (Some lastError) in
                  (progress attempt ++ [Invoke attempt; SetTimeout delay] ++ trace,
                   result)
                else (progress attempt ++ [Invoke attempt], Throws lastError)
            end
          else (progress attempt ++ [Invoke attempt], Throws lastError)
      end
  end.
End Loop.

Definition withRetry {T : Type} (operation : Z -> settled T) (options : RetryOptions)
  : list effect * completion T :=
  let maxRetries := default 3 (maxRetries options) in
  let maxDelay := default 5000 (maxDelay options) in
  let operationName := default "operation" (operationName options) in
  attempts operation maxRetries maxDelay (pendingEventId options) operationName
    (Z.to_nat maxRetries) 1 None.

End Retry.

(** ** [blocks/tool.ts]: the inbound verification gate *)

Module Tool.

(** The request as the platform hands it to [onRequest]: [body] is the
    parsed body, a JSON value, where [Null] stands for a body that is
    [null] or [undefined]; [rawBody] is the text that was signed. *)
Record Request := {
  body : JSON.value;
  requestId : string;
  headers : gmap string string;
  rawBody : string
}.

(** How a run of the handler ends: with an HTTP response of body
    [{ error }], with the emission of the admitted payload, or with the
    engine's [TypeError] for the destructuring of [null], nothing
    having been sent or emitted. *)
Inductive effect : Type :=
| Respond (requestId : string) (statusCode : Z) (error : string)
| Emit (requestId : string) (parameters : option JSON.value)
       (secondaryParentEventIds : list (option JSON.value))
| ThrowTypeError.

(** [Math.abs(now - requestTime) > 300], where [requestTime] may be
    [NaN] ([None]): every comparison with [NaN] is false. *)
Definition too_old (now : Z) (requestTime : option Z) : bool :=
  match requestTime with
  | Some t => Z.abs (now - t) >? 300
  | None => false
  end.

(** [toolSecuritySecret] is [app.signals.toolSecuritySecret], [blockId]
    is [block.id] and [nowMs] the value of [Date.now()]. *)
Definition onRequest (toolSecuritySecret : option string) (blockId : string)
    (request : Request) (nowMs : Z) : effect :=
  let secretKey := toolSecuritySecret in
  if negb (JS.truthy secretKey) then
    Respond (requestId request) 500 "App security secret not available"
  else
    let eventId := headers request !! Security.EVENT_ID in
    let timestamp := headers request !! Security.TIMESTAMP in
    let signature := headers request !! Security.SIGNATURE in
    if negb (JS.truthy eventId) || negb (JS.truthy timestamp)
       || negb (JS.truthy signature) then
      Respond (requestId request) 401 "Missing required security headers"
    else
      let timestamp := default "" timestamp in
      let now := nowMs / 1000 in
      let requestTime := JS.parseInt timestamp in
      if too_old now requestTime then
        Respond (requestId request) 401 "Request timestamp too old"
      else
        let flowSecret := Security.generateFlowSecret blockId (default "" secretKey) in
        let expectedSignature :=
          Crypto.createHmac_sha256_hex flowSecret (rawBody request +:+ timestamp) in
        if negb (String.eqb (default "" signature) expectedSignature) then
          Respond (requestId request) 401 "Invalid request signature"
        else
          match body request with
          | JSON.Null => ThrowTypeError
          | body =>
              let bodyEventId := JSON.get body "eventId" in
              let parameters := JSON.get body "parameters" in
              Emit (requestId request) parameters [bodyEventId]
          end.

End Tool.

(** ** [blocks/generate.ts]: the per-call operation of [createToolsFromConfig] *)

Module Generate.

(** A tool definition, as the Tool block's [onSync] publishes it. *)
Record ToolDefinition := {
  slug : string;
  name : string;
  description : string;
  schema : JSON.value;
  url : string;
  blockId : string
}.

Record FetchRequest := {
  fetch_url : string;
  fetch_method : string;
  fetch_headers : gmap string string;
  fetch_body : string
}.

(** What [response.json()] yields: a parsed value, or a rejection with
    the parser's message. *)
Inductive json_outcome : Type :=
| Parsed (v : JSON.value)
| Unparsable (message : string).

Record Response := {
  status : Z;
  statusText : string;
  json : json_outcome
}.

(** [response.ok]: the status is in the range 200-299. *)
Definition ok (r : Response) : bool := (200 <=? status r) && (status r <=? 299).

(** How [fetch] settles: with a response, or rejected by the transport. *)
Inductive fetch_outcome : Type :=
| Responded (r : Response)
| Failed (message : string).

(** The signed POST built for one call, given the serialized [body] and
    the value [nowMs] of [Date.now()]. *)
Definition signed_request (t : ToolDefinition) (eventId secretKey body : string)
    (nowMs : Z) : FetchRequest :=
  let timestamp := nowMs / 1000 in
  let flowSecret := Security.generateFlowSecret (blockId t) secretKey in
  let signature := Security.signRequest body timestamp flowSecret in
  {| fetch_url := url t;
     fetch_method := "POST";
     fetch_headers :=
       <[Security.SIGNATURE := signature]>
         (<[Security.TIMESTAMP := JS.Number_toString timestamp]>
            (<[Security.EVENT_ID := eventId]>
               {["Content-Type" := "application/json"]}));
     fetch_body := body |}.

Definition call_request (t : ToolDefinition) (eventId secretKey : string)
    (parameters : JSON.value) (nowMs : Z) : FetchRequest :=
  let body :=
    JSON.stringify
      (JSON.Object [("parameters", parameters); ("eventId", JSON.Str eventId)]) in
  signed_request t eventId secretKey body nowMs.

(** The rest of the operation, once [fetch] has settled. *)
Definition call_result (outcome : fetch_outcome) : Retry.settled (option string) :=
  match outcome with
  | Failed message => Retry.Rejected (Retry.ErrorObject message)
  | Responded response =>
      if negb (ok response) then
        Retry.Rejected
          (Retry.ErrorObject
             ("HTTP " +:+ JS.Number_toString (status response) +:+ ": " +:+
              statusText response))
      else
        match json response with
        | Unparsable message => Retry.Rejected (Retry.ErrorObject message)
        | Parsed JSON.Null =>
            Retry.Rejected
              (Retry.ErrorObject
                 "Cannot destructure property 'result' of '(intermediate value)' as it is null.")
        | Parsed v => Retry.Resolved (JSON.JSON_stringify (JSON.get v "result"))
        end
  end.

(** The environment of one call: the clock reading and the remote end's
    answer, for each attempt. *)
Record World := {
  clock : Z -> Z;
  network : Z -> FetchRequest -> fetch_outcome
}.

Definition operation (w : World) (t : ToolDefinition) (eventId secretKey : string)
    (parameters : JSON.value) (attempt : Z) : Retry.settled (option string) :=
  call_result
    (network w attempt (call_request t eventId secretKey parameters (clock w attempt))).

Definition execute (w : World) (t : ToolDefinition)
    (eventId pendingEventId secretKey : string) (parameters : JSON.value)
  : list Retry.effect * Retry.completion (option string) :=
  Retry.withRetry
    (operation w t eventId secretKey parameters)
    {| Retry.maxRetries := None;
       Retry.maxDelay := None;
       Retry.pendingEventId := Some pendingEventId;
       Retry.operationName :=
         Some ("Calling tool " +:+ String JSON.quote_char (name t) +:+
               String JSON.quote_char "") |}.

End Generate.

(** ** [main.ts]: the application's [onSync] *)

Module App.

Record SyncResult := {
  newStatus : string;
  customStatusDescription : option string;
  signalUpdates : gmap string string
}.

(** [signals] are the application's current signals, [randomBytes] the
    generator of [crypto] and [responseOk] the outcome of the request
    that validates the API key. *)
Definition onSync (signals : gmap string string) (randomBytes : nat -> list Z)
    (responseOk : bool) : SyncResult :=
  let signalUpdates : gmap string string :=
    if negb (JS.truthy (signals !! "toolSecuritySecret")) then
      let secret := Crypto.to_hex (randomBytes 32%nat) in
      <["toolSecuritySecret" := secret]> ∅
    else ∅ in
  if negb responseOk then
    {| newStatus := "failed";
       customStatusDescription := Some "See logs for details";
       signalUpdates := signalUpdates |}
  else
    {| newStatus := "ready";
       customStatusDescription := None;
       signalUpdates := signalUpdates |}.

End App.

(** ** Vocabulary of the specification *)

(** The inbound gate as section 4.3 of the specification words it: four
    checks, evaluated in order, the first failure deciding the response. *)
Module GateSpec.

Inductive check : Type :=
| SecretAvailability
| HeaderCompleteness
| Freshness
| SignatureMatch.

Definition checks : list check :=
  [SecretAvailability; HeaderCompleteness; Freshness; SignatureMatch].

Definition status_of (c : check) : Z :=
  match c with
  | SecretAvailability => 500
  | _ => 401
  end.

Definition message_of (c : check) : string :=
  match c with
  | SecretAvailability => "App security secret not available"
  | HeaderCompleteness => "Missing required security headers"
  | Freshness => "Request timestamp too old"
  | SignatureMatch => "Invalid request signature"
  end.

Section Gate.
Variable secret : option string.
Variable blockId : string.
Variable request : Tool.Request.
Variable nowMs : Z.

Definition header (name : string) : option string :=
  Tool.headers request !! name.

(** A value is missing when it is [undefined] or empty. *)
Definition missing (v : option string) : bool :=
  match v with
  | Some s => String.eqb s ""
  | None => true
  end.

(** More than 300 seconds from the current time, in either direction. *)
Definition stale (timestamp : string) : bool :=
  match JS.parseInt timestamp with
  | Some t => (t <? nowMs / 1000 - 300) || (nowMs / 1000 + 300 <? t)
  | None => false
  end.

Definition recomputed_signature (timestamp : string) : string :=
  Crypto.createHmac_sha256_hex
    (Crypto.createHmac_sha256_hex (default "" secret) blockId)
    (Tool.rawBody request +:+ timestamp).

(** The supplied signature is not the recomputed one. *)
Definition signature_differs : bool :=
  negb (String.eqb (default "" (header Security.SIGNATURE))
          (recomputed_signature (default "" (header Security.TIMESTAMP)))).

Definition fails (c : check) : bool :=
  match c with
  | SecretAvailability => missing secret
  | HeaderCompleteness =>
      missing (header Security.EVENT_ID) ||
      missing (header Security.TIMESTAMP) ||
      missing (header Security.SIGNATURE)
  | Freshness => stale (default "" (header Security.TIMESTAMP))
  | SignatureMatch => signature_differs
  end.

(** The payload is emitted to the downstream collaborator. *)
Definition admitted : Tool.effect :=
  Tool.Emit (Tool.requestId request)
    (JSON.get (Tool.body request) "parameters")
    [JSON.get (Tool.body request) "eventId"].

Definition rejected (c : check) : Tool.effect :=
  Tool.Respond (Tool.requestId request) (status_of c) (message_of c).

(** What becomes of a request that no check rejects: its payload is
    emitted, unless the body is [null], which has no payload to read. *)
Definition passed : Tool.effect :=
  match Tool.body request with
  | JSON.Null => Tool.ThrowTypeError
  | _ => admitted
  end.

Definition gate : Tool.effect :=
  match List.find fails checks with
  | Some c => rejected c
  | None => passed
  end.

(** The outcome once only the signature check is left to decide. *)
Definition signature_stage : Tool.effect :=
  if signature_differs then rejected SignatureMatch else passed.

End Gate.

Definition status (e : Tool.effect) : option Z :=
  match e with
  | Tool.Respond _ code _ => Some code
  | _ => None
  end.

Definition message (e : Tool.effect) : option string :=
  match e with
  | Tool.Respond _ _ error => Some error
  | _ => None
  end.

End GateSpec.

(** The retry executor as section 4.4 of the specification words it. *)
Module RetrySpec.

(** [sub] occurs in [s]. *)
Definition contains (s sub : string) : Prop :=
  exists before after, s = before +:+ sub +:+ after.

(** The message marks a gateway timeout, a timeout, a connection reset
    or a failed host lookup. *)
Definition transient (message : string) : Prop :=
  contains message "HTTP 504" \/ contains message "timeout" \/
  contains message "ECONNRESET" \/ contains message "ENOTFOUND".

(** The attempt failed, and the message of what it threw (an [Error]
    or not) is one of a transient failure. *)
Definition fails_retryably {T : Type} (r : Retry.settled T) : Prop :=
  exists error message,
    r = Retry.Rejected error /\ Retry.message_of error = Some message /\
    transient message.

Section Run.
Variable options : Retry.RetryOptions.

Definition limit : Z := default 3 (Retry.maxRetries options).

(** The pending-status update that announces [attempt], if any. *)
Definition announce (attempt : Z) : list Retry.effect :=
  match Retry.pendingEventId options with
  | Some (String c id) =>
      if 1 <? attempt then
        [Retry.UpdatePending (String c id)
           (default "operation" (Retry.operationName options) +:+ " (attempt " +:+
            JS.Number_toString attempt +:+ ")...")]
      else []
  | _ => []
  end.

Definition wait (attempt : Z) : Z :=
  Z.min (1000 * 2 ^ (attempt - 1)) (default 5000 (Retry.maxDelay options)).

(** The steps of [count] consecutive attempts, from [attempt] on, each
    of which failed and was followed by a wait. *)
Fixpoint retried (count : nat) (attempt : Z) : list Retry.effect :=
  match count with
  | O => []
  | S count' =>
      announce attempt ++ [Retry.Invoke attempt; Retry.SetTimeout (wait attempt)] ++
      retried count' (attempt + 1)
  end.

(** The steps of a run that ends with attempt [n]. *)
Definition steps_through (n : Z) : list Retry.effect :=
  retried (Z.to_nat (n - 1)) 1 ++ announce n ++ [Retry.Invoke n].

End Run.

(** An update of the pending status is the announcement of an attempt
    after the first, and the call of that attempt comes next. *)
Definition announces (options : Retry.RetryOptions) (e : Retry.effect)
    (next : list Retry.effect) : Prop :=
  match e with
  | Retry.UpdatePending _ _ =>
      exists attempt rest,
        (2 <= attempt <= limit options) /\
        (announce options attempt = [e]) /\
        (next = Retry.Invoke attempt :: rest)
  | _ => True
  end.

Fixpoint well_announced (options : Retry.RetryOptions) (trace : list Retry.effect)
  : Prop :=
  match trace with
  | [] => True
  | e :: rest => announces options e rest /\ well_announced options rest
  end.

(** [x] occurs in [trace] somewhere before an occurrence of [y]. *)
Definition precedes (x y : Retry.effect) (trace : list Retry.effect) : Prop :=
  exists l1 l2 l3, trace = l1 ++ x :: l2 ++ y :: l3.

End RetrySpec.

(** A signed call on its way from the Generate block to a Tool block. *)
Module EndToEnd.

(** The request as the platform hands it to the Tool block: the
    headers and the body text are the ones that were sent; [parsed] is
    the body once parsed. *)
Definition deliver (requestId : string) (parsed : JSON.value)
    (sent : Generate.FetchRequest) : Tool.Request :=
  {| Tool.body := parsed;
     Tool.requestId := requestId;
     Tool.headers := Generate.fetch_headers sent;
     Tool.rawBody := Generate.fetch_body sent |}.

(** A tool definition for the block [blockId]. *)
Definition tool_of (blockId : string) : Generate.ToolDefinition :=
  {| Generate.slug := "tool";
     Generate.name := "Tool";
     Generate.description := "";
     Generate.schema := JSON.Object [];
     Generate.url := "https://flows.example/tool";
     Generate.blockId := blockId |}.



(** The digest as one number below [2 ^ 256]. *)
Definition digest_space : Z := 2 ^ 256.

Definition code (h : SHA256.hash) : Z :=
  let shift x y := x * SHA256.word_modulus + y in
  shift (shift (shift (shift (shift (shift (shift
    (SHA256.h_a h) (SHA256.h_b h)) (SHA256.h_c h)) (SHA256.h_d h))
    (SHA256.h_e h)) (SHA256.h_f h)) (SHA256.h_g h)) (SHA256.h_h h).

Definition is_word (x : Z) : Prop := 0 <= x < SHA256.word_modulus.

Definition words (h : SHA256.hash) : Prop :=
  is_word (SHA256.h_a h) /\ is_word (SHA256.h_b h) /\ is_word (SHA256.h_c h) /\
  is_word (SHA256.h_d h) /\ is_word (SHA256.h_e h) /\ is_word (SHA256.h_f h) /\
  is_word (SHA256.h_g h) /\ is_word (SHA256.h_h h).

(** Block identifiers of every length: [n + 1] times the letter b. *)
Fixpoint identifier (n : nat) : string :=
  match n with
  | O => "b"
  | S n' => String "b" (identifier n')
  end.

End EndToEnd.

(** Sample requests. *)
Module Examples.

Definition inbound (timestamp : string) : Tool.Request :=
  {| Tool.body := JSON.Object [];
     Tool.requestId := "req-1";
     Tool.headers :=
       <[Security.SIGNATURE := "00"]>
         (<[Security.TIMESTAMP := timestamp]> (<[Security.EVENT_ID := "evt-1"]> ∅));
     Tool.rawBody := "{}" |}.

(** A request for the block "tool-A", signed under the secret "S" over
    the body and the timestamp header as it stands. *)
Definition signed (timestamp : string) : Tool.Request :=
  {| Tool.body := JSON.Object [];
     Tool.requestId := "req-1";
     Tool.headers :=
       <[Security.SIGNATURE :=
           Crypto.createHmac_sha256_hex (Security.generateFlowSecret "tool-A" "S")
             ("{}" +:+ timestamp)]>
         (<[Security.TIMESTAMP := timestamp]> (<[Security.EVENT_ID := "evt-1"]> ∅));
     Tool.rawBody := "{}" |}.

Definition bare : Tool.Request :=
  {| Tool.body := JSON.Object [];
     Tool.requestId := "req-1";
     Tool.headers := ∅;
     Tool.rawBody := "{}" |}.

(** Operations for the retry executor, by the attempt that calls them. *)
Definition always_timeout (attempt : Z) : Retry.settled string :=
  Retry.Rejected (Retry.ErrorObject "timeout").

Definition fails_once (attempt : Z) : Retry.settled string :=
  if attempt <? 2 then Retry.Rejected (Retry.ErrorObject "read ECONNRESET")
  else Retry.Resolved "done".

Definition then_fatal (attempt : Z) : Retry.settled string :=
  if attempt <? 2 then Retry.Rejected (Retry.ErrorObject "timeout")
  else Retry.Rejected (Retry.ErrorObject "HTTP 500: Internal Server Error").

Definition with_pending : Retry.RetryOptions :=
  {| Retry.maxRetries := None; Retry.maxDelay := None;
     Retry.pendingEventId := Some "pending-1"; Retry.operationName := None |}.

(** Responses of a tool endpoint. *)
Definition bad_gateway : Generate.Response :=
  {| Generate.status := 502;
     Generate.statusText := "Bad Gateway";
     Generate.json := Generate.Unparsable "Unexpected token < in JSON" |}.

Definition upstream_timeout : Generate.Response :=
  {| Generate.status := 500;
     Generate.statusText := "upstream timeout";
     Generate.json := Generate.Unparsable "Unexpected token < in JSON" |}.

Definition answered : Generate.Response :=
  {| Generate.status := 200;
     Generate.statusText := "OK";
     Generate.json := Generate.Parsed (JSON.Object [("result", JSON.Str "sunny")]) |}.

End Examples.

(** ** [blocks/tool.ts]: the [processResult] input *)

Module ToolResult.

Record HttpResponse := {
  statusCode : Z;
  headers : gmap string string;
  body : JSON.value
}.

(** [event.echo], read through [echo.body.requestId]. *)
Record Echo := { echo_requestId : string }.

Inductive effect : Type :=
| Respond (requestId : string) (response : HttpResponse)
| Throw (message : string).

(** [echo] is [event.echo] and [result] is [inputConfig.result]. *)
Definition onEvent (echo : option Echo) (result : string) : effect :=
  match echo with
  | None => Throw "This block should not be called directly"
  | Some echo =>
      Respond (echo_requestId echo)
        {| statusCode := 200;
           headers := {[ "Content-Type" := "application/json" ]};
           body := JSON.Object [("result", JSON.Str result)] |}
  end.

End ToolResult.

(** ** [blocks/generate.ts]: [createToolsFromConfig] *)

Module Tools.

(** [Object.fromEntries(tools.map((t) => [t.slug, tool({...})]))]: every
    entry is keyed by the slug of its definition, and an entry replaces
    an earlier one with the same key.  The tool object is represented
    by the definition it is built from. *)
Definition createToolsFromConfig (tools : list Generate.ToolDefinition)
  : gmap string Generate.ToolDefinition :=
  fold_left (fun entries t => <[Generate.slug t := t]> entries) tools ∅.

End Tools.

(** ** More vocabulary *)

Module RunSpec.

(** The attempts called in a run, and the waits made, in order. *)
Fixpoint invocations (trace : list Retry.effect) : list Z :=
  match trace with
  | [] => []
  | Retry.Invoke attempt :: rest => attempt :: invocations rest
  | _ :: rest => invocations rest
  end.

Fixpoint waits (trace : list Retry.effect) : list Z :=
  match trace with
  | [] => []
  | Retry.SetTimeout delay :: rest => delay :: waits rest
  | _ :: rest => waits rest
  end.

(** [count] consecutive numbers from [first] on. *)
Fixpoint count_up (count : nat) (first : Z) : list Z :=
  match count with
  | O => []
  | S count' => first :: count_up count' (first + 1)
  end.

(** How the run settles when attempt [n] is its last: with the value
    of the attempt; with the [Error] it threw; with an [Error] made of
    the text of the value it threw; or, for a value without a message
    that is thrown before the last of the [maxRetries] attempts, with a
    [TypeError]. *)
Definition settles_as {T : Type} (options : Retry.RetryOptions)
    (r : Retry.settled T) (n : Z) : Retry.completion T :=
  match r with
  | Retry.Resolved v => Retry.Returns v
  | Retry.Rejected (Retry.ErrorObject message) =>
      Retry.Throws (Retry.ErrorObject message)
  | Retry.Rejected (Retry.OtherValue (Some _) text) =>
      Retry.Throws (Retry.ErrorObject text)
  | Retry.Rejected (Retry.OtherValue None text) =>
      if n <? RetrySpec.limit options then Retry.ThrowsTypeError
      else Retry.Throws (Retry.ErrorObject text)
  end.

(** Attempt [n] is not followed by another one. *)
Definition last_attempt {T : Type} (options : Retry.RetryOptions)
    (r : Retry.settled T) (n : Z) : Prop :=
  match r with
  | Retry.Rejected error =>
      match Retry.message_of error with
      | Some message => ~ (n < RetrySpec.limit options /\ RetrySpec.transient message)
      | None => True
      end
  | Retry.Resolved _ => True
  end.

End RunSpec.

(** What the platform does between the blocks. *)
Module Platform.

(** The response of a Tool block as [fetch] hands it to the caller:
    the status code and the JSON body are the ones that were sent, the
    status text is the transport's. *)
Definition received (statusText : string) (r : ToolResult.HttpResponse)
  : Generate.Response :=
  {| Generate.status := ToolResult.statusCode r;
     Generate.statusText := statusText;
     Generate.json := Generate.Parsed (ToolResult.body r) |}.

(** The signals after the updates returned by a synchronization have
    been stored: an update replaces the signal of the same name. *)
Definition store (signals updates : gmap string string) : gmap string string :=
  updates ∪ signals.

(** The request that reaches the Tool block for a request that was
    sent: the headers and the body text are the ones that were sent,
    and the body is what [JSON.parse] reads from that text.  A request
    whose text does not parse to a value of the model is not handed to
    the handler. *)
Definition arrival (requestId : string) (sent : Generate.FetchRequest)
  : option Tool.Request :=
  match JSON.parse (Generate.fetch_body sent) with
  | Some parsed => Some (EndToEnd.deliver requestId parsed sent)
  | None => None
  end.

(** The same request with one header set to another value. *)
Definition with_header (name value : string) (request : Tool.Request) : Tool.Request :=
  {| Tool.body := Tool.body request;
     Tool.requestId := Tool.requestId request;
     Tool.headers := <[name := value]> (Tool.headers request);
     Tool.rawBody := Tool.rawBody request |}.

End Platform.

(** Text made of lowercase hexadecimal digits. *)
Module Hex.

Definition is_lower_hex (c : ascii) : bool :=
  let n := Z.of_nat (nat_of_ascii c) in
  ((48 <=? n) && (n <=? 57)) || ((97 <=? n) && (n <=? 102)).

Fixpoint all_chars (p : ascii -> bool) (s : string) : bool :=
  match s with
  | EmptyString => true
  | String c s' => p c && all_chars p s'
  end.

Definition is_byte (b : Z) : Prop := 0 <= b < 256.

End Hex.

(** More sample inputs. *)
Module Samples.

(** An operation that throws the string "timeout", one that throws the
    object [{ message: "timeout" }] and one that throws
    [{ message: "fatal" }]. *)
Definition throws_text (attempt : Z) : Retry.settled string :=
  Retry.Rejected (Retry.OtherValue None "timeout").

Definition throws_object (attempt : Z) : Retry.settled string :=
  Retry.Rejected (Retry.OtherValue (Some "timeout") "[object Object]").

Definition throws_fatal_object (attempt : Z) : Retry.settled string :=
  Retry.Rejected (Retry.OtherValue (Some "fatal") "[object Object]").

Definition no_attempts : Retry.RetryOptions :=
  {| Retry.maxRetries := Some 0; Retry.maxDelay := None;
     Retry.pendingEventId := None; Retry.operationName := None |}.

Definition empty_answer : Generate.Response :=
  {| Generate.status := 200;
     Generate.statusText := "OK";
     Generate.json := Generate.Parsed (JSON.Object []) |}.

(** An endpoint that answers every request with 504. *)
Definition unreachable : Generate.World :=
  {| Generate.clock := fun attempt => 1700000000000 + 1000 * attempt;
     Generate.network := fun _ _ =>
       Generate.Responded
         {| Generate.status := 504;
            Generate.statusText := "Gateway Timeout";
            Generate.json := Generate.Unparsable "Unexpected token < in JSON" |} |}.

Definition weather : Generate.ToolDefinition :=
  {| Generate.slug := "weather";
     Generate.name := "Weather";
     Generate.description := "Current weather for a city";
     Generate.schema := JSON.Object [];
     Generate.url := "https://flows.example/weather";
     Generate.blockId := "tool-A" |}.

Definition forecast : Generate.ToolDefinition :=
  {| Generate.slug := "weather";
     Generate.name := "Forecast";
     Generate.description := "Forecast for a city";
     Generate.schema := JSON.Object [];
     Generate.url := "https://flows.example/forecast";
     Generate.blockId := "tool-B" |}.

End Samples.

(** ** [blocks/generate.ts]: the Generate block's [onEvent] *)

Module Indented.

#[local] Set Warnings "-register-all".

Definition newline : string := String (ascii_of_nat 10) "".

Fixpoint spaces (n : nat) : string :=
  match n with
  | O => ""
  | S n' => String " " (spaces n')
  end.

Fixpoint lines (parts : list string) : string :=
  match parts with
  | [] => ""
  | [p] => p
  | p :: rest => p +:+ "," +:+ newline +:+ lines rest
  end.

(** [JSON.stringify(v, null, 2)] at nesting [depth]. *)
Fixpoint stringify (depth : nat) (v : JSON.value) : string :=
  match v with
  | JSON.Array [] => "[]"
  | JSON.Array items =>
      "[" +:+ newline +:+
      lines (map (fun item => spaces (2 * S depth) +:+ stringify (S depth) item) items)
      +:+ newline +:+ spaces (2 * depth) +:+ "]"
  | JSON.Object [] => "{}"
  | JSON.Object members =>
      "{" +:+ newline +:+
      lines (map (fun kv => spaces (2 * S depth) +:+ JSON.quote (fst kv) +:+ ": " +:+
                            stringify (S depth) (snd kv)) members)
      +:+ newline +:+ spaces (2 * depth) +:+ "}"
  | other => JSON.stringify other
  end.

End Indented.

Module GenerateEvent.

(** Truthiness of a configuration value that may be [undefined]. *)
Definition truthy_value (v : option JSON.value) : bool :=
  match v with
  | None => false
  | Some JSON.Null => false
  | Some (JSON.Bool b) => b
  | Some (JSON.Number n) => negb (n =? 0)
  | Some (JSON.Str s) => negb (String.eqb s "")
  | Some _ => true
  end.

Record Usage := {
  promptTokens : Z;
  completionTokens : Z;
  totalTokens : Z
}.

(** [event.inputConfig]. *)
Record InputConfig := {
  model : string;
  schema : option JSON.value;
  messages : option (list JSON.value);
  prompt : option string;
  system : option string;
  maxSteps : option JSON.value;
  maxRetries : option JSON.value;
  maxTokens : option JSON.value;
  temperature : option JSON.value;
  tools : list Generate.ToolDefinition
}.

(** What the handler reads of an error it catches. *)
Record Caught := {
  message : option string;
  responseBody : option string
}.

Inductive settled (A : Type) : Type :=
| Fulfilled (a : A)
| Failed (error : Caught).
Arguments Fulfilled {A} a.
Arguments Failed {A} error.

(** The argument of [generateText]. *)
Record TextCall := {
  text_prompt : option string;
  text_messages : option (list JSON.value);
  text_model : string;
  text_maxSteps : option JSON.value;
  text_maxRetries : option JSON.value;
  text_maxTokens : option JSON.value;
  text_temperature : option JSON.value;
  text_system : option string;
  text_tools : gmap string Generate.ToolDefinition;
  text_toolChoice : string
}.

(** The argument of [generateObject]. *)
Record ObjectCall := {
  object_model : string;
  object_prompt : string;
  object_schema : JSON.value
}.

(** The collaborators: the pending-event sink, the two calls of the
    model provider, and [JSON.parse] ([None] when it throws). *)
Record World := {
  createPending : string -> string;
  generateText : TextCall -> settled (string * Usage);
  generateObject : ObjectCall -> settled (JSON.value * Usage);
  JSON_parse : string -> option JSON.value
}.

(** The payload of the emitted event. *)
Record Output := {
  output_object : option JSON.value;
  output_text : option string;
  output_model : string;
  output_usage : Usage
}.

Inductive effect : Type :=
| CreatePending (statusDescription : string)
| GenerateText (call : TextCall)
| UpdatePending (pendingEventId statusDescription : string)
| GenerateObject (call : ObjectCall)
| Emit (payload : Output) (complete : string)
| CancelPending (pendingEventId reason : string).

Inductive completion : Type :=
| Returns
| Throws (message : string).

(** The message built in the [catch] block. *)
Definition error_message (w : World) (error : Caught) : string :=
  let errorMessage :=
    if JS.truthy (message error) then default "" (message error)
    else "Unknown error" in
  if JS.truthy (responseBody error) then
    let raw := default "" (responseBody error) in
    match JSON_parse w raw with
    | Some responseData =>
        errorMessage +:+ Indented.newline +:+ Indented.newline +:+
        "OpenRouter Error: " +:+ Indented.stringify 0 responseData
    | None =>
        errorMessage +:+ Indented.newline +:+ Indented.newline +:+
        "OpenRouter Response: " +:+ raw
    end
  else errorMessage.

Definition add_usage (usage objectUsage : Usage) : Usage :=
  {| promptTokens := promptTokens usage + promptTokens objectUsage;
     completionTokens := completionTokens usage + completionTokens objectUsage;
     totalTokens := totalTokens usage + totalTokens objectUsage |}.

(** [secretKey] is [app.signals.toolSecuritySecret]. *)
Definition onEvent (w : World) (secretKey : option string) (config : InputConfig)
  : list effect * completion :=
  if negb (JS.truthy secretKey) then
    ([], Throws "Tool security secret not available. App may not be synchronized properly.")
  else
    let pendingEventId := createPending w "Working..." in
    let caught (trace : list effect) (error : Caught) :=
      let errorMessage := error_message w error in
      (trace ++ [CancelPending pendingEventId ("Error: " +:+ errorMessage)],
       Throws errorMessage) in
    let started := [CreatePending "Working..."] in
    let promptOrMessages :=
      if JS.truthy (prompt config) then Some (prompt config, None)
      else match messages config with
           | Some ms => Some (None, Some ms)
           | None => None
           end in
    match promptOrMessages with
    | None =>
        caught started
          {| message := Some "Either 'prompt' or 'messages' must be provided.";
             responseBody := None |}
    | Some (p, ms) =>
        let tooling := Tools.createToolsFromConfig (tools config) in
        let call :=
          {| text_prompt := p;
             text_messages := ms;
             text_model := model config;
             text_maxSteps := maxSteps config;
             text_maxRetries := maxRetries config;
             text_maxTokens := maxTokens config;
             text_temperature := temperature config;
             text_system := system config;
             text_tools := tooling;
             text_toolChoice := "auto" |} in
        match generateText w call with
        | Failed error => caught (started ++ [GenerateText call]) error
        | Fulfilled (text, usage) =>
            if truthy_value (schema config) then
              let objectCall :=
                {| object_model := model config;
                   object_prompt := text;
                   object_schema := default JSON.Null (schema config) |} in
              let asked :=
                started ++
                [GenerateText call;
                 UpdatePending pendingEventId "Generating object...";
                 GenerateObject objectCall] in
              match generateObject w objectCall with
              | Failed error => caught asked error
              | Fulfilled (object, objectUsage) =>
                  (asked ++
                   [Emit {| output_object := Some object;
                            output_text := None;
                            output_model := model config;
                            output_usage := add_usage usage objectUsage |}
                      pendingEventId],
                   Returns)
              end
            else
              (started ++
               [GenerateText call;
                Emit {| output_object := None;
                        output_text := Some text;
                        output_model := model config;
                        output_usage := usage |}
                  pendingEventId],
               Returns)
        end
    end.

End GenerateEvent.

(** Vocabulary for runs of the Generate block's handler. *)
Module EventSpec.

(** The effects that resolve a pending event. *)
Definition is_resolution (e : GenerateEvent.effect) : bool :=
  match e with
  | GenerateEvent.Emit _ _ => true
  | GenerateEvent.CancelPending _ _ => true
  | _ => false
  end.

Definition is_model_call (e : GenerateEvent.effect) : bool :=
  match e with
  | GenerateEvent.GenerateText _ => true
  | GenerateEvent.GenerateObject _ => true
  | _ => false
  end.

(** How the handler ends, given the last effect of its run. *)
Definition resolved_by (pendingEventId : string) (last : GenerateEvent.effect)
    (result : GenerateEvent.completion) : Prop :=
  match result with
  | GenerateEvent.Returns =>
      exists payload, last = GenerateEvent.Emit payload pendingEventId
  | GenerateEvent.Throws message =>
      last = GenerateEvent.CancelPending pendingEventId ("Error: " +:+ message)
  end.

Definition sample_world : GenerateEvent.World :=
  {| GenerateEvent.createPending := fun _ => "pending-1";
     GenerateEvent.generateText := fun call =>
       match GenerateEvent.text_prompt call with
       | Some _ =>
           GenerateEvent.Fulfilled
             ("It is sunny.",
              {| GenerateEvent.promptTokens := 12;
                 GenerateEvent.completionTokens := 5;
                 GenerateEvent.totalTokens := 17 |})
       | None =>
           GenerateEvent.Failed
             {| GenerateEvent.message := Some "Payment Required";
                GenerateEvent.responseBody := Some "not json" |}
       end;
     GenerateEvent.generateObject := fun call =>
       GenerateEvent.Fulfilled
         (JSON.Object [("weather", JSON.Str (GenerateEvent.object_prompt call))],
          {| GenerateEvent.promptTokens := 20;
             GenerateEvent.completionTokens := 7;
             GenerateEvent.totalTokens := 27 |});
     GenerateEvent.JSON_parse := fun _ => None |}.

Definition sample_config (prompt : option string) (messages : option (list JSON.value))
    (schema : option JSON.value) : GenerateEvent.InputConfig :=
  {| GenerateEvent.model := "openai/gpt-4";
     GenerateEvent.schema := schema;
     GenerateEvent.messages := messages;
     GenerateEvent.prompt := prompt;
     GenerateEvent.system := None;
     GenerateEvent.maxSteps := Some (JSON.Number 5);
     GenerateEvent.maxRetries := Some (JSON.Number 3);
     GenerateEvent.maxTokens := None;
     GenerateEvent.temperature := Some (JSON.Number 0);
     GenerateEvent.tools := [] |}.

Definition sample_call (prompt : option string) (messages : option (list JSON.value))
  : GenerateEvent.TextCall :=
  {| GenerateEvent.text_prompt := prompt;
     GenerateEvent.text_messages := messages;
     GenerateEvent.text_model := "openai/gpt-4";
     GenerateEvent.text_maxSteps := Some (JSON.Number 5);
     GenerateEvent.text_maxRetries := Some (JSON.Number 3);
     GenerateEvent.text_maxTokens := None;
     GenerateEvent.text_temperature := Some (JSON.Number 0);
     GenerateEvent.text_system := None;
     GenerateEvent.text_tools := Tools.createToolsFromConfig [];
     GenerateEvent.text_toolChoice := "auto" |}.

Definition sample_failure : GenerateEvent.Caught :=
  {| GenerateEvent.message := Some "Payment Required";
     GenerateEvent.responseBody := Some "not json" |}.

End EventSpec.

(** The timestamp header, as the specification words it and as
    [parseInt] reads it. *)
Module TimestampSpec.

(** A decimal number: decimal digits, at least one, after an optional
    minus sign, the way [Number.prototype.toString] writes an integer. *)
Definition decimal_number (s : string) : bool :=
  match s with
  | EmptyString => false
  | String c rest =>
      if Ascii.eqb c "-" then negb (String.eqb rest "") && JS.all_digits rest
      else JS.all_digits s
  end.

Definition is_hex_digit (c : ascii) : bool :=
  let n := JS.octet c in
  ((48 <=? n) && (n <=? 57)) || ((97 <=? n) && (n <=? 102)) ||
  ((65 <=? n) && (n <=? 70)).

(** The text after its leading sign, if it has one. *)
Definition unsigned (s : string) : string :=
  match s with
  | String c rest => if Ascii.eqb c "-" || Ascii.eqb c "+" then rest else s
  | EmptyString => s
  end.

(** The text begins like a number: after leading white space and an
    optional sign comes a decimal digit or, behind the prefix 0x or 0X,
    a hexadecimal digit. *)
Definition leads_number (s : string) : bool :=
  match unsigned (JS.trim_start s) with
  | String c0 (String c1 rest) =>
      if Ascii.eqb c0 "0" && (Ascii.eqb c1 "x" || Ascii.eqb c1 "X") then
        match rest with
        | String c _ => is_hex_digit c
        | EmptyString => false
        end
      else JS.is_digit c0
  | String c0 EmptyString => JS.is_digit c0
  | EmptyString => false
  end.

End TimestampSpec.

(** Vocabulary for the texts that [JSON.stringify] writes. *)
Module TextSpec.

Import JSON.

(** What may follow a value inside a text: nothing, a comma, or a
    closing bracket or brace. *)
Definition delimited (rest : string) : Prop :=
  match rest with
  | EmptyString => True
  | String c _ => c = ","%char \/ c = "]"%char \/ c = "}"%char
  end.

(** The text of a value begins with a character that is no white
    space and closes no container. *)
Definition opens (s : string) : Prop :=
  exists c tail,
    s = String c tail /\ is_space c = false /\
    Ascii.eqb c "]" = false /\ Ascii.eqb c "}" = false.

(** A canonical value is read back from its text, whatever follows. *)
Definition parses (v : value) : Prop :=
  canonical v = true ->
  forall fuel rest,
    (String.length (stringify v +:+ rest) < fuel)%nat -> delimited rest ->
    parse_value fuel (stringify v +:+ rest) = Some (v, rest).

(** The text of one member of an object. *)
Definition member_text (kv : string * value) : string :=
  quote (fst kv) +:+ ":" +:+ stringify (snd kv).

(** The key [k'] may be listed after the key [k]. *)
Definition after (k : string) (k' : string) : bool :=
  negb (String.eqb k k') && negb (precedes k' k).

End TextSpec.

(** * Properties *)

(** ** Strings and numbers *)

Section Strings.

Lemma append_nil (s : string) : "" +:+ s = s.
Proof. reflexivity. Qed.

Lemma append_cons (c : ascii) (a b : string) : String c a +:+ b = String c (a +:+ b).
Proof. reflexivity. Qed.

Lemma append_assoc (a b c : string) : (a +:+ b) +:+ c = a +:+ (b +:+ c).
Proof.
  induction a as [|x a IH]; [reflexivity|].
  rewrite !append_cons. now rewrite IH.
Qed.

Lemma prefix_append (sub s : string) :
  String.prefix sub s = true <-> exists after, s = sub +:+ after.
Proof.
  revert s. induction sub as [|x sub IH]; intros s; simpl.
  - split; [intros _; now exists s | intros _; now destruct s].
  - destruct s as [|y s].
    + split; [discriminate | intros [after H]; discriminate].
    + simpl. destruct (Ascii.ascii_dec x y) as [->|Hxy].
      * rewrite IH. split; intros [after H]; exists after.
        -- rewrite append_cons. now rewrite H.
        -- rewrite append_cons in H. now injection H.
      * split; [discriminate |].
        intros [after H]. rewrite append_cons in H. injection H. congruence.
Qed.

Lemma includes_contains (s sub : string) :
  JS.includes s sub = true <-> RetrySpec.contains s sub.
Proof.
  unfold RetrySpec.contains. induction s as [|c s IH].
  - cbn [JS.includes]. rewrite orb_false_r, prefix_append. split.
    + intros [after H]. now exists "", after.
    + intros [[|b before] [after H]]; [now exists after |].
      rewrite append_cons in H. discriminate.
  - cbn [JS.includes]. rewrite orb_true_iff, prefix_append, IH. split.
    + intros [[after H] | (before & after & H)].
      * now exists "", after.
      * exists (String c before), after. rewrite append_cons. now rewrite H.
    + intros ([|b before] & after & H).
      * left. now exists after.
      * right. exists before, after. rewrite append_cons in H. now injection H.
Qed.

Lemma retryable_transient (message : string) :
  Retry.retryable message = true <-> RetrySpec.transient message.
Proof.
  unfold Retry.retryable, RetrySpec.transient.
  rewrite !orb_true_iff, !includes_contains. tauto.
Qed.

Lemma digit_char_is_digit (d : Z) : 0 <= d <= 9 -> JS.is_digit (JS.digit_char d) = true.
Proof.
  intros H.
  assert (d = 0 \/ d = 1 \/ d = 2 \/ d = 3 \/ d = 4 \/ d = 5 \/ d = 6 \/
          d = 7 \/ d = 8 \/ d = 9) as Hd by lia.
  repeat destruct Hd as [-> | Hd]; try subst d; reflexivity.
Qed.

Lemma digit_char_value (d : Z) :
  0 <= d <= 9 -> JS.digit_value 10 (JS.digit_char d) = Some d.
Proof.
  intros H.
  assert (d = 0 \/ d = 1 \/ d = 2 \/ d = 3 \/ d = 4 \/ d = 5 \/ d = 6 \/
          d = 7 \/ d = 8 \/ d = 9) as Hd by lia.
  repeat destruct Hd as [-> | Hd]; try subst d; reflexivity.
Qed.

Lemma parse_digits_onto (fuel : nat) :
  forall n rest, 0 <= n < 10 ^ (Z.of_nat fuel + 1) ->
    JS.parse_digits 10 None (JS.digits_onto fuel n rest) =
    JS.parse_digits 10 (Some n) rest.
Proof.
  induction fuel as [|fuel IH]; intros n rest Hn.
  - change (10 ^ (Z.of_nat 0 + 1)) with 10 in Hn.
    simpl. rewrite digit_char_value by (pose proof (Z.mod_pos_bound n 10); lia).
    now rewrite Z.mod_small by lia.
  - cbn [JS.digits_onto]. destruct (Z.ltb_spec n 10) as [Hlt|Hge].
    + simpl. rewrite digit_char_value by (pose proof (Z.mod_pos_bound n 10); lia).
      now rewrite Z.mod_small by lia.
    + rewrite IH.
      * simpl. rewrite digit_char_value by (pose proof (Z.mod_pos_bound n 10); lia).
        do 2 f_equal. pose proof (Z.div_mod n 10). lia.
      * replace (Z.of_nat (S fuel) + 1) with (Z.succ (Z.of_nat fuel + 1)) in Hn by lia.
        rewrite Z.pow_succ_r in Hn by lia.
        split; [apply Z.div_pos; lia | apply Z.div_lt_upper_bound; lia].
Qed.

Lemma log2_fuel (n : Z) : 0 <= n -> n < 10 ^ (Z.of_nat (Z.to_nat (Z.log2 n)) + 1).
Proof.
  intros Hn. rewrite Z2Nat.id by apply Z.log2_nonneg.
  destruct (Z.eq_dec n 0) as [->|Hnz]; [reflexivity|].
  pose proof (Z.log2_spec n ltac:(lia)) as [_ Hlt].
  pose proof (Z.log2_nonneg n).
  eapply Z.lt_le_trans; [exact Hlt|].
  unfold Z.succ. apply Z.pow_le_mono_l. lia.
Qed.

Lemma parse_digits_digits (n : Z) :
  0 <= n -> JS.parse_digits 10 None (JS.digits n) = Some n.
Proof.
  intros Hn. unfold JS.digits. rewrite parse_digits_onto; [reflexivity|].
  split; [exact Hn | now apply log2_fuel].
Qed.

Lemma digits_onto_digit_led (fuel : nat) :
  forall n rest, 0 <= n ->
    (rest = "" \/ exists c s, rest = String c s /\ JS.is_digit c = true) ->
    JS.digit_led (JS.digits_onto fuel n rest) = true.
Proof.
  assert (Hone : forall n rest, 0 <= n ->
            (rest = "" \/ exists c s, rest = String c s /\ JS.is_digit c = true) ->
            JS.digit_led (String (JS.digit_char (n mod 10)) rest) = true).
  { intros n rest Hn Hrest.
    pose proof (digit_char_is_digit (n mod 10) ltac:(pose proof (Z.mod_pos_bound n 10); lia)) as Hd.
    destruct Hrest as [-> | (c & s & -> & Hc)]; simpl; rewrite Hd; [reflexivity | now rewrite Hc]. }
  induction fuel as [|fuel IH]; intros n rest Hn Hrest.
  - now apply Hone.
  - cbn [JS.digits_onto]. destruct (n <? 10); [now apply Hone|].
    apply IH; [apply Z.div_pos; lia|].
    right. eexists _, _. split; [reflexivity|].
    apply digit_char_is_digit. pose proof (Z.mod_pos_bound n 10). lia.
Qed.

Lemma digits_digit_led (n : Z) : 0 <= n -> JS.digit_led (JS.digits n) = true.
Proof. intros Hn. apply digits_onto_digit_led; [exact Hn | now left]. Qed.

Lemma is_digit_plain (c : ascii) :
  JS.is_digit c = true ->
  JS.is_whitespace c = false /\ c <> "-"%char /\ c <> "+"%char /\
  c <> "x"%char /\ c <> "X"%char.
Proof.
  destruct c as [[] [] [] [] [] [] [] []]; vm_compute; intros H;
    try discriminate H; repeat split; discriminate.
Qed.

(** Text that begins with a byte below 128 which is no white space
    has no leading white space. *)
Lemma trim_start_plain (c : ascii) (s : string) :
  JS.is_whitespace c = false -> JS.octet c < 128 ->
  JS.trim_start (String c s) = String c s.
Proof.
  intros Hw Hc.
  assert (E2 : forall c2, JS.is_whitespace2 c c2 = false).
  { intros c2. unfold JS.is_whitespace2.
    destruct (Z.eqb_spec (JS.octet c) 194); [lia | reflexivity]. }
  assert (E3 : forall c2 c3, JS.is_whitespace3 c c2 c3 = false).
  { intros c2 c3. unfold JS.is_whitespace3.
    destruct (Z.eqb_spec (JS.octet c) 225); [lia|].
    destruct (Z.eqb_spec (JS.octet c) 226); [lia|].
    destruct (Z.eqb_spec (JS.octet c) 227); [lia|].
    destruct (Z.eqb_spec (JS.octet c) 239); [lia|]. reflexivity. }
  cbn [JS.trim_start]. rewrite Hw.
  destruct s as [|c2 [|c3 s]]; [reflexivity | |]; rewrite E2; [reflexivity|].
  now rewrite E3.
Qed.

Lemma is_digit_octet (c : ascii) : JS.is_digit c = true -> 48 <= JS.octet c <= 57.
Proof. unfold JS.is_digit, JS.octet. intros H. apply andb_true_iff in H. lia. Qed.

Lemma digit_led_unprefixed (s : string) :
  JS.digit_led s = true ->
  JS.trim_start s = s /\ JS.strip_sign s = (1, s) /\ JS.strip_hex_prefix s = (10, s).
Proof.
  destruct s as [|c [|c' s]]; cbn [JS.digit_led]; [discriminate | |].
  - intros Hc. destruct (is_digit_plain c Hc) as (Hw & Hm & Hp & _).
    pose proof (is_digit_octet c Hc).
    rewrite (trim_start_plain c "" Hw) by lia. repeat split.
    + destruct c as [[] [] [] [] [] [] [] []]; try reflexivity; congruence.
    + destruct c as [[] [] [] [] [] [] [] []]; reflexivity.
  - intros H. apply andb_true_iff in H as [Hc Hc'].
    destruct (is_digit_plain c Hc) as (Hw & Hm & Hp & _).
    destruct (is_digit_plain c' Hc') as (_ & _ & _ & Hx & HX).
    pose proof (is_digit_octet c Hc).
    rewrite (trim_start_plain c _ Hw) by lia. repeat split.
    + destruct c as [[] [] [] [] [] [] [] []]; try reflexivity; congruence.
    + destruct c as [[] [] [] [] [] [] [] []]; try reflexivity.
      destruct c' as [[] [] [] [] [] [] [] []]; try reflexivity; congruence.
Qed.

Lemma parseInt_stripped (s s1 s2 : string) (sign radix : Z) :
  JS.strip_sign (JS.trim_start s) = (sign, s1) ->
  JS.strip_hex_prefix s1 = (radix, s2) ->
  JS.parseInt s =
  match JS.parse_digits radix None s2 with
  | Some n => Some (sign * n)
  | None => None
  end.
Proof.
  intros H1 H2. unfold JS.parseInt. rewrite H1. cbv beta iota. now rewrite H2.
Qed.

(** [parseInt] reads back what [Number.prototype.toString] writes. *)
Lemma parseInt_Number_toString (n : Z) : JS.parseInt (JS.Number_toString n) = Some n.
Proof.
  unfold JS.Number_toString. destruct (Z.ltb_spec n 0) as [Hneg|Hpos].
  - destruct (digit_led_unprefixed _ (digits_digit_led (- n) ltac:(lia))) as (_ & _ & Hx).
    rewrite (parseInt_stripped _ (JS.digits (- n)) (JS.digits (- n)) (-1) 10);
      [| rewrite trim_start_plain by (vm_compute; reflexivity); reflexivity | exact Hx].
    rewrite parse_digits_digits by lia. f_equal. lia.
  - destruct (digit_led_unprefixed _ (digits_digit_led n Hpos)) as (Ht & Hs & Hx).
    rewrite (parseInt_stripped _ (JS.digits n) (JS.digits n) 1 10);
      [| now rewrite Ht | exact Hx].
    rewrite parse_digits_digits by lia. f_equal. lia.
Qed.

Lemma Number_toString_nonempty (n : Z) : JS.truthy (Some (JS.Number_toString n)) = true.
Proof.
  unfold JS.Number_toString. destruct (Z.ltb_spec n 0) as [Hneg|Hpos]; [reflexivity|].
  pose proof (digits_digit_led n Hpos) as H.
  destruct (JS.digits n); [discriminate H | reflexivity].
Qed.

(** *** What [parseInt] reads a number from *)

Lemma strip_sign_unsigned (s : string) :
  exists sign, JS.strip_sign s = (sign, TimestampSpec.unsigned s).
Proof.
  destruct s as [|c s]; [now exists 1|].
  destruct c as [[] [] [] [] [] [] [] []]; eexists; reflexivity.
Qed.

Lemma strip_hex_prefix_cases (s : string) :
  JS.strip_hex_prefix s =
  match s with
  | String c0 (String c1 rest) =>
      if Ascii.eqb c0 "0" && (Ascii.eqb c1 "x" || Ascii.eqb c1 "X")
      then (16, rest) else (10, s)
  | _ => (10, s)
  end.
Proof.
  destruct s as [|c0 [|c1 rest]]; [reflexivity | |].
  - destruct c0 as [[] [] [] [] [] [] [] []]; reflexivity.
  - destruct c0 as [[] [] [] [] [] [] [] []]; try reflexivity.
    destruct c1 as [[] [] [] [] [] [] [] []]; reflexivity.
Qed.

Lemma parse_digits_some (radix : Z) (s : string) :
  forall a, exists n, JS.parse_digits radix (Some a) s = Some n.
Proof.
  induction s as [|c s IH]; intros a; cbn [JS.parse_digits]; [now exists a|].
  destruct (JS.digit_value radix c) as [d|]; [apply IH | now exists a].
Qed.

Lemma parse_digits_first (radix : Z) (c : ascii) (s : string) :
  match JS.digit_value radix c with
  | Some _ => exists n, JS.parse_digits radix None (String c s) = Some n
  | None => JS.parse_digits radix None (String c s) = None
  end.
Proof.
  cbn [JS.parse_digits]. destruct (JS.digit_value radix c) as [d|]; [|reflexivity].
  apply parse_digits_some.
Qed.

Lemma digit_value_decimal (c : ascii) :
  JS.digit_value 10 c = None <-> JS.is_digit c = false.
Proof.
  destruct c as [[] [] [] [] [] [] [] []]; vm_compute; split; intros H;
    first [reflexivity | discriminate H].
Qed.

Lemma digit_value_hexadecimal (c : ascii) :
  JS.digit_value 16 c = None <-> TimestampSpec.is_hex_digit c = false.
Proof.
  destruct c as [[] [] [] [] [] [] [] []]; vm_compute; split; intros H;
    first [reflexivity | discriminate H].
Qed.

Lemma parse_digits_leading (radix : Z) (s : string) (leads : bool) :
  match s with
  | String c _ => (JS.digit_value radix c = None <-> leads = false)
  | EmptyString => leads = false
  end ->
  if leads then exists n, JS.parse_digits radix None s = Some n
  else JS.parse_digits radix None s = None.
Proof.
  destruct s as [|c s].
  - intros ->. reflexivity.
  - intros H. pose proof (parse_digits_first radix c s) as Hp.
    destruct (JS.digit_value radix c) as [d|].
    + destruct leads; [exact Hp|]. destruct H as [_ H]. now specialize (H eq_refl).
    + destruct leads; [|exact Hp]. destruct H as [H _]. now specialize (H eq_refl).
Qed.

(** [parseInt] reads a number exactly from the texts that begin like
    one. *)
Lemma parseInt_leads_number (s : string) :
  if TimestampSpec.leads_number s then exists t, JS.parseInt s = Some t
  else JS.parseInt s = None.
Proof.
  unfold TimestampSpec.leads_number.
  destruct (strip_sign_unsigned (JS.trim_start s)) as (sign & Es).
  revert Es. generalize (TimestampSpec.unsigned (JS.trim_start s)). intros r Es.
  pose proof (strip_hex_prefix_cases r) as Ex.
  assert (Hread : forall (radix : Z) (r2 : string) (leads : bool),
            JS.strip_hex_prefix r = (radix, r2) ->
            (if leads then exists n, JS.parse_digits radix None r2 = Some n
             else JS.parse_digits radix None r2 = None) ->
            if leads then exists t, JS.parseInt s = Some t else JS.parseInt s = None).
  { intros radix r2 leads E2 Hp. rewrite (parseInt_stripped s r r2 sign radix Es E2).
    destruct leads; [destruct Hp as (n & ->); eauto | now rewrite Hp]. }
  destruct r as [|c0 [|c1 rest]].
  - apply (Hread 10 "" false Ex). reflexivity.
  - apply (Hread 10 _ _ Ex). apply parse_digits_leading, digit_value_decimal.
  - destruct (Ascii.eqb c0 "0" && (Ascii.eqb c1 "x" || Ascii.eqb c1 "X")).
    + apply (Hread 16 _ _ Ex). apply parse_digits_leading.
      destruct rest as [|c rest]; [reflexivity | apply digit_value_hexadecimal].
    + apply (Hread 10 _ _ Ex). apply parse_digits_leading, digit_value_decimal.
Qed.

Lemma all_digits_leads (s : string) :
  s <> "" -> JS.all_digits s = true -> TimestampSpec.leads_number s = true.
Proof.
  destruct s as [|c s]; [congruence|]. intros _ H.
  cbn [JS.all_digits] in H. apply andb_true_iff in H as [Hc Hs].
  destruct (is_digit_plain c Hc) as (Hw & Hm & Hp & _).
  pose proof (is_digit_octet c Hc).
  unfold TimestampSpec.leads_number. rewrite (trim_start_plain c s Hw) by lia.
  cbn [TimestampSpec.unsigned].
  apply Ascii.eqb_neq in Hm, Hp. rewrite Hm, Hp. cbn [orb].
  destruct s as [|c1 s]; [exact Hc|].
  cbn [JS.all_digits] in Hs. apply andb_true_iff in Hs as [Hc1 _].
  destruct (is_digit_plain c1 Hc1) as (_ & _ & _ & Hx & HX).
  apply Ascii.eqb_neq in Hx, HX. rewrite Hx, HX, andb_false_r. exact Hc.
Qed.

(** Every decimal number begins like a number. *)
Lemma decimal_number_leads (s : string) :
  TimestampSpec.decimal_number s = true -> TimestampSpec.leads_number s = true.
Proof.
  destruct s as [|c s]; [discriminate|]. cbn [TimestampSpec.decimal_number].
  destruct (Ascii.eqb_spec c "-") as [->|Hc].
  - intros H. apply andb_true_iff in H as [Hne Hs].
    assert (s <> "") as Hs' by (intros ->; discriminate Hne).
    pose proof (all_digits_leads s Hs' Hs) as Hl.
    destruct s as [|d s]; [congruence|].
    cbn [JS.all_digits] in Hs. apply andb_true_iff in Hs as [Hd _].
    destruct (is_digit_plain d Hd) as (Hw & Hm & Hp & _).
    pose proof (is_digit_octet d Hd).
    unfold TimestampSpec.leads_number in *.
    rewrite trim_start_plain by (vm_compute; reflexivity).
    rewrite (trim_start_plain d s Hw) in Hl by lia.
    cbn [TimestampSpec.unsigned] in *.
    apply Ascii.eqb_neq in Hm, Hp. rewrite Hm, Hp in Hl. exact Hl.
  - apply all_digits_leads. discriminate.
Qed.

End Strings.


(** ** The inbound verification gate *)

Section Gate.

Lemma truthy_missing (v : option string) : JS.truthy v = negb (GateSpec.missing v).
Proof. destruct v as [[|c s]|]; reflexivity. Qed.

Lemma too_old_stale (nowMs : Z) (ts : string) :
  Tool.too_old (nowMs / 1000) (JS.parseInt ts) = GateSpec.stale nowMs ts.
Proof.
  unfold Tool.too_old, GateSpec.stale. destruct (JS.parseInt ts) as [t|]; [|reflexivity].
  destruct (Z.gtb_spec (Z.abs (nowMs / 1000 - t)) 300);
    destruct (Z.ltb_spec t (nowMs / 1000 - 300));
    destruct (Z.ltb_spec (nowMs / 1000 + 300) t); simpl; try reflexivity; lia.
Qed.

Variable secret : option string.
Variable blockId : string.
Variable request : Tool.Request.
Variable nowMs : Z.

Lemma passed_by_body :
  GateSpec.passed request =
  match Tool.body request with
  | JSON.Null => Tool.ThrowTypeError
  | body =>
      Tool.Emit (Tool.requestId request) (JSON.get body "parameters")
        [JSON.get body "eventId"]
  end.
Proof. unfold GateSpec.passed, GateSpec.admitted. destruct (Tool.body request); reflexivity. Qed.

(** The handler computes what the gate of the specification computes. *)
Lemma onRequest_gate :
  Tool.onRequest secret blockId request nowMs =
  GateSpec.gate secret blockId request nowMs.
Proof.
  unfold Tool.onRequest, GateSpec.gate, GateSpec.checks.
  cbn [List.find GateSpec.fails].
  rewrite !truthy_missing, !negb_involutive.
  destruct (GateSpec.missing secret); [reflexivity|].
  unfold GateSpec.header.
  destruct (GateSpec.missing (Tool.headers request !! Security.EVENT_ID)); [reflexivity|].
  destruct (GateSpec.missing (Tool.headers request !! Security.TIMESTAMP)); [reflexivity|].
  destruct (GateSpec.missing (Tool.headers request !! Security.SIGNATURE)); [reflexivity|].
  cbn [orb]. rewrite too_old_stale.
  destruct (GateSpec.stale _ _); [reflexivity|].
  unfold GateSpec.signature_differs, GateSpec.recomputed_signature,
    Security.generateFlowSecret, GateSpec.header.
  destruct (negb _); [reflexivity|]. now rewrite passed_by_body.
Qed.

(** C3: the handler evaluates the four checks (secret availability,
    header completeness, freshness, signature match) in this order; the
    first one that fails decides the response (500 for the absent
    secret, 401 for the other three).  The payload is emitted only when
    none fails: it is then read from the body and emitted, unless the
    body is [null], on which the handler throws a [TypeError] and emits
    nothing. *)
Theorem onRequest_first_failing_check :
  match List.find (GateSpec.fails secret blockId request nowMs)
          [GateSpec.SecretAvailability; GateSpec.HeaderCompleteness;
           GateSpec.Freshness; GateSpec.SignatureMatch] with
  | Some c =>
      Tool.onRequest secret blockId request nowMs =
      Tool.Respond (Tool.requestId request) (GateSpec.status_of c) (GateSpec.message_of c)
  | None =>
      match Tool.body request with
      | JSON.Null => Tool.onRequest secret blockId request nowMs = Tool.ThrowTypeError
      | body =>
          Tool.onRequest secret blockId request nowMs =
          Tool.Emit (Tool.requestId request) (JSON.get body "parameters")
            [JSON.get body "eventId"]
      end
  end /\
  (forall requestId parameters parents,
     Tool.onRequest secret blockId request nowMs =
     Tool.Emit requestId parameters parents ->
     List.find (GateSpec.fails secret blockId request nowMs)
       [GateSpec.SecretAvailability; GateSpec.HeaderCompleteness;
        GateSpec.Freshness; GateSpec.SignatureMatch] = None).
Proof.
  rewrite onRequest_gate. unfold GateSpec.gate. fold GateSpec.checks.
  destruct (List.find _ GateSpec.checks) as [c|].
  - split; [reflexivity | discriminate].
  - rewrite passed_by_body. split; [|reflexivity].
    destruct (Tool.body request); reflexivity.
Qed.

(** Once the secret and the three headers are there, the outcome is
    decided by the freshness check and then by the signature check. *)
Lemma onRequest_past_headers (ts : string) :
  JS.truthy secret = true ->
  JS.truthy (Tool.headers request !! Security.EVENT_ID) = true ->
  JS.truthy (Tool.headers request !! Security.SIGNATURE) = true ->
  Tool.headers request !! Security.TIMESTAMP = Some ts ->
  ts <> "" ->
  Tool.onRequest secret blockId request nowMs =
  if Tool.too_old (nowMs / 1000) (JS.parseInt ts)
  then GateSpec.rejected request GateSpec.Freshness
  else GateSpec.signature_stage secret blockId request.
Proof.
  intros Hs He Hg Ht Hne.
  unfold Tool.onRequest, GateSpec.signature_stage, GateSpec.signature_differs,
    GateSpec.header.
  rewrite Hs, He, Hg, Ht. cbn [negb orb default].
  replace (JS.truthy (Some ts)) with true by (destruct ts; [congruence | reflexivity]).
  cbn [negb].
  destruct (Tool.too_old _ _); [reflexivity|].
  unfold GateSpec.recomputed_signature, Security.generateFlowSecret.
  destruct (negb _); [reflexivity|]. now rewrite passed_by_body.
Qed.

(** C6: the freshness window is inclusive.  A timestamp exactly 300
    seconds from the current time, in either direction, passes the
    freshness check (the signature check alone decides the outcome);
    one 301 seconds away is answered with status 401. *)
Theorem freshness_window_inclusive (ts : string) (t : Z) :
  JS.truthy secret = true ->
  JS.truthy (Tool.headers request !! Security.EVENT_ID) = true ->
  JS.truthy (Tool.headers request !! Security.SIGNATURE) = true ->
  Tool.headers request !! Security.TIMESTAMP = Some ts ->
  JS.parseInt ts = Some t ->
  (Z.abs (nowMs / 1000 - t) = 300 ->
     Tool.onRequest secret blockId request nowMs =
     GateSpec.signature_stage secret blockId request) /\
  (Z.abs (nowMs / 1000 - t) = 301 ->
     Tool.onRequest secret blockId request nowMs =
     Tool.Respond (Tool.requestId request) 401 "Request timestamp too old").
Proof.
  intros Hs He Hg Ht Hp.
  assert (ts <> "") as Hne by (intros ->; discriminate Hp).
  rewrite (onRequest_past_headers ts Hs He Hg Ht Hne), Hp. unfold Tool.too_old.
  split; intros ->; reflexivity.
Qed.

(** C10 (as amended): the freshness check is skipped exactly for a
    timestamp header that does not begin like a number (after leading
    white space and an optional sign comes no decimal digit or, behind
    0x, no hexadecimal digit).  [parseInt] then yields [NaN], the
    comparison is false, and the signature check alone decides the
    outcome.  From any other header [parseInt] reads a number, decimal
    numbers among them, and the freshness check rejects the request
    when that number is more than 300 seconds from the current time. *)
Theorem unparsable_timestamp_skips_freshness (ts : string) :
  JS.truthy secret = true ->
  JS.truthy (Tool.headers request !! Security.EVENT_ID) = true ->
  JS.truthy (Tool.headers request !! Security.SIGNATURE) = true ->
  Tool.headers request !! Security.TIMESTAMP = Some ts ->
  ts <> "" ->
  (TimestampSpec.leads_number ts = false ->
     JS.parseInt ts = None /\
     Tool.too_old (nowMs / 1000) (JS.parseInt ts) = false /\
     Tool.onRequest secret blockId request nowMs =
     GateSpec.signature_stage secret blockId request) /\
  (TimestampSpec.leads_number ts = true ->
     exists t,
       JS.parseInt ts = Some t /\
       Tool.onRequest secret blockId request nowMs =
       if Z.abs (nowMs / 1000 - t) >? 300
       then Tool.Respond (Tool.requestId request) 401 "Request timestamp too old"
       else GateSpec.signature_stage secret blockId request) /\
  (TimestampSpec.decimal_number ts = true -> TimestampSpec.leads_number ts = true).
Proof.
  intros Hs He Hg Ht Hne.
  rewrite (onRequest_past_headers ts Hs He Hg Ht Hne).
  pose proof (parseInt_leads_number ts) as Hread.
  split; [|split].
  - intros Hl. rewrite Hl in Hread. rewrite Hread. repeat split.
  - intros Hl. rewrite Hl in Hread. destruct Hread as (t & Hp).
    exists t. rewrite Hp. split; reflexivity.
  - apply decimal_number_leads.
Qed.

(** C7 (as amended): every rejection carries the status of the check
    that failed (500 for the absent secret, 401 for the others) and an
    error message of its own, so that the message tells which check
    rejected the request. *)
Theorem rejection_names_failed_check :
  match Tool.onRequest secret blockId request nowMs with
  | Tool.Respond _ code error =>
      exists c, List.find (GateSpec.fails secret blockId request nowMs) GateSpec.checks
                = Some c /\
                code = GateSpec.status_of c /\ error = GateSpec.message_of c
  | Tool.Emit _ _ _ =>
      List.find (GateSpec.fails secret blockId request nowMs) GateSpec.checks = None
  | Tool.ThrowTypeError =>
      List.find (GateSpec.fails secret blockId request nowMs) GateSpec.checks = None
  end /\
  (forall c c', GateSpec.message_of c = GateSpec.message_of c' -> c = c').
Proof.
  split.
  - rewrite onRequest_gate. unfold GateSpec.gate.
    destruct (List.find _ _) as [c|].
    + exists c. repeat split.
    + rewrite passed_by_body. destruct (Tool.body request); reflexivity.
  - intros [] []; simpl; intros H; first [reflexivity | discriminate H].
Qed.

End Gate.

Lemma freshness_window_inclusive_witness :
  Tool.onRequest (Some "S") "tool-A" (Examples.inbound "1300") 1000999 =
  GateSpec.signature_stage (Some "S") "tool-A" (Examples.inbound "1300") /\
  Tool.onRequest (Some "S") "tool-A" (Examples.inbound "699") 1000999 =
  Tool.Respond "req-1" 401 "Request timestamp too old".
Proof.
  split.
  - apply (freshness_window_inclusive (Some "S") "tool-A" (Examples.inbound "1300")
             1000999 "1300" 1300); reflexivity.
  - apply (freshness_window_inclusive (Some "S") "tool-A" (Examples.inbound "699")
             1000999 "699" 699); reflexivity.
Defined.

Lemma unparsable_timestamp_skips_freshness_witness :
  JS.parseInt "soon" = None /\
  Tool.too_old (1000999 / 1000) (JS.parseInt "soon") = false /\
  Tool.onRequest (Some "S") "tool-A" (Examples.inbound "soon") 1000999 =
  GateSpec.signature_stage (Some "S") "tool-A" (Examples.inbound "soon").
Proof.
  apply (unparsable_timestamp_skips_freshness (Some "S") "tool-A"
           (Examples.inbound "soon") 1000999 "soon"); try reflexivity.
  discriminate.
Defined.

(** C10, as stated, fails: the header "12abc" is not a decimal number,
    yet [parseInt] reads 12 from it.  A request that carries it, with
    the signature that belongs to it, is admitted while the clock is
    within 300 seconds of 12, and rejected by the freshness check
    afterwards. *)
Lemma digit_prefix_is_checked_for_freshness :
  TimestampSpec.decimal_number "12abc" = false /\
  JS.parseInt "12abc" = Some 12 /\
  Tool.onRequest (Some "S") "tool-A" (Examples.signed "12abc") 312999 =
    Tool.Emit "req-1" None [None] /\
  Tool.onRequest (Some "S") "tool-A" (Examples.signed "12abc") 313000 =
    Tool.Respond "req-1" 401 "Request timestamp too old".
Proof.
  split; [reflexivity|]. split; [reflexivity|]. split; [|reflexivity].
  vm_compute. reflexivity.
Qed.

(** C7, as stated, fails: two rejections with the same status carry
    different messages, one for the missing headers and one for the
    stale timestamp. *)
Lemma rejection_messages_differ :
  let no_headers :=
    Tool.onRequest (Some "S") "tool-A" Examples.bare 1000999 in
  let stale := Tool.onRequest (Some "S") "tool-A" (Examples.inbound "0") 1000999 in
  no_headers = Tool.Respond "req-1" 401 "Missing required security headers" /\
  stale = Tool.Respond "req-1" 401 "Request timestamp too old" /\
  GateSpec.status no_headers = GateSpec.status stale /\
  GateSpec.message no_headers <> GateSpec.message stale.
Proof.
  repeat split. vm_compute. discriminate.
Qed.


(** ** A signed call at the gate *)

Lemma hex_digest_nonempty (key data : string) :
  JS.truthy (Some (Crypto.createHmac_sha256_hex key data)) = true.
Proof.
  unfold Crypto.createHmac_sha256_hex.
  generalize (Crypto.hmac_sha256 (Crypto.bytes_of_string key) (Crypto.bytes_of_string data)).
  intros h. reflexivity.
Qed.

(** *** The hex text of a digest determines the digest *)



Lemma be_bytes_bytes (n : nat) (x : Z) : Forall Hex.is_byte (SHA256.be_bytes n x).
Proof.
  induction n as [|n IH]; cbn [SHA256.be_bytes]; constructor; [|exact IH].
  apply Z.mod_pos_bound. lia.
Qed.



Lemma add32_word (x y : Z) : EndToEnd.is_word (SHA256.add32 x y).
Proof.
  unfold EndToEnd.is_word, SHA256.add32. apply Z.mod_pos_bound. reflexivity.
Qed.

Lemma compress_words (H : SHA256.hash) (block : list Z) :
  EndToEnd.words (SHA256.compress H block).
Proof.
  unfold EndToEnd.words, SHA256.compress. cbn [SHA256.h_a SHA256.h_b SHA256.h_c
    SHA256.h_d SHA256.h_e SHA256.h_f SHA256.h_g SHA256.h_h].
  repeat split; apply add32_word.
Qed.

Lemma sha256_words (msg : list Z) : EndToEnd.words (SHA256.sha256 msg).
Proof.
  unfold SHA256.sha256.
  generalize (SHA256.blocks (length (SHA256.be_words (SHA256.pad msg)) / 16)
                (SHA256.be_words (SHA256.pad msg))).
  intros bs. destruct bs as [|b bs] using rev_ind.
  - unfold EndToEnd.words, EndToEnd.is_word. vm_compute. intuition discriminate.
  - rewrite fold_left_app. apply compress_words.
Qed.


Section SignedCall.

Variable t : Generate.ToolDefinition.
Variables eventId appSecret body : string.
Variables sentMs receivedMs : Z.
Variable requestId : string.
Variable parsed : JSON.value.

Let inbound : Tool.Request :=
  EndToEnd.deliver requestId parsed
    (Generate.signed_request t eventId appSecret body sentMs).

Let supplied : string :=
  Security.signRequest body (sentMs / 1000)
    (Security.generateFlowSecret (Generate.blockId t) appSecret).

Lemma inbound_headers :
  Tool.headers inbound !! Security.EVENT_ID = Some eventId /\
  Tool.headers inbound !! Security.TIMESTAMP = Some (JS.Number_toString (sentMs / 1000)) /\
  Tool.headers inbound !! Security.SIGNATURE = Some supplied.
Proof.
  unfold inbound, EndToEnd.deliver, Generate.signed_request.
  cbn [Tool.headers Generate.fetch_headers]. split; [|split].
  - rewrite !lookup_insert_ne by discriminate. apply lookup_insert_eq.
  - rewrite lookup_insert_ne by discriminate. apply lookup_insert_eq.
  - apply lookup_insert_eq.
Qed.

Hypothesis secret_present : appSecret <> "".
Hypothesis event_present : eventId <> "".
Hypothesis fresh : Z.abs (receivedMs / 1000 - sentMs / 1000) <= 300.

(** Whatever block receives the call, its gate gets as far as the
    signature check, and compares the supplied signature with the one
    it computes under its own identifier. *)
Lemma signed_request_at_gate (receiver : string) :
  Tool.onRequest (Some appSecret) receiver inbound receivedMs =
  if String.eqb supplied
       (Security.signRequest body (sentMs / 1000)
          (Security.generateFlowSecret receiver appSecret))
  then GateSpec.passed inbound
  else Tool.Respond requestId 401 "Invalid request signature".
Proof.
  destruct inbound_headers as (He & Ht & Hg).
  rewrite (onRequest_past_headers (Some appSecret) receiver inbound receivedMs
             (JS.Number_toString (sentMs / 1000))).
  - rewrite parseInt_Number_toString. unfold Tool.too_old.
    destruct (Z.gtb_spec (Z.abs (receivedMs / 1000 - sentMs / 1000)) 300); [lia|].
    unfold GateSpec.signature_stage, GateSpec.signature_differs, GateSpec.header.
    rewrite Ht, Hg. cbn [default].
    unfold GateSpec.recomputed_signature, Security.signRequest, Security.generateFlowSecret.
    cbn [default]. change (Tool.rawBody inbound) with body.
    destruct (String.eqb _ _); reflexivity.
  - destruct appSecret; [congruence | reflexivity].
  - rewrite He. destruct eventId; [congruence | reflexivity].
  - rewrite Hg. apply hex_digest_nonempty.
  - exact Ht.
  - pose proof (Number_toString_nonempty (sentMs / 1000)) as H.
    intros E. rewrite E in H. discriminate H.
Qed.



End SignedCall.



(** ** The digest takes finitely many values *)

Section Pigeonhole.

Lemma value_search (f : nat -> Z) (v : Z) (n : nat) :
  (exists i, (i < n)%nat /\ f i = v) \/ (forall i, (i < n)%nat -> f i <> v).
Proof.
  induction n as [|n [(i & Hi & E) | IH]].
  - right. intros i Hi. lia.
  - left. exists i. split; [lia | exact E].
  - destruct (Z.eq_dec (f n) v) as [E|E].
    + left. exists n. split; [lia | exact E].
    + right. intros i Hi. destruct (Nat.eq_dec i n) as [->|]; [exact E | apply IH; lia].
Qed.

(** [n + 1] values below [n] cannot all differ. *)
Lemma pigeonhole (n : nat) :
  forall f : nat -> Z,
    (forall i, (i <= n)%nat -> 0 <= f i < Z.of_nat n) ->
    exists i j, (i < j <= n)%nat /\ f i = f j.
Proof.
  induction n as [|n IH]; intros f Hf.
  - specialize (Hf 0%nat ltac:(lia)). lia.
  - destruct (value_search f (f (S n)) (S n)) as [(i & Hi & E) | Hnone].
    + exists i, (S n). split; [lia | exact E].
    + set (v := f (S n)) in *.
      destruct (IH (fun i => if f i <? v then f i else f i - 1)) as (i & j & Hij & E).
      * intros i Hi. pose proof (Hf i ltac:(lia)). pose proof (Hf (S n) ltac:(lia)).
        pose proof (Hnone i ltac:(lia)). fold v in H0.
        destruct (Z.ltb_spec (f i) v); lia.
      * exists i, j. split; [lia|].
        pose proof (Hnone i ltac:(lia)). pose proof (Hnone j ltac:(lia)).
        destruct (Z.ltb_spec (f i) v); destruct (Z.ltb_spec (f j) v); lia.
Qed.

Lemma code_below (h : SHA256.hash) :
  EndToEnd.words h -> 0 <= EndToEnd.code h < EndToEnd.digest_space.
Proof.
  unfold EndToEnd.words, EndToEnd.is_word, EndToEnd.code, EndToEnd.digest_space.
  destruct h as [a b c d e f g h]. cbn [SHA256.h_a SHA256.h_b SHA256.h_c
    SHA256.h_d SHA256.h_e SHA256.h_f SHA256.h_g SHA256.h_h].
  change SHA256.word_modulus with 4294967296.
  change (2 ^ 256) with (4294967296 * 4294967296 * 4294967296 * 4294967296 *
                         4294967296 * 4294967296 * 4294967296 * 4294967296).
  intros. nia.
Qed.

Lemma code_injective (h h' : SHA256.hash) :
  EndToEnd.words h -> EndToEnd.words h' ->
  EndToEnd.code h = EndToEnd.code h' -> h = h'.
Proof.
  unfold EndToEnd.words, EndToEnd.is_word, EndToEnd.code.
  destruct h as [a b c d e f g h], h' as [a' b' c' d' e' f' g' h'].
  cbn [SHA256.h_a SHA256.h_b SHA256.h_c
    SHA256.h_d SHA256.h_e SHA256.h_f SHA256.h_g SHA256.h_h].
  change SHA256.word_modulus with 4294967296.
  intros (?&?&?&?&?&?&?&?) (?&?&?&?&?&?&?&?) E.
  assert (forall x y x' y', 0 <= y < 4294967296 -> 0 <= y' < 4294967296 ->
            x * 4294967296 + y = x' * 4294967296 + y' -> x = x' /\ y = y') as step
    by (intros; lia).
  repeat match goal with
         | E : _ * 4294967296 + _ = _ * 4294967296 + _ |- _ =>
             apply step in E; [destruct E | assumption | assumption]
         end.
  subst. reflexivity.
Qed.

Lemma identifier_length (n : nat) : String.length (EndToEnd.identifier n) = S n.
Proof. induction n as [|n IH]; simpl; [reflexivity | now rewrite IH]. Qed.

(** Two block identifiers share the key derived from the secret "S". *)
Lemma flow_secret_collision :
  exists a b : string,
    a <> b /\ Security.generateFlowSecret a "S" = Security.generateFlowSecret b "S".
Proof.
  pose (h := fun n : nat =>
               Crypto.hmac_sha256 (Crypto.bytes_of_string "S")
                 (Crypto.bytes_of_string (EndToEnd.identifier n))).
  assert (Hw : forall n, EndToEnd.words (h n)) by (intros n; apply sha256_words).
  assert (Hsize : 0 <= EndToEnd.digest_space) by (vm_compute; discriminate).
  pose proof (Z2Nat.id _ Hsize) as Hn.
  revert Hn. generalize (Z.to_nat EndToEnd.digest_space). intros n Hn.
  destruct (pigeonhole n (fun i => EndToEnd.code (h i))) as (i & j & Hij & E).
  - intros i _. rewrite Hn. apply code_below, Hw.
  - apply code_injective in E; [| apply Hw | apply Hw].
    exists (EndToEnd.identifier i), (EndToEnd.identifier j). split.
    + intros Heq. apply (f_equal String.length) in Heq.
      rewrite !identifier_length in Heq. lia.
    + unfold Security.generateFlowSecret, Crypto.createHmac_sha256_hex.
      fold (h i). fold (h j). now rewrite E.
Qed.

End Pigeonhole.

(** The proviso of a collision cannot be dropped: the digest has 256
    bits, so some two identifiers yield the same derived key, and a
    request signed for the one is admitted by the gate of the other. *)
Lemma some_block_admits_a_foreign_call :
  exists a b : string,
    a <> b /\
    Tool.onRequest (Some "S") b
      (EndToEnd.deliver "req-1" (JSON.Object [])
         (Generate.signed_request (EndToEnd.tool_of a) "evt-1" "S" "{}" 0)) 0 =
    Tool.Emit "req-1" None [None].
Proof.
  destruct flow_secret_collision as (a & b & Hab & E).
  exists a, b. split; [exact Hab|].
  rewrite signed_request_at_gate.
  - cbn [Generate.blockId EndToEnd.tool_of]. rewrite E, String.eqb_refl. reflexivity.
  - discriminate.
  - discriminate.
  - vm_compute. discriminate.
Qed.


(** ** The retry executor *)

Section Retry.

Import Retry RetrySpec.

Context {T : Type}.
Variable operation : Z -> settled T.
Variable options : RetryOptions.

Let run : nat -> Z -> option thrown -> list effect * completion T :=
  attempts operation (limit options) (default 5000 (maxDelay options))
    (pendingEventId options) (default "operation" (operationName options)).

Lemma withRetry_run : withRetry operation options = run (Z.to_nat (limit options)) 1 None.
Proof. reflexivity. Qed.

Lemma progress_announce (attempt : Z) :
  progress (pendingEventId options) (default "operation" (operationName options)) attempt
  = announce options attempt.
Proof.
  unfold progress, announce. rewrite Z.gtb_ltb.
  destruct (pendingEventId options) as [[|c id]|]; reflexivity.
Qed.

Lemma fails_retryably_inv (r : settled T) :
  fails_retryably r ->
  exists error message,
    r = Rejected error /\ message_of error = Some message /\ retryable message = true.
Proof.
  intros (error & message & -> & Hm & Ht). exists error, message.
  split; [reflexivity|]. split; [exact Hm | now apply retryable_transient].
Qed.

(** One iteration of the loop, by the way the attempt settles. *)
Lemma run_resolved (r : nat) (n : Z) (le : option thrown) (v : T) :
  operation n = Resolved v ->
  run (S r) n le = (announce options n ++ [Invoke n], Returns v).
Proof.
  intros H. unfold run. cbn [attempts]. rewrite H, progress_announce. reflexivity.
Qed.

Lemma run_fatal (r : nat) (n : Z) (le : option thrown) (error : thrown)
    (message : string) :
  operation n = Rejected error ->
  message_of error = Some message ->
  (n <? limit options) && retryable message = false ->
  run (S r) n le = (announce options n ++ [Invoke n], Throws (as_error error)).
Proof.
  intros H Hm Hno. unfold run. cbn [attempts]. rewrite H, progress_announce.
  destruct (n <? limit options); [|reflexivity].
  rewrite Hm. cbn [andb] in Hno. rewrite Hno. reflexivity.
Qed.

Lemma run_retry (r : nat) (n : Z) (le : option thrown) (error : thrown)
    (message : string) :
  operation n = Rejected error ->
  message_of error = Some message ->
  n < limit options -> retryable message = true ->
  run (S r) n le =
  (announce options n ++ [Invoke n; SetTimeout (wait options n)] ++
     fst (run r (n + 1) (Some (as_error error))),
   snd (run r (n + 1) (Some (as_error error)))).
Proof.
  intros H Hm Hlt Hre. unfold run. cbn [attempts]. rewrite H, progress_announce.
  apply Z.ltb_lt in Hlt. rewrite Hlt, Hm, Hre.
  destruct (attempts _ _ _ _ _ r (n + 1) _) as [trace result]. reflexivity.
Qed.

(** A value without a message that can be searched ends the run. *)
Lemma run_unsearchable (r : nat) (n : Z) (le : option thrown) (error : thrown) :
  operation n = Rejected error ->
  message_of error = None ->
  run (S r) n le =
  (announce options n ++ [Invoke n],
   if n <? limit options then ThrowsTypeError else Throws (as_error error)).
Proof.
  intros H Hm. unfold run. cbn [attempts]. rewrite H, progress_announce.
  destruct (n <? limit options); [|reflexivity]. now rewrite Hm.
Qed.

(** Every iteration begins with the announcement and the call. *)
Lemma run_begins (r : nat) (n : Z) (le : option thrown) :
  exists rest, fst (run (S r) n le) = announce options n ++ Invoke n :: rest.
Proof.
  unfold run. cbn [attempts]. rewrite progress_announce.
  destruct (operation n) as [v | error]; [now exists []|].
  destruct (n <? limit options); [|now exists []].
  destruct (message_of error) as [message|]; [|now exists []].
  destruct (retryable message); [|now exists []].
  destruct (attempts _ _ _ _ _ r (n + 1) _) as [trace result].
  now exists (SetTimeout (backoff (default 5000 (maxDelay options)) n) :: trace).
Qed.

(** [count] attempts in a row that fail retryably, with attempts to spare. *)
Lemma run_retried (count : nat) :
  forall (r : nat) (a : Z) (le : option thrown),
    (forall i, a <= i < a + Z.of_nat count -> fails_retryably (operation i)) ->
    a + Z.of_nat count <= limit options ->
    exists le',
      run (count + r) a le =
      (retried options count a ++ fst (run r (a + Z.of_nat count) le'),
       snd (run r (a + Z.of_nat count) le')).
Proof.
  induction count as [|count IH]; intros r a le Hfail Hroom.
  - exists le. cbn [Nat.add retried app]. rewrite Z.add_0_r.
    now destruct (run r a le).
  - destruct (fails_retryably_inv _ (Hfail a ltac:(lia))) as (error & message & Ha & Hm & Hre).
    destruct (IH r (a + 1) (Some (as_error error))) as (le' & E).
    + intros i Hi. apply Hfail. lia.
    + lia.
    + exists le'. cbn [Nat.add].
      rewrite (run_retry _ _ _ error message Ha Hm ltac:(lia) Hre), E.
      cbn [fst snd retried].
      replace (a + 1 + Z.of_nat count) with (a + Z.of_nat (S count)) by lia.
      f_equal. rewrite <- !app_assoc. reflexivity.
Qed.

Lemma run_reaches (n : Z) :
  1 <= n <= limit options ->
  (forall i, 1 <= i < n -> fails_retryably (operation i)) ->
  exists le,
    withRetry operation options =
    (retried options (Z.to_nat (n - 1)) 1 ++
       fst (run (S (Z.to_nat (limit options - n))) n le),
     snd (run (S (Z.to_nat (limit options - n))) n le)).
Proof.
  intros Hn Hfail. rewrite withRetry_run.
  replace (Z.to_nat (limit options))
    with (Z.to_nat (n - 1) + S (Z.to_nat (limit options - n)))%nat by lia.
  destruct (run_retried (Z.to_nat (n - 1)) (S (Z.to_nat (limit options - n))) 1 None)
    as (le & E).
  - intros i Hi. apply Hfail. lia.
  - lia.
  - exists le. rewrite E. now replace (1 + Z.of_nat (Z.to_nat (n - 1))) with n by lia.
Qed.

Lemma invoke_in_announce (j a : Z) : ~ In (Invoke j) (announce options a).
Proof.
  unfold announce. destruct (pendingEventId options) as [[|c id]|]; simpl; try tauto.
  destruct (1 <? a); simpl; [|tauto]. intros [H|[]]. discriminate H.
Qed.

Lemma invoke_in_retried (count : nat) :
  forall j a, In (Invoke j) (retried options count a) -> a <= j < a + Z.of_nat count.
Proof.
  induction count as [|count IH]; intros j a; cbn [retried]; [intros []|].
  rewrite in_app_iff. intros [H | H].
  - now apply invoke_in_announce in H.
  - cbn [app In] in H. destruct H as [H | [H | H]].
    + injection H as ->. lia.
    + discriminate H.
    + apply IH in H. lia.
Qed.

Lemma invoke_in_steps (j n : Z) :
  1 <= n -> In (Invoke j) (steps_through options n) -> 1 <= j <= n.
Proof.
  intros Hn. unfold steps_through. rewrite !in_app_iff. intros [H | [H | H]].
  - apply invoke_in_retried in H. lia.
  - now apply invoke_in_announce in H.
  - destruct H as [H | []]. injection H as ->. lia.
Qed.

Lemma announce_first : announce options 1 = [].
Proof. unfold announce. destruct (pendingEventId options) as [[|c id]|]; reflexivity. Qed.

(** After an attempt that fails with a message, the next attempt is
    made exactly when attempts remain and the message is one of a
    transient failure; otherwise the run ends with that attempt. *)
Lemma retry_decision (n : Z) (error : thrown) (message : string) :
  1 <= n <= limit options ->
  (forall i, 1 <= i < n -> fails_retryably (operation i)) ->
  operation n = Rejected error ->
  message_of error = Some message ->
  (In (Invoke (n + 1)) (fst (withRetry operation options)) <->
   n < limit options /\ transient message) /\
  (~ (n < limit options /\ transient message) ->
   withRetry operation options = (steps_through options n, Throws (as_error error))).
Proof.
  intros Hn Hfail Hop Hm.
  assert (Hstop : ~ (n < limit options /\ transient message) ->
            withRetry operation options =
            (steps_through options n, Throws (as_error error))).
  { intros Hno. destruct (run_reaches n Hn Hfail) as (le & E).
    rewrite E, (run_fatal _ _ _ error message Hop Hm).
    - reflexivity.
    - destruct (Z.ltb_spec n (limit options)) as [Hlt|]; [|reflexivity].
      destruct (retryable message) eqn:Hre; [|reflexivity].
      exfalso. apply Hno. split; [exact Hlt | now apply retryable_transient]. }
  split; [|exact Hstop]. split.
  - intros Hin. destruct (Z.ltb_spec n (limit options)) as [Hlt|Hge].
    + destruct (retryable message) eqn:Hre.
      * split; [exact Hlt | now apply retryable_transient].
      * exfalso. rewrite Hstop in Hin.
        -- apply invoke_in_steps in Hin; lia.
        -- intros [_ Ht]. apply retryable_transient in Ht. congruence.
    + exfalso. rewrite Hstop in Hin; [|lia].
      apply invoke_in_steps in Hin; lia.
  - intros [Hlt Ht].
    destruct (run_reaches (n + 1)) as (le & E); [lia | |].
    + intros i Hi. destruct (Z.eq_dec i n) as [->|]; [|apply Hfail; lia].
      exists error, message. split; [exact Hop|]. split; [exact Hm | exact Ht].
    + rewrite E. cbn [fst].
      destruct (run_begins (Z.to_nat (limit options - (n + 1))) (n + 1) le) as (rest & ->).
      rewrite !in_app_iff. right. right. now left.
Qed.

(** C4: a first call that succeeds is the only step of the run, which
    returns its value; after an attempt that fails with an [Error], the
    next attempt is made if and only if attempts remain and the message
    contains one of the four markers, and otherwise the run ends there
    and throws that error. *)
Theorem withRetry_retry_decision (n : Z) :
  1 <= n <= limit options ->
  (forall i, 1 <= i < n -> fails_retryably (operation i)) ->
  (forall v, operation 1 = Resolved v ->
     withRetry operation options = ([Invoke 1], Returns v)) /\
  (forall v, operation n = Resolved v ->
     withRetry operation options = (steps_through options n, Returns v)) /\
  (forall message, operation n = Rejected (ErrorObject message) ->
     (In (Invoke (n + 1)) (fst (withRetry operation options)) <->
      n < limit options /\ transient message) /\
     (~ (n < limit options /\ transient message) ->
      withRetry operation options =
      (steps_through options n, Throws (ErrorObject message)))).
Proof.
  intros Hn Hfail. split; [|split].
  - intros v Hop. rewrite withRetry_run.
    destruct (Z.to_nat (limit options)) as [|r] eqn:Er; [lia|].
    rewrite (run_resolved _ _ _ v Hop), announce_first. reflexivity.
  - intros v Hop. destruct (run_reaches n Hn Hfail) as (le & E).
    rewrite E, (run_resolved _ _ _ v Hop). reflexivity.
  - intros message Hop.
    exact (retry_decision n (ErrorObject message) message Hn Hfail Hop eq_refl).
Qed.

Lemma retried_snoc (count : nat) :
  forall a,
    retried options (S count) a =
    retried options count a ++ announce options (a + Z.of_nat count) ++
    [Invoke (a + Z.of_nat count); SetTimeout (wait options (a + Z.of_nat count))].
Proof.
  induction count as [|count IH]; intros a.
  - cbn [retried app]. rewrite Z.add_0_r. reflexivity.
  - change (retried options (S (S count)) a)
      with (announce options a ++ [Invoke a; SetTimeout (wait options a)] ++
            retried options (S count) (a + 1)).
    rewrite IH. cbn [retried].
    replace (a + 1 + Z.of_nat count) with (a + Z.of_nat (S count)) by lia.
    rewrite <- !app_assoc. reflexivity.
Qed.

Lemma announce_after_first (a : Z) : announce options a <> [] -> 1 < a.
Proof.
  unfold announce. destruct (pendingEventId options) as [[|c id]|]; try congruence.
  destruct (Z.ltb_spec 1 a); [trivial | congruence].
Qed.

Lemma announce_single (a : Z) : exists l, announce options a = l /\ (length l <= 1)%nat.
Proof.
  unfold announce. destruct (pendingEventId options) as [[|c id]|];
    try (exists []; split; [reflexivity | simpl; lia]).
  destruct (1 <? a); eexists; (split; [reflexivity | simpl; lia]).
Qed.

Lemma well_announced_attempt (a : Z) (rest : list effect) :
  1 <= a <= limit options ->
  well_announced options rest ->
  well_announced options (announce options a ++ Invoke a :: rest).
Proof.
  intros Ha Hrest.
  assert (Hplain : well_announced options (Invoke a :: rest)) by (split; [exact I | exact Hrest]).
  destruct (announce_single a) as (l & E & Hl).
  pose proof (announce_after_first a) as Hafter. rewrite E in *.
  destruct l as [|e [|e' l]]; [exact Hplain | | simpl in Hl; lia].
  cbn [app]. split; [|exact Hplain].
  destruct e; cbn [announces]; try exact I.
  exists a, rest. split; [|split; [exact E | reflexivity]].
  specialize (Hafter ltac:(discriminate)). lia.
Qed.

Lemma run_well_announced (r : nat) :
  forall a le, 1 <= a -> a + Z.of_nat r <= limit options + 1 ->
    well_announced options (fst (run r a le)).
Proof.
  induction r as [|r IH]; intros a le Ha Hroom; [exact I|].
  unfold run. cbn [attempts]. fold run. rewrite progress_announce.
  destruct (operation a) as [v | error].
  - apply well_announced_attempt; [lia | exact I].
  - destruct (Z.ltb_spec a (limit options)).
    + destruct (message_of error) as [message|].
      * destruct (retryable message).
        -- specialize (IH (a + 1) (Some (as_error error)) ltac:(lia) ltac:(lia)).
           destruct (run r (a + 1) (Some (as_error error))) as [trace result].
           cbn [fst] in *. apply well_announced_attempt; [lia|]. split; [exact I | exact IH].
        -- apply well_announced_attempt; [lia | exact I].
      * apply well_announced_attempt; [lia | exact I].
    + apply well_announced_attempt; [lia | exact I].
Qed.

Lemma well_announced_at (trace pre post : list effect) (id text : string) :
  well_announced options trace ->
  trace = pre ++ UpdatePending id text :: post ->
  exists attempt rest,
    2 <= attempt <= limit options /\
    announce options attempt = [UpdatePending id text] /\
    post = Invoke attempt :: rest.
Proof.
  revert trace. induction pre as [|e pre IH]; intros trace Hwa ->.
  - destruct Hwa as [H _]. exact H.
  - destruct Hwa as [_ H]. now apply (IH _ H).
Qed.

(** C5 (as amended): after attempt [n < maxRetries] has failed with a
    retryable error, the run waits [min (1000 * 2 ^ (n - 1), maxDelay)]
    milliseconds and then, when a pending event is given, updates its
    status to announce attempt [n + 1] right before making that attempt:
    the update comes after the wait, not before it.  A run begins with
    the call of attempt 1, and every status update announces an
    attempt from 2 to [maxRetries], whose call follows it at once. *)
Theorem wait_then_announce (n : Z) :
  1 <= n < limit options ->
  (forall i, 1 <= i <= n -> fails_retryably (operation i)) ->
  (exists before after,
     fst (withRetry operation options) =
     before ++
     [Invoke n;
      SetTimeout (Z.min (1000 * 2 ^ (n - 1)) (default 5000 (maxDelay options)))] ++
     announce options (n + 1) ++ Invoke (n + 1) :: after) /\
  (exists rest, fst (withRetry operation options) = Invoke 1 :: rest) /\
  (forall before id text after,
     fst (withRetry operation options) = before ++ UpdatePending id text :: after ->
     exists attempt rest,
       2 <= attempt <= limit options /\
       announce options attempt = [UpdatePending id text] /\
       after = Invoke attempt :: rest).
Proof.
  intros Hn Hfail. split; [|split].
  - destruct (run_reaches (n + 1)) as (le & E); [lia | intros i Hi; apply Hfail; lia |].
    rewrite E. cbn [fst].
    destruct (run_begins (Z.to_nat (limit options - (n + 1))) (n + 1) le) as (after & ->).
    replace (Z.to_nat (n + 1 - 1)) with (S (Z.to_nat (n - 1))) by lia.
    rewrite retried_snoc. replace (1 + Z.of_nat (Z.to_nat (n - 1))) with n by lia.
    exists (retried options (Z.to_nat (n - 1)) 1 ++ announce options n), after.
    unfold wait. rewrite <- !app_assoc. reflexivity.
  - rewrite withRetry_run.
    destruct (Z.to_nat (limit options)) as [|r] eqn:Er; [lia|].
    destruct (run_begins r 1 None) as (rest & ->).
    rewrite announce_first. now exists rest.
  - intros before id text after E.
    apply (well_announced_at (fst (withRetry operation options)) before after id text);
      [|exact E].
    rewrite withRetry_run. apply run_well_announced; lia.
Qed.

End Retry.

Lemma withRetry_retry_decision_witness :
  Retry.withRetry Examples.then_fatal Retry.no_options =
  ([Retry.Invoke 1; Retry.SetTimeout 1000; Retry.Invoke 2],
   Retry.Throws (Retry.ErrorObject "HTTP 500: Internal Server Error")).
Proof.
  assert (1 <= 2 <= RetrySpec.limit Retry.no_options) as Hn by (vm_compute; intuition discriminate).
  assert (forall i, 1 <= i < 2 -> RetrySpec.fails_retryably (Examples.then_fatal i)) as Hfail.
  { intros i Hi. assert (i = 1) as -> by lia.
    exists (Retry.ErrorObject "timeout"), "timeout". split; [reflexivity|].
    split; [reflexivity|]. right. left. now exists "", "". }
  destruct (withRetry_retry_decision Examples.then_fatal Retry.no_options 2 Hn Hfail)
    as (_ & _ & Hrejected).
  destruct (Hrejected "HTTP 500: Internal Server Error" eq_refl) as [_ Hstop].
  apply Hstop. intros [_ Ht]. apply retryable_transient in Ht. discriminate Ht.
Defined.

Lemma wait_then_announce_witness :
  exists before after,
    fst (Retry.withRetry Examples.always_timeout Examples.with_pending) =
    before ++
    [Retry.Invoke 2; Retry.SetTimeout 2000] ++
    [Retry.UpdatePending "pending-1" "operation (attempt 3)..."] ++
    Retry.Invoke 3 :: after.
Proof.
  assert (1 <= 2 < RetrySpec.limit Examples.with_pending) as Hn by (vm_compute; intuition discriminate).
  assert (forall i, 1 <= i <= 2 -> RetrySpec.fails_retryably (Examples.always_timeout i)) as Hfail.
  { intros i _. exists (Retry.ErrorObject "timeout"), "timeout". split; [reflexivity|].
    split; [reflexivity|]. right. left. now exists "", "". }
  exact (proj1 (wait_then_announce Examples.always_timeout Examples.with_pending 2 Hn Hfail)).
Defined.

(** C5, as stated, fails: the status update for attempt 2 comes after
    the wait of 1000 ms, not before it. *)
Lemma announcement_follows_wait :
  let run := Retry.withRetry Examples.fails_once Examples.with_pending in
  run =
  ([Retry.Invoke 1; Retry.SetTimeout 1000;
    Retry.UpdatePending "pending-1" "operation (attempt 2)..."; Retry.Invoke 2],
   Retry.Returns "done") /\
  ~ RetrySpec.precedes (Retry.UpdatePending "pending-1" "operation (attempt 2)...")
      (Retry.SetTimeout 1000) (fst run).
Proof.
  split; [reflexivity|].
  intros (l1 & l2 & l3 & E). vm_compute in E.
  destruct l1 as [|e1 [|e2 [|e3 [|e4 l1]]]]; try discriminate E.
  - destruct l2 as [|f1 [|f2 l2]]; discriminate E.
  - destruct l1; discriminate E.
Qed.

(** C1: the code does otherwise.  With the default options, an operation
    that fails with the retryable message "timeout" on every attempt is
    called three times, with waits of 1000 and 2000 ms, and the run then
    throws that last error as it is, not an error that names the
    operation and the number of attempts. *)
Theorem exhausted_retries_throw_last_error :
  Retry.withRetry Examples.always_timeout Retry.no_options =
  ([Retry.Invoke 1; Retry.SetTimeout 1000; Retry.Invoke 2; Retry.SetTimeout 2000;
    Retry.Invoke 3],
   Retry.Throws (Retry.ErrorObject "timeout")) /\
  snd (Retry.withRetry Examples.always_timeout Retry.no_options) <>
  Retry.Throws (Retry.ErrorObject "operation failed after 3 attempts: timeout").
Proof.
  split; [reflexivity | vm_compute; discriminate].
Qed.


(** ** The tool invocation bridge *)

Section Bridge.

Lemma three_digits (n : Z) :
  100 <= n <= 999 ->
  JS.Number_toString n =
  String (JS.digit_char (n / 100))
    (String (JS.digit_char (n / 10 mod 10)) (String (JS.digit_char (n mod 10)) "")).
Proof.
  intros Hn. unfold JS.Number_toString, JS.digits.
  destruct (Z.ltb_spec n 0); [lia|].
  assert (6 <= Z.log2 n) as Hlog.
  { change 6 with (Z.log2 64). apply Z.log2_le_mono. lia. }
  destruct (Z.to_nat (Z.log2 n)) as [|[|fuel]] eqn:E; [lia | lia |].
  cbn [JS.digits_onto].
  destruct (Z.ltb_spec n 10); [lia|].
  destruct (Z.ltb_spec (n / 10) 10) as [Hlt|_].
  { pose proof (Z.div_mod n 10 ltac:(lia)). pose proof (Z.mod_pos_bound n 10 ltac:(lia)).
    lia. }
  rewrite Z.div_div by lia. change (10 * 10) with 100.
  assert (0 <= n / 100 < 10) as Hd.
  { split; [apply Z.div_pos; lia | apply Z.div_lt_upper_bound; lia]. }
  destruct fuel as [|fuel]; cbn [JS.digits_onto].
  - now rewrite (Z.mod_small (n / 100)) by exact Hd.
  - destruct (Z.ltb_spec (n / 100) 10); [|lia].
    now rewrite (Z.mod_small (n / 100)) by exact Hd.
Qed.

Lemma includes_cons (c : ascii) (s sub : string) :
  JS.includes (String c s) sub = String.prefix sub (String c s) || JS.includes s sub.
Proof. reflexivity. Qed.

Lemma includes_skip (c c0 : ascii) (s sub : string) :
  c <> c0 ->
  JS.includes (String c s) (String c0 sub) = JS.includes s (String c0 sub).
Proof.
  intros Hne. cbn [JS.includes]. cbn [String.prefix].
  destruct (Ascii.ascii_dec c0 c) as [->|_]; [congruence | reflexivity].
Qed.

Lemma digit_char_plain (d : Z) :
  0 <= d <= 9 ->
  JS.digit_char d <> "H"%char /\ JS.digit_char d <> "t"%char /\
  JS.digit_char d <> "E"%char.
Proof.
  intros H.
  assert (d = 0 \/ d = 1 \/ d = 2 \/ d = 3 \/ d = 4 \/ d = 5 \/ d = 6 \/
          d = 7 \/ d = 8 \/ d = 9) as Hd by lia.
  repeat destruct Hd as [-> | Hd]; try subst d; repeat split; discriminate.
Qed.

Lemma digit_char_injective (d : Z) (c : ascii) :
  0 <= d <= 9 -> JS.digit_char d = c -> JS.digit_value 10 c = Some d.
Proof. intros Hd <-. now apply digit_char_value. Qed.

Variable response : Generate.Response.

Let message : string :=
  "HTTP " +:+ JS.Number_toString (Generate.status response) +:+ ": " +:+
  Generate.statusText response.

(** A marker that does not begin like the message occurs in the
    message only where it occurs in the status text. *)
Lemma marker_in_status_text (c0 : ascii) (sub : string) :
  100 <= Generate.status response <= 999 ->
  c0 <> "H"%char -> c0 <> "T"%char -> c0 <> "P"%char -> c0 <> " "%char ->
  c0 <> ":"%char ->
  (forall d, 0 <= d <= 9 -> JS.digit_char d <> c0) ->
  JS.includes message (String c0 sub) =
  JS.includes (Generate.statusText response) (String c0 sub).
Proof.
  intros Hs HH HT HP Hsp Hco Hd. unfold message.
  rewrite (three_digits _ Hs).
  change ("HTTP " +:+ ?x) with (String "H" (String "T" (String "T" (String "P" (String " " x))))).
  rewrite !append_cons, append_nil. change (": " +:+ ?x) with (String ":" (String " " x)).
  assert (0 <= Generate.status response / 100 <= 9) by
    (split; [apply Z.div_pos; lia |
             assert (Generate.status response / 100 < 10) by (apply Z.div_lt_upper_bound; lia); lia]).
  pose proof (Z.mod_pos_bound (Generate.status response / 10) 10 ltac:(lia)).
  pose proof (Z.mod_pos_bound (Generate.status response) 10 ltac:(lia)).
  rewrite !includes_skip; first [reflexivity | congruence | apply Hd; lia].
Qed.

Lemma gateway_marker_in_status_text :
  100 <= Generate.status response <= 999 ->
  Generate.status response <> 504 ->
  JS.includes message "HTTP 504" =
  JS.includes (Generate.statusText response) "HTTP 504".
Proof.
  intros Hs Hne. unfold message. rewrite (three_digits _ Hs).
  set (n := Generate.status response) in *.
  assert (0 <= n / 100 <= 9) as H2 by
    (split; [apply Z.div_pos; lia |
             assert (n / 100 < 10) by (apply Z.div_lt_upper_bound; lia); lia]).
  pose proof (Z.mod_pos_bound (n / 10) 10 ltac:(lia)) as H1.
  pose proof (Z.mod_pos_bound n 10 ltac:(lia)) as H0.
  destruct (digit_char_plain _ H2) as (A2 & _ & _).
  destruct (digit_char_plain (n / 10 mod 10) ltac:(lia)) as (A1 & _ & _).
  destruct (digit_char_plain (n mod 10) ltac:(lia)) as (A0 & _ & _).
  change ("HTTP " +:+ ?x) with (String "H" (String "T" (String "T" (String "P" (String " " x))))).
  rewrite !append_cons, append_nil. change (": " +:+ ?x) with (String ":" (String " " x)).
  rewrite includes_cons.
  replace (String.prefix "HTTP 504" _) with false.
  - cbn [orb]. change "HTTP 504" with (String "H" "TTP 504").
    rewrite !includes_skip; first [reflexivity | congruence | discriminate].
  - symmetry. cbn [String.prefix].
    destruct (Ascii.ascii_dec "H" "H"); [|congruence].
    destruct (Ascii.ascii_dec "T" "T"); [|congruence].
    destruct (Ascii.ascii_dec "P" "P"); [|congruence].
    destruct (Ascii.ascii_dec " " " "); [|congruence].
    destruct (Ascii.ascii_dec "5" (JS.digit_char (n / 100))) as [E2|]; [|reflexivity].
    destruct (Ascii.ascii_dec "0" (JS.digit_char (n / 10 mod 10))) as [E1|]; [|reflexivity].
    destruct (Ascii.ascii_dec "4" (JS.digit_char (n mod 10))) as [E0|]; [|reflexivity].
    exfalso. apply Hne.
    symmetry in E2, E1, E0.
    apply digit_char_injective in E2; [|lia].
    apply digit_char_injective in E1; [|lia].
    apply digit_char_injective in E0; [|lia].
    change (JS.digit_value 10 "5") with (Some 5) in E2.
    change (JS.digit_value 10 "0") with (Some 0) in E1.
    change (JS.digit_value 10 "4") with (Some 4) in E0.
    injection E2 as E2. injection E1 as E1. injection E0 as E0.
    pose proof (Z.div_mod n 10 ltac:(lia)) as D0.
    pose proof (Z.div_mod (n / 10) 10 ltac:(lia)) as D1.
    rewrite Z.div_div in D1 by lia. change (10 * 10) with 100 in D1. lia.
Qed.

(** C8 (as amended): a response whose status is not 2xx makes the call
    throw an error with the message "HTTP <status>: <statusText>".  A
    504 is thereby retryable; any other three-digit status is
    retryable exactly when its status text itself contains one of the
    markers.  On a 2xx response whose JSON body holds a [result], the
    call returns that result serialized. *)
Theorem call_result_by_status :
  (Generate.ok response = false ->
     Generate.call_result (Generate.Responded response) =
     Retry.Rejected (Retry.ErrorObject message)) /\
  (Generate.status response = 504 -> Retry.retryable message = true) /\
  (100 <= Generate.status response <= 999 -> Generate.status response <> 504 ->
     Retry.retryable message = Retry.retryable (Generate.statusText response)) /\
  (forall v result,
     Generate.ok response = true ->
     Generate.json response = Generate.Parsed v ->
     JSON.get v "result" = Some result ->
     Generate.call_result (Generate.Responded response) =
     Retry.Resolved (Some (JSON.stringify result))).
Proof.
  split; [|split; [|split]].
  - intros Hok. unfold Generate.call_result. now rewrite Hok.
  - intros Hs. unfold Retry.retryable, message. rewrite Hs.
    replace (JS.includes _ "HTTP 504") with true; [reflexivity|].
    symmetry. apply includes_contains.
    exists "", (": " +:+ Generate.statusText response). reflexivity.
  - intros Hs Hne. unfold Retry.retryable.
    rewrite (gateway_marker_in_status_text Hs Hne).
    rewrite !(marker_in_status_text _ _ Hs); try discriminate; try reflexivity;
      intros d Hd; destruct (digit_char_plain d Hd) as (? & ? & ?); assumption.
  - intros v result Hok Hjson Hget. unfold Generate.call_result.
    rewrite Hok, Hjson. cbn [negb].
    destruct v; try discriminate Hget. now rewrite Hget.
Qed.

End Bridge.

Lemma call_result_by_status_witness :
  Generate.call_result (Generate.Responded Examples.bad_gateway) =
    Retry.Rejected (Retry.ErrorObject "HTTP 502: Bad Gateway") /\
  Retry.retryable "HTTP 502: Bad Gateway" = Retry.retryable "Bad Gateway" /\
  Generate.call_result (Generate.Responded Examples.answered) =
    Retry.Resolved (Some (JSON.stringify (JSON.Str "sunny"))).
Proof.
  split; [|split].
  - apply (proj1 (call_result_by_status Examples.bad_gateway)). reflexivity.
  - apply (proj1 (proj2 (proj2 (call_result_by_status Examples.bad_gateway)))).
    + vm_compute. intuition discriminate.
    + discriminate.
  - apply (proj2 (proj2 (proj2 (call_result_by_status Examples.answered)))
             (JSON.Object [("result", JSON.Str "sunny")]) (JSON.Str "sunny"));
      reflexivity.
Defined.

(** C8, as stated, fails: a 500 response whose status text contains
    "timeout" makes the call throw an error that the executor retries. *)
Lemma other_status_can_be_retryable :
  Generate.ok Examples.upstream_timeout = false /\
  Generate.status Examples.upstream_timeout <> 504 /\
  Generate.call_result (Generate.Responded Examples.upstream_timeout) =
    Retry.Rejected (Retry.ErrorObject "HTTP 500: upstream timeout") /\
  Retry.retryable "HTTP 500: upstream timeout" = true.
Proof.
  repeat split. discriminate.
Qed.

(** ** The application's synchronization *)

Section Sync.

Variable signals : gmap string string.
Variable randomBytes : nat -> list Z.

(** C9: [onSync] puts a new [toolSecuritySecret] among the signal
    updates, the hex text of 32 fresh random bytes, only when none is
    set; when one is set the updates leave it alone, whether the API
    key was found valid or not. *)
Theorem onSync_generates_secret_once (responseOk : bool) :
  (JS.truthy (signals !! "toolSecuritySecret") = true ->
     App.signalUpdates (App.onSync signals randomBytes responseOk) = ∅) /\
  (JS.truthy (signals !! "toolSecuritySecret") = false ->
     App.signalUpdates (App.onSync signals randomBytes responseOk) =
     {[ "toolSecuritySecret" := Crypto.to_hex (randomBytes 32%nat) ]}) /\
  App.signalUpdates (App.onSync signals randomBytes true) =
  App.signalUpdates (App.onSync signals randomBytes false).
Proof.
  unfold App.onSync.
  destruct (JS.truthy (signals !! "toolSecuritySecret")); destruct responseOk;
    cbn [negb App.signalUpdates]; repeat split; intros; congruence.
Qed.

End Sync.

Lemma onSync_generates_secret_once_witness :
  App.signalUpdates
    (App.onSync {[ "toolSecuritySecret" := "5ec7e7" ]} (fun n => repeat 171 n) false) = ∅ /\
  App.signalUpdates (App.onSync ∅ (fun n => repeat 171 n) false) =
  {[ "toolSecuritySecret" := Crypto.to_hex (repeat 171 32%nat) ]}.
Proof.
  split.
  - apply (proj1 (onSync_generates_secret_once {[ "toolSecuritySecret" := "5ec7e7" ]}
                    (fun n => repeat 171 n) false)). reflexivity.
  - apply (proj1 (proj2 (onSync_generates_secret_once ∅ (fun n => repeat 171 n) false))).
    reflexivity.
Defined.

(** ** Runs of the retry executor, as a whole *)

Section Runs.

Import Retry RetrySpec RunSpec.

Context {T : Type}.
Variable operation : Z -> settled T.
Variable options : RetryOptions.

Local Abbreviation run :=
  (attempts operation (limit options) (default 5000 (maxDelay options))
     (pendingEventId options) (default "operation" (operationName options))).

Lemma settles_as_message (error : thrown) (message : string) (n : Z) :
  message_of error = Some message ->
  settles_as (T := T) options (Rejected error) n = Throws (as_error error).
Proof. destruct error as [m | [m|] text]; [reflexivity | reflexivity | discriminate]. Qed.

Lemma settles_as_unsearchable (error : thrown) (n : Z) :
  message_of error = None ->
  settles_as (T := T) options (Rejected error) n =
  if n <? limit options then ThrowsTypeError else Throws (as_error error).
Proof. destruct error as [m | [m|] text]; [discriminate | discriminate | reflexivity]. Qed.

(** An iteration that is not followed by another one. *)
Lemma run_last (r : nat) (a : Z) (le : option thrown) :
  last_attempt options (operation a) a ->
  run (S r) a le = (announce options a ++ [Invoke a], settles_as options (operation a) a).
Proof.
  destruct (operation a) as [v | error] eqn:Hop; cbn [last_attempt].
  - intros _. now rewrite (run_resolved _ _ _ _ _ v Hop).
  - destruct (message_of error) as [message|] eqn:Hm.
    + intros Hno. rewrite (settles_as_message error message a Hm).
      apply (run_fatal _ _ _ _ _ error message Hop Hm).
      destruct (Z.ltb_spec a (limit options)) as [Hlt|]; [|reflexivity].
      destruct (retryable message) eqn:Hre; [|reflexivity].
      exfalso. apply Hno. split; [exact Hlt | now apply retryable_transient].
    + intros _. rewrite (settles_as_unsearchable error a Hm).
      apply (run_unsearchable _ _ _ _ _ error Hop Hm).
Qed.

(** Whether another attempt follows attempt [a]. *)
Lemma last_attempt_dec (a : Z) :
  last_attempt options (operation a) a \/
  exists error message,
    operation a = Rejected error /\ message_of error = Some message /\
    a < limit options /\ retryable message = true.
Proof.
  destruct (operation a) as [v | error] eqn:Hop; cbn [last_attempt]; [now left|].
  destruct (message_of error) as [message|] eqn:Hm; [|now left].
  destruct (Z.ltb_spec a (limit options)) as [Hlt|Hge]; [|left; lia].
  destruct (retryable message) eqn:Hre.
  - right. exists error, message. repeat split; assumption.
  - left. intros [_ Ht]. apply retryable_transient in Ht. congruence.
Qed.

(** From attempt [a] on, the loop ends at some attempt [n]. *)
Lemma run_ends (r : nat) :
  forall a le, Z.of_nat (S r) = limit options - a + 1 ->
    exists n,
      a <= n <= limit options /\
      (forall i, a <= i < n -> fails_retryably (operation i)) /\
      last_attempt options (operation n) n /\
      run (S r) a le =
      (retried options (Z.to_nat (n - a)) a ++ announce options n ++ [Invoke n],
       settles_as options (operation n) n).
Proof.
  induction r as [|r IH]; intros a le Hr;
    (destruct (last_attempt_dec a) as [Hlast | (error & message & Hop & Hm & Hlt & Hre)];
     [ exists a; replace (Z.to_nat (a - a)) with 0%nat by lia; cbn [retried app];
       split; [lia|]; split; [intros i Hi; lia|]; split; [exact Hlast|];
       now apply run_last
     | ]).
  - lia.
  - destruct (IH (a + 1) (Some (as_error error)) ltac:(lia))
      as (n & Hn & Hfail & Hlast & E).
    exists n. split; [lia|]. split; [|split; [exact Hlast|]].
    + intros i Hi. destruct (Z.eq_dec i a) as [->|]; [|apply Hfail; lia].
      exists error, message. split; [exact Hop|].
      split; [exact Hm | now apply retryable_transient].
    + rewrite (run_retry _ _ _ _ _ error message Hop Hm Hlt Hre), E.
      cbn [fst snd]. replace (Z.to_nat (n - a)) with (S (Z.to_nat (n - (a + 1)))) by lia.
      cbn [retried]. rewrite <- !app_assoc. reflexivity.
Qed.

(** Every run either makes no attempt, or goes through attempts 1 to
    [n] and settles the way attempt [n] does. *)
Lemma run_shape :
  (limit options <= 0 /\ withRetry operation options = ([], ThrowsTypeError)) \/
  exists n,
    1 <= n <= limit options /\
    (forall i, 1 <= i < n -> fails_retryably (operation i)) /\
    last_attempt options (operation n) n /\
    withRetry operation options =
    (steps_through options n, settles_as options (operation n) n).
Proof.
  rewrite withRetry_run.
  destruct (Z.to_nat (limit options)) as [|r] eqn:Er.
  - left. split; [lia | reflexivity].
  - right. destruct (run_ends r 1 None ltac:(lia)) as (n & Hn & Hfail & Hlast & E).
    exists n. split; [lia|]. split; [exact Hfail|]. split; [exact Hlast|].
    rewrite E. reflexivity.
Qed.

Lemma invocations_app (l1 l2 : list effect) :
  invocations (l1 ++ l2) = invocations l1 ++ invocations l2.
Proof.
  induction l1 as [|[id text | attempt | delay] l1 IH]; cbn [app invocations];
    [reflexivity | exact IH | now rewrite IH | exact IH].
Qed.

Lemma waits_app (l1 l2 : list effect) : waits (l1 ++ l2) = waits l1 ++ waits l2.
Proof.
  induction l1 as [|[id text | attempt | delay] l1 IH]; cbn [app waits];
    [reflexivity | exact IH | exact IH | now rewrite IH].
Qed.

Lemma announce_quiet (a : Z) :
  invocations (announce options a) = [] /\ waits (announce options a) = [].
Proof.
  unfold announce. destruct (pendingEventId options) as [[|c id]|];
    try (split; reflexivity).
  destruct (1 <? a); split; reflexivity.
Qed.

Lemma retried_calls (count : nat) :
  forall a,
    invocations (retried options count a) = count_up count a /\
    waits (retried options count a) = map (wait options) (count_up count a).
Proof.
  induction count as [|count IH]; intros a; [split; reflexivity|].
  cbn [retried count_up map]. rewrite invocations_app, waits_app.
  destruct (announce_quiet a) as [-> ->]. cbn [app invocations waits].
  destruct (IH (a + 1)) as [-> ->]. split; reflexivity.
Qed.

Lemma count_up_snoc (count : nat) :
  forall a, count_up (S count) a = count_up count a ++ [a + Z.of_nat count].
Proof.
  induction count as [|count IH]; intros a.
  - cbn [count_up app]. now rewrite Z.add_0_r.
  - change (count_up (S (S count)) a) with (a :: count_up (S count) (a + 1)).
    rewrite IH. cbn [count_up app]. do 3 f_equal. lia.
Qed.

Lemma count_up_length (count : nat) : forall a, length (count_up count a) = count.
Proof. induction count as [|count IH]; intros a; simpl; [reflexivity | now rewrite IH]. Qed.

Lemma steps_calls (n : Z) :
  1 <= n ->
  invocations (steps_through options n) = count_up (Z.to_nat n) 1 /\
  waits (steps_through options n) = map (wait options) (count_up (Z.to_nat (n - 1)) 1).
Proof.
  intros Hn. unfold steps_through. rewrite !invocations_app, !waits_app.
  destruct (announce_quiet n) as [-> ->].
  destruct (retried_calls (Z.to_nat (n - 1)) 1) as [-> ->].
  cbn [app invocations waits]. rewrite app_nil_r. split; [|reflexivity].
  replace (Z.to_nat n) with (S (Z.to_nat (n - 1))) by lia.
  rewrite count_up_snoc. do 2 f_equal. lia.
Qed.

(** X1: every run either makes no attempt at all, when [maxRetries] is
    not positive, and fails with a [TypeError]; or it calls attempts 1
    to [n] for some [n <= maxRetries], every attempt before [n] having
    thrown something ([Error] or not) with a retryable message, and
    settles the way attempt [n] does: it returns the value of that
    attempt, or throws the [Error] it threw, or an [Error] made of the
    text of another value it threw, or a [TypeError] when that value,
    thrown before the last of the [maxRetries] attempts, has no message
    that can be searched. *)
Theorem withRetry_shape :
  (limit options <= 0 /\ withRetry operation options = ([], ThrowsTypeError)) \/
  exists n,
    1 <= n <= limit options /\
    (forall i, 1 <= i < n -> fails_retryably (operation i)) /\
    last_attempt options (operation n) n /\
    withRetry operation options =
    (steps_through options n,
     match operation n with
     | Resolved v => Returns v
     | Rejected (ErrorObject message) => Throws (ErrorObject message)
     | Rejected (OtherValue (Some _) text) => Throws (ErrorObject text)
     | Rejected (OtherValue None text) =>
         if n <? limit options then ThrowsTypeError else Throws (ErrorObject text)
     end).
Proof. exact run_shape. Qed.

(** X2: the operation is called for attempts 1, 2, ... in this order,
    each once, and never more than [maxRetries] times. *)
Theorem withRetry_calls_in_order :
  exists count : nat,
    (count <= Z.to_nat (limit options))%nat /\
    invocations (fst (withRetry operation options)) = count_up count 1.
Proof.
  destruct run_shape as [[_ ->] | (n & Hn & _ & _ & ->)].
  - exists 0%nat. split; [lia | reflexivity].
  - exists (Z.to_nat n). split; [lia|]. now apply steps_calls.
Qed.

(** X3: with [maxRetries] zero or negative the operation is never
    called, and the run fails with a [TypeError] (the read of
    [lastError.message] on [undefined]), not with the "failed after"
    error. *)
Theorem withRetry_without_attempts :
  limit options <= 0 -> withRetry operation options = ([], ThrowsTypeError).
Proof.
  intros Hm. destruct run_shape as [[_ E] | (n & Hn & _)]; [exact E | lia].
Qed.

(** X4 ([maxRetries] a whole number): what a run throws, other than
    a [TypeError], comes from the last attempt it made.  It is the
    [Error] the operation threw there, or, for a value that is no
    [Error], a new [Error] made of the text of that value; and no
    further attempt was due: attempt [n] was the last of the
    [maxRetries], or the message of what it threw is not retryable, or
    it has none. *)
Theorem withRetry_throws_operation_error (e : thrown) :
  snd (withRetry operation options) = Throws e ->
  exists n error,
    1 <= n <= limit options /\
    operation n = Rejected error /\
    e = match error with
        | ErrorObject _ => error
        | OtherValue _ text => ErrorObject text
        end /\
    (forall i, 1 <= i < n -> fails_retryably (operation i)) /\
    (n = limit options \/
     match message_of error with
     | Some message => ~ transient message
     | None => False
     end).
Proof.
  destruct run_shape as [[_ ->] | (n & Hn & Hfail & Hlast & ->)]; cbn [snd];
    [discriminate|].
  intros H. exists n. destruct (operation n) as [v | error]; [discriminate H|].
  exists error. split; [exact Hn|]. split; [reflexivity|].
  cbn [last_attempt] in Hlast.
  destruct (message_of error) as [message|] eqn:Hm.
  - rewrite (settles_as_message error message n Hm) in H.
    split; [injection H as <-; reflexivity|]. split; [exact Hfail|].
    destruct (Z.eq_dec n (limit options)) as [->|Hne]; [now left|].
    right. intros Ht. apply Hlast. split; [lia | exact Ht].
  - rewrite (settles_as_unsearchable error n Hm) in H.
    destruct (Z.ltb_spec n (limit options)); [discriminate H|].
    split; [injection H as <-; reflexivity|]. split; [exact Hfail|]. left. lia.
Qed.

(** X5: a value returned by a run is the value of a call of the
    operation, at an attempt before which every attempt failed with a
    retryable error. *)
Theorem withRetry_returns_operation_value (v : T) :
  snd (withRetry operation options) = Returns v ->
  exists n,
    1 <= n <= limit options /\ operation n = Resolved v /\
    (forall i, 1 <= i < n -> fails_retryably (operation i)).
Proof.
  destruct run_shape as [[_ ->] | (n & Hn & Hfail & _ & ->)]; cbn [snd]; [discriminate|].
  intros H. exists n. split; [exact Hn|]. split; [|exact Hfail].
  unfold settles_as in H. destruct (operation n) as [w | [message | [message|] text]].
  - congruence.
  - discriminate H.
  - discriminate H.
  - destruct (n <? limit options); discriminate H.
Qed.

(** X6: a run waits once after every attempt but the last one it makes,
    [min (1000 * 2 ^ (n - 1), maxDelay)] milliseconds after attempt
    [n], and at no other time. *)
Theorem withRetry_waits :
  waits (fst (withRetry operation options)) =
  map (fun n => Z.min (1000 * 2 ^ (n - 1)) (default 5000 (maxDelay options)))
    (count_up (pred (length (invocations (fst (withRetry operation options))))) 1).
Proof.
  destruct run_shape as [[_ ->] | (n & Hn & _ & _ & ->)]; [reflexivity|].
  cbn [fst]. destruct (steps_calls n ltac:(lia)) as [-> ->].
  rewrite count_up_length. replace (pred (Z.to_nat n)) with (Z.to_nat (n - 1)) by lia.
  reflexivity.
Qed.

(** X7: a thrown value that is no [Error] is judged by its [message]
    property, as an [Error] is, but is never thrown as it is.  With a
    string for a message, the next attempt is made exactly when
    attempts remain and the message is retryable, and otherwise the run
    throws a new [Error] made of the text of the value.  Without one (a
    thrown string, say), the run ends with that attempt: before the
    last of the [maxRetries] attempts with a [TypeError], from the read
    of [error.message.includes], and at the last one with the new
    [Error]. *)
Theorem withRetry_non_error_rejection (n : Z) (message : option string) (text : string) :
  1 <= n <= limit options ->
  (forall i, 1 <= i < n -> fails_retryably (operation i)) ->
  operation n = Rejected (OtherValue message text) ->
  match message with
  | Some m =>
      (In (Invoke (n + 1)) (fst (withRetry operation options)) <->
       n < limit options /\ transient m) /\
      (~ (n < limit options /\ transient m) ->
       withRetry operation options =
       (steps_through options n, Throws (ErrorObject text)))
  | None =>
      withRetry operation options =
      (steps_through options n,
       if n <? limit options then ThrowsTypeError else Throws (ErrorObject text))
  end.
Proof.
  intros Hn Hfail Hop. destruct message as [m|].
  - exact (retry_decision operation options n (OtherValue (Some m) text) m
             Hn Hfail Hop eq_refl).
  - destruct (run_reaches operation options n Hn Hfail) as (le & E).
    rewrite E, (run_unsearchable _ _ _ _ _ (OtherValue None text) Hop eq_refl).
    reflexivity.
Qed.

End Runs.

Lemma withRetry_without_attempts_witness :
  Retry.withRetry Examples.always_timeout Samples.no_attempts = ([], Retry.ThrowsTypeError).
Proof.
  apply (withRetry_without_attempts Examples.always_timeout Samples.no_attempts).
  vm_compute. discriminate.
Defined.

Lemma withRetry_throws_operation_error_witness :
  exists n error,
    1 <= n <= RetrySpec.limit Retry.no_options /\
    Samples.throws_fatal_object n = Retry.Rejected error /\
    Retry.ErrorObject "[object Object]" =
      match error with
      | Retry.ErrorObject _ => error
      | Retry.OtherValue _ text => Retry.ErrorObject text
      end /\
    (forall i, 1 <= i < n -> RetrySpec.fails_retryably (Samples.throws_fatal_object i)) /\
    (n = RetrySpec.limit Retry.no_options \/
     match Retry.message_of error with
     | Some message => ~ RetrySpec.transient message
     | None => False
     end).
Proof.
  apply (withRetry_throws_operation_error Samples.throws_fatal_object Retry.no_options
           (Retry.ErrorObject "[object Object]")).
  reflexivity.
Defined.

Lemma withRetry_returns_operation_value_witness :
  exists n,
    1 <= n <= RetrySpec.limit Examples.with_pending /\
    Examples.fails_once n = Retry.Resolved "done" /\
    (forall i, 1 <= i < n -> RetrySpec.fails_retryably (Examples.fails_once i)).
Proof.
  apply (withRetry_returns_operation_value Examples.fails_once Examples.with_pending "done").
  reflexivity.
Defined.

Lemma withRetry_non_error_rejection_witness :
  Retry.withRetry Samples.throws_text Retry.no_options =
    ([Retry.Invoke 1], Retry.ThrowsTypeError) /\
  Retry.withRetry Samples.throws_fatal_object Retry.no_options =
    ([Retry.Invoke 1], Retry.Throws (Retry.ErrorObject "[object Object]")) /\
  In (Retry.Invoke 2) (fst (Retry.withRetry Samples.throws_object Retry.no_options)).
Proof.
  assert (1 <= 1 <= RetrySpec.limit Retry.no_options) as Hn
    by (vm_compute; intuition discriminate).
  split; [|split].
  - apply (withRetry_non_error_rejection Samples.throws_text Retry.no_options 1
             None "timeout" Hn); [intros i Hi; lia | reflexivity].
  - apply (withRetry_non_error_rejection Samples.throws_fatal_object Retry.no_options 1
             (Some "fatal") "[object Object]" Hn); [intros i Hi; lia | reflexivity |].
    intros [_ Ht]. apply retryable_transient in Ht. discriminate Ht.
  - apply (withRetry_non_error_rejection Samples.throws_object Retry.no_options 1
             (Some "timeout") "[object Object]" Hn); [intros i Hi; lia | reflexivity |].
    split; [vm_compute; reflexivity |]. right. left. now exists "", "".
Defined.

(** ** More on the gate and on signatures *)

Section GateMore.

Variable secret : option string.
Variable blockId : string.
Variable request : Tool.Request.
Variable nowMs : Z.

Lemma missing_false (v : option string) :
  GateSpec.missing v = false -> exists s, v = Some s /\ s <> "".
Proof.
  destruct v as [[|c s]|]; simpl; try discriminate.
  intros _. exists (String c s). split; [reflexivity | discriminate].
Qed.

(** X8: the payload is emitted only for a request that carries the three
    headers, under a secret that is set, with a signature equal to the
    HMAC, under the key derived for this very block, of the raw body
    followed by the timestamp header; and whose timestamp, when
    [parseInt] reads a number from it, is within 300 seconds. *)
Theorem onRequest_admits_only_signed
    (rid : string) (parameters : option JSON.value) (parents : list (option JSON.value)) :
  Tool.onRequest secret blockId request nowMs = Tool.Emit rid parameters parents ->
  exists appSecret timestamp signature,
    secret = Some appSecret /\ appSecret <> "" /\
    JS.truthy (Tool.headers request !! Security.EVENT_ID) = true /\
    Tool.headers request !! Security.TIMESTAMP = Some timestamp /\
    Tool.headers request !! Security.SIGNATURE = Some signature /\
    signature =
      Crypto.createHmac_sha256_hex (Security.generateFlowSecret blockId appSecret)
        (Tool.rawBody request +:+ timestamp) /\
    (forall t, JS.parseInt timestamp = Some t -> Z.abs (nowMs / 1000 - t) <= 300).
Proof.
  rewrite onRequest_gate. unfold GateSpec.gate, GateSpec.checks.
  cbn [List.find GateSpec.fails]. unfold GateSpec.header.
  destruct (GateSpec.missing secret) eqn:Hs; [discriminate|].
  destruct (GateSpec.missing (Tool.headers request !! Security.EVENT_ID)) eqn:He;
    [discriminate|].
  destruct (GateSpec.missing (Tool.headers request !! Security.TIMESTAMP)) eqn:Ht;
    [discriminate|].
  destruct (GateSpec.missing (Tool.headers request !! Security.SIGNATURE)) eqn:Hg;
    [discriminate|].
  cbn [orb].
  destruct (GateSpec.stale nowMs _) eqn:Hstale; [discriminate|].
  destruct (GateSpec.signature_differs secret blockId request) eqn:Hd; [discriminate|].
  intros _.
  destruct (missing_false _ Hs) as (appSecret & -> & Hne).
  destruct (missing_false _ Ht) as (timestamp & Etime & _).
  destruct (missing_false _ Hg) as (signature & Esig & _).
  exists appSecret, timestamp, signature.
  split; [reflexivity|]. split; [exact Hne|]. split.
  { rewrite truthy_missing, He. reflexivity. }
  split; [exact Etime|]. split; [exact Esig|]. split.
  - unfold GateSpec.signature_differs, GateSpec.header in Hd.
    rewrite Etime, Esig in Hd.
    change (default "" (Some timestamp)) with timestamp in Hd.
    change (default "" (Some signature)) with signature in Hd.
    unfold GateSpec.recomputed_signature in Hd.
    change (default "" (Some appSecret)) with appSecret in Hd.
    apply negb_false_iff, String.eqb_eq in Hd. exact Hd.
  - intros t Hp. rewrite Etime in Hstale.
    change (default "" (Some timestamp)) with timestamp in Hstale.
    unfold GateSpec.stale in Hstale. rewrite Hp in Hstale.
    apply orb_false_iff in Hstale as [H1 H2].
    apply Z.ltb_ge in H1, H2. lia.
Qed.

(** X9: the event id header has to be there, but its value plays no
    part: the outcome is the same for any two non-empty values. *)
Theorem onRequest_ignores_event_id_value (first second : string) :
  first <> "" -> second <> "" ->
  Tool.onRequest secret blockId (Platform.with_header Security.EVENT_ID first request) nowMs
  = Tool.onRequest secret blockId
      (Platform.with_header Security.EVENT_ID second request) nowMs.
Proof.
  intros H1 H2. unfold Tool.onRequest, Platform.with_header.
  cbn [Tool.headers Tool.requestId Tool.rawBody Tool.body].
  rewrite !lookup_insert_eq.
  rewrite !(lookup_insert_ne _ Security.EVENT_ID Security.TIMESTAMP) by discriminate.
  rewrite !(lookup_insert_ne _ Security.EVENT_ID Security.SIGNATURE) by discriminate.
  replace (JS.truthy (Some first)) with true by (destruct first; [congruence | reflexivity]).
  replace (JS.truthy (Some second)) with true by (destruct second; [congruence | reflexivity]).
  reflexivity.
Qed.

End GateMore.

Lemma onRequest_admits_only_signed_witness :
  exists appSecret timestamp signature,
    Some "S" = Some appSecret /\ appSecret <> "" /\
    JS.truthy
      (Tool.headers
         (EndToEnd.deliver "req-1" (JSON.Object [])
            (Generate.signed_request (EndToEnd.tool_of "tool-A") "evt-1" "S" "{}"
               1700000000000)) !! Security.EVENT_ID) = true /\
    Tool.headers
      (EndToEnd.deliver "req-1" (JSON.Object [])
         (Generate.signed_request (EndToEnd.tool_of "tool-A") "evt-1" "S" "{}"
            1700000000000)) !! Security.TIMESTAMP = Some timestamp /\
    Tool.headers
      (EndToEnd.deliver "req-1" (JSON.Object [])
         (Generate.signed_request (EndToEnd.tool_of "tool-A") "evt-1" "S" "{}"
            1700000000000)) !! Security.SIGNATURE = Some signature /\
    signature =
      Crypto.createHmac_sha256_hex (Security.generateFlowSecret "tool-A" appSecret)
        (Tool.rawBody
           (EndToEnd.deliver "req-1" (JSON.Object [])
              (Generate.signed_request (EndToEnd.tool_of "tool-A") "evt-1" "S" "{}"
                 1700000000000)) +:+ timestamp) /\
    (forall t, JS.parseInt timestamp = Some t ->
               Z.abs (1700000300999 / 1000 - t) <= 300).
Proof.
  apply (onRequest_admits_only_signed (Some "S") "tool-A"
           (EndToEnd.deliver "req-1" (JSON.Object [])
              (Generate.signed_request (EndToEnd.tool_of "tool-A") "evt-1" "S" "{}"
                 1700000000000))
           1700000300999 "req-1" None [None]).
  vm_compute. reflexivity.
Defined.

Lemma onRequest_ignores_event_id_value_witness :
  Tool.onRequest (Some "S") "tool-A"
    (Platform.with_header Security.EVENT_ID "evt-1" (Examples.inbound "1300")) 1000999 =
  Tool.onRequest (Some "S") "tool-A"
    (Platform.with_header Security.EVENT_ID "another" (Examples.inbound "1300")) 1000999.
Proof.
  apply (onRequest_ignores_event_id_value (Some "S") "tool-A" (Examples.inbound "1300")
           1000999 "evt-1" "another"); discriminate.
Defined.

(** ** What [JSON.parse] reads back *)

Section RoundTrip.

Import JSON TextSpec.

Lemma length_append (a b : string) :
  String.length (a +:+ b) = (String.length a + String.length b)%nat.
Proof. induction a as [|c a IH]; [reflexivity|]. rewrite append_cons. simpl. now rewrite IH. Qed.

Lemma append_empty (a : string) : a +:+ "" = a.
Proof. induction a as [|c a IH]; [reflexivity|]. rewrite append_cons. now rewrite IH. Qed.

Lemma parse_chars_escape_char (c : ascii) (tail : string) :
  parse_chars (escape_char c +:+ tail) = prepend (String c "") (parse_chars tail).
Proof.
  destruct c as [[] [] [] [] [] [] [] []]; reflexivity.
Qed.


Lemma parse_chars_escape (s rest : string) :
  parse_chars (escape s +:+ String quote_char rest) = Some (s, rest).
Proof.
  induction s as [|c s IH]; [reflexivity|].
  cbn [escape]. rewrite append_assoc, parse_chars_escape_char, IH. reflexivity.
Qed.

Lemma quote_append (s tail : string) :
  quote s +:+ tail = String quote_char (escape s +:+ String quote_char tail).
Proof. unfold quote. rewrite append_cons, append_assoc. reflexivity. Qed.

Lemma delimited_plain (rest : string) :
  delimited rest ->
  continues_number rest = false /\
  read_digits (Some 0) rest = (Some 0, rest) /\
  (forall n, read_digits (Some n) rest = (Some n, rest)) /\
  match rest with String d _ => JS.is_digit d = false | EmptyString => True end.
Proof.
  destruct rest as [|c rest]; [intros _; repeat split|].
  intros [-> | [-> | ->]]; repeat split.
Qed.

Lemma digits_onto_append (fuel : nat) :
  forall n acc rest,
    JS.digits_onto fuel n acc +:+ rest = JS.digits_onto fuel n (acc +:+ rest).
Proof.
  induction fuel as [|fuel IH]; intros n acc rest; cbn [JS.digits_onto].
  - now rewrite append_cons.
  - destruct (n <? 10); [now rewrite append_cons|]. rewrite IH. now rewrite append_cons.
Qed.

Lemma read_digits_onto (fuel : nat) :
  forall n rest, 0 <= n < 10 ^ (Z.of_nat fuel + 1) ->
    read_digits None (JS.digits_onto fuel n rest) = read_digits (Some n) rest.
Proof.
  induction fuel as [|fuel IH]; intros n rest Hn.
  - change (10 ^ (Z.of_nat 0 + 1)) with 10 in Hn.
    cbn [JS.digits_onto read_digits].
    rewrite digit_char_value by (pose proof (Z.mod_pos_bound n 10); lia).
    now rewrite Z.mod_small by lia.
  - cbn [JS.digits_onto]. destruct (Z.ltb_spec n 10) as [Hlt|Hge].
    + cbn [read_digits].
      rewrite digit_char_value by (pose proof (Z.mod_pos_bound n 10); lia).
      now rewrite Z.mod_small by lia.
    + rewrite IH.
      * cbn [read_digits].
        rewrite digit_char_value by (pose proof (Z.mod_pos_bound n 10); lia).
        do 2 f_equal. pose proof (Z.div_mod n 10). lia.
      * replace (Z.of_nat (S fuel) + 1) with (Z.succ (Z.of_nat fuel + 1)) in Hn by lia.
        rewrite Z.pow_succ_r in Hn by lia.
        split; [apply Z.div_pos; lia | apply Z.div_lt_upper_bound; lia].
Qed.

(** The digits of a positive number do not begin with a zero. *)
Lemma digits_onto_leading (fuel : nat) :
  forall n acc, 0 < n < 10 ^ (Z.of_nat fuel + 1) ->
    exists c tail,
      JS.digits_onto fuel n acc = String c tail /\ Ascii.eqb c "0" = false.
Proof.
  assert (Hone : forall n acc, 0 < n < 10 ->
            exists c tail,
              String (JS.digit_char (n mod 10)) acc = String c tail /\
              Ascii.eqb c "0" = false).
  { intros n acc Hn. eexists _, _. split; [reflexivity|].
    rewrite Z.mod_small by lia.
    destruct (Ascii.eqb_spec (JS.digit_char n) "0") as [E|_]; [|reflexivity].
    pose proof (digit_char_value n ltac:(lia)) as Hv. rewrite E in Hv.
    change (JS.digit_value 10 "0") with (Some 0) in Hv. injection Hv as Hv. lia. }
  induction fuel as [|fuel IH]; intros n acc Hn.
  - change (10 ^ (Z.of_nat 0 + 1)) with 10 in Hn. now apply Hone.
  - cbn [JS.digits_onto]. destruct (Z.ltb_spec n 10) as [Hlt|Hge]; [apply Hone; lia|].
    apply IH.
    replace (Z.of_nat (S fuel) + 1) with (Z.succ (Z.of_nat fuel + 1)) in Hn by lia.
    rewrite Z.pow_succ_r in Hn by lia.
    split; [apply Z.div_str_pos; lia | apply Z.div_lt_upper_bound; lia].
Qed.

Lemma parse_natural_digits (n : Z) (rest : string) :
  0 <= n -> delimited rest ->
  parse_natural (JS.digits n +:+ rest) = Some (n, rest).
Proof.
  intros Hn Hrest. destruct (delimited_plain rest Hrest) as (Hc & _ & Hread & Hd).
  destruct (Z.eq_dec n 0) as [->|Hpos].
  - change (JS.digits 0 +:+ rest) with (String "0" rest). cbn [parse_natural].
    change (Ascii.eqb "0" "0") with true. cbv iota.
    destruct rest as [|d rest]; [reflexivity|]. rewrite Hd. cbv iota beta.
    now rewrite Hc.
  - unfold JS.digits. rewrite digits_onto_append, append_nil.
    destruct (digits_onto_leading (Z.to_nat (Z.log2 n)) n rest) as (c & tail & E & Hz).
    { split; [lia | apply log2_fuel; lia]. }
    pose proof (read_digits_onto (Z.to_nat (Z.log2 n)) n rest) as Hr.
    rewrite E in *. cbn [parse_natural]. rewrite Hz, Hr, Hread, Hc; [reflexivity|].
    split; [lia | apply log2_fuel; lia].
Qed.

Lemma digits_head (n : Z) :
  0 <= n -> exists c tail, JS.digits n = String c tail /\ JS.is_digit c = true.
Proof.
  intros Hn. pose proof (digits_digit_led n Hn) as H.
  destruct (JS.digits n) as [|c [|c' tail]]; [discriminate H | |].
  - exists c, "". split; [reflexivity | exact H].
  - exists c, (String c' tail). split; [reflexivity|].
    cbn [JS.digit_led] in H. now apply andb_true_iff in H as [H _].
Qed.

Lemma parse_number_toString (n : Z) (rest : string) :
  delimited rest ->
  parse_number (JS.Number_toString n +:+ rest) = Some (Number n, rest).
Proof.
  intros Hrest. unfold JS.Number_toString. destruct (Z.ltb_spec n 0) as [Hneg|Hpos].
  - rewrite append_cons. cbn [parse_number]. change (Ascii.eqb "-" "-") with true.
    cbv iota. rewrite parse_natural_digits by (lia || assumption).
    now rewrite Z.opp_involutive.
  - pose proof (parse_natural_digits n rest Hpos Hrest) as Hp.
    destruct (digits_head n Hpos) as (c & tail & E & Hc).
    rewrite E in *. rewrite append_cons in *. cbn [parse_number].
    destruct (is_digit_plain c Hc) as (_ & Hm & _).
    apply Ascii.eqb_neq in Hm. rewrite Hm. now rewrite Hp.
Qed.


(** *** Values *)

Lemma value_induction (P : value -> Prop) :
  P Null -> (forall b, P (Bool b)) -> (forall n, P (Number n)) ->
  (forall s, P (Str s)) ->
  (forall items, Forall P items -> P (Array items)) ->
  (forall members, Forall (fun kv => P (snd kv)) members -> P (Object members)) ->
  forall v, P v.
Proof.
  intros HNull HBool HNumber HStr HArray HObject.
  refine (fix IH (v : value) : P v :=
            match v with
            | Null => HNull
            | Bool b => HBool b
            | Number n => HNumber n
            | Str s => HStr s
            | Array items =>
                HArray items
                  ((fix all (l : list value) : Forall P l :=
                      match l with
                      | [] => Forall_nil P
                      | x :: l' => @Forall_cons _ P x l' (IH x) (all l')
                      end) items)
            | Object members =>
                HObject members
                  ((fix all (l : list (string * value))
                      : Forall (fun kv => P (snd kv)) l :=
                      match l with
                      | [] => Forall_nil _
                      | kv :: l' =>
                          @Forall_cons _ (fun kv => P (snd kv)) kv l'
                            (IH (snd kv)) (all l')
                      end) members)
            end).
Qed.

Lemma parse_value_string (fuel : nat) (tail : string) :
  parse_value (S fuel) (String quote_char tail) =
  match parse_chars tail with
  | Some (text, rest) => Some (Str text, rest)
  | None => None
  end.
Proof. reflexivity. Qed.

Lemma parse_value_array (fuel : nat) (tail : string) :
  parse_value (S fuel) (String "[" tail) =
  match skip_spaces tail with
  | EmptyString => None
  | String c rest =>
      if Ascii.eqb c "]" then Some (Array [], rest)
      else
        match parse_items (parse_value fuel) fuel tail with
        | Some (items, rest') => Some (Array items, rest')
        | None => None
        end
  end.
Proof. reflexivity. Qed.

Lemma parse_value_object (fuel : nat) (tail : string) :
  parse_value (S fuel) (String "{" tail) =
  match skip_spaces tail with
  | EmptyString => None
  | String c rest =>
      if Ascii.eqb c "}" then Some (Object [], rest)
      else
        match parse_members (parse_value fuel) fuel tail with
        | Some (members, rest') => Some (Object (build members), rest')
        | None => None
        end
  end.
Proof. reflexivity. Qed.

Lemma parse_value_number (fuel : nat) (c : ascii) (tail : string) :
  Ascii.eqb c "-" || JS.is_digit c = true ->
  parse_value (S fuel) (String c tail) = parse_number (String c tail).
Proof.
  destruct c as [[] [] [] [] [] [] [] []]; intros H;
    first [discriminate H | reflexivity].
Qed.

Lemma parse_items_comma (element : string -> option (value * string)) (fuel : nat)
    (s tail : string) (v : value) :
  element s = Some (v, String "," tail) ->
  parse_items element (S fuel) s =
  match parse_items element fuel tail with
  | Some (vs, rest) => Some (v :: vs, rest)
  | None => None
  end.
Proof. intros H. cbn [parse_items]. rewrite H. reflexivity. Qed.

Lemma parse_items_close (element : string -> option (value * string)) (fuel : nat)
    (s tail : string) (v : value) :
  element s = Some (v, String "]" tail) ->
  parse_items element (S fuel) s = Some ([v], tail).
Proof. intros H. cbn [parse_items]. rewrite H. reflexivity. Qed.

Lemma parse_members_comma (element : string -> option (value * string)) (fuel : nat)
    (k body tail : string) (v : value) :
  element body = Some (v, String "," tail) ->
  parse_members element (S fuel) (quote k +:+ ":" +:+ body) =
  match parse_members element fuel tail with
  | Some (ms, rest) => Some ((k, v) :: ms, rest)
  | None => None
  end.
Proof.
  intros H. rewrite quote_append. cbn [parse_members].
  change (skip_spaces (String quote_char ?x)) with (String quote_char x).
  change (Ascii.eqb quote_char quote_char) with true. cbv iota.
  rewrite parse_chars_escape.
  change (":" +:+ body) with (String ":" body).
  change (skip_spaces (String ":" body)) with (String ":" body).
  change (Ascii.eqb ":" ":") with true. cbv iota. rewrite H. reflexivity.
Qed.

Lemma parse_members_close (element : string -> option (value * string)) (fuel : nat)
    (k body tail : string) (v : value) :
  element body = Some (v, String "}" tail) ->
  parse_members element (S fuel) (quote k +:+ ":" +:+ body) = Some ([(k, v)], tail).
Proof.
  intros H. rewrite quote_append. cbn [parse_members].
  change (skip_spaces (String quote_char ?x)) with (String quote_char x).
  change (Ascii.eqb quote_char quote_char) with true. cbv iota.
  rewrite parse_chars_escape.
  change (":" +:+ body) with (String ":" body).
  change (skip_spaces (String ":" body)) with (String ":" body).
  change (Ascii.eqb ":" ":") with true. cbv iota. rewrite H. reflexivity.
Qed.

Lemma opens_append (s tail : string) : opens s -> opens (s +:+ tail).
Proof.
  intros (c & t & -> & H). exists c, (t +:+ tail). now rewrite append_cons.
Qed.

Lemma digit_opens (c : ascii) :
  JS.is_digit c = true ->
  is_space c = false /\ Ascii.eqb c "]" = false /\ Ascii.eqb c "}" = false.
Proof.
  destruct c as [[] [] [] [] [] [] [] []]; intros H;
    first [discriminate H | repeat split].
Qed.

Lemma stringify_opens (v : value) : opens (stringify v).
Proof.
  destruct v as [ | [] | n | s | items | members]; cbn [stringify];
    try (eexists _, _; repeat split; reflexivity).
  - unfold JS.Number_toString. destruct (Z.ltb_spec n 0) as [Hneg|Hpos].
    + eexists _, _. repeat split.
    + destruct (digits_head n Hpos) as (c & tail & -> & Hc).
      exists c, tail. split; [reflexivity | now apply digit_opens].
Qed.

Lemma opens_skip (s : string) :
  opens s ->
  exists c tail,
    skip_spaces s = String c tail /\ s = String c tail /\
    Ascii.eqb c "]" = false /\ Ascii.eqb c "}" = false.
Proof.
  intros (c & tail & -> & Hs & H1 & H2). exists c, tail.
  cbn [skip_spaces]. rewrite Hs. repeat split; assumption.
Qed.

Lemma join_opens (texts : list string) :
  texts <> [] -> Forall opens texts -> opens (join texts).
Proof.
  destruct texts as [|t [|t' texts]]; [congruence | |]; intros _ H;
    apply Forall_cons_iff in H as [H _]; cbn [join]; [exact H | now apply opens_append].
Qed.

Lemma items_parse (items : list value) :
  items <> [] -> Forall parses items -> forallb canonical items = true ->
  forall element_fuel fuel rest,
    (String.length (join (map stringify items) +:+ String "]" rest) < element_fuel)%nat ->
    (String.length (join (map stringify items) +:+ String "]" rest) < fuel)%nat ->
    parse_items (parse_value element_fuel) fuel
      (join (map stringify items) +:+ String "]" rest) = Some (items, rest).
Proof.
  induction items as [|v items IH]; [congruence|].
  intros _ Hall Hcanonical element_fuel fuel rest Helement Hfuel.
  apply Forall_cons_iff in Hall as [Hv Hall].
  cbn [forallb] in Hcanonical. apply andb_true_iff in Hcanonical as [Hcv Hcs].
  destruct fuel as [|fuel]; [lia|].
  destruct items as [|v' items].
  - cbn [map join] in *. apply parse_items_close. apply (Hv Hcv); [exact Helement|].
    right. now left.
  - change (join (map stringify (v :: v' :: items)))
      with (stringify v +:+ "," +:+ join (map stringify (v' :: items))) in *.
    rewrite append_assoc in *.
    change (("," +:+ ?x) +:+ ?y) with (String "," (x +:+ y)) in *.
    rewrite (parse_items_comma _ _ _ (join (map stringify (v' :: items)) +:+ String "]" rest) v).
    + rewrite IH; [reflexivity | discriminate | exact Hall | exact Hcs | |];
        rewrite length_append in Helement, Hfuel; cbn [String.length] in Helement, Hfuel; lia.
    + apply (Hv Hcv); [exact Helement | now left].
Qed.

Ltac measure H :=
  repeat first [ progress rewrite ?quote_append, ?length_append in H
               | progress cbn [String.length] in H ].

Ltac measure_goal :=
  repeat first [ progress rewrite ?quote_append, ?length_append
               | progress cbn [String.length] ].

Lemma members_parse (members : list (string * value)) :
  members <> [] -> Forall (fun kv => parses (snd kv)) members ->
  forallb (fun kv => canonical (snd kv)) members = true ->
  forall element_fuel fuel rest,
    (String.length (join (map member_text members) +:+ String "}" rest) < element_fuel)%nat ->
    (String.length (join (map member_text members) +:+ String "}" rest) < fuel)%nat ->
    parse_members (parse_value element_fuel) fuel
      (join (map member_text members) +:+ String "}" rest) = Some (members, rest).
Proof.
  induction members as [|[k v] members IH]; [congruence|].
  intros _ Hall Hcanonical element_fuel fuel rest Helement Hfuel.
  apply Forall_cons_iff in Hall as [Hv Hall]. cbn [snd] in Hv.
  cbn [forallb snd] in Hcanonical. apply andb_true_iff in Hcanonical as [Hcv Hcs].
  destruct fuel as [|fuel]; [lia|].
  destruct members as [|kv' members].
  - cbn [map join] in *. unfold member_text in *. cbn [fst snd] in *.
    rewrite !append_assoc in *.
    apply parse_members_close. apply (Hv Hcv); [|right; now right].
    measure Helement. measure_goal. lia.
  - change (join (map member_text ((k, v) :: kv' :: members)))
      with (member_text (k, v) +:+ "," +:+ join (map member_text (kv' :: members))) in *.
    unfold member_text at 1. unfold member_text at 1 in Helement.
    unfold member_text at 1 in Hfuel.
    cbn [fst snd] in *. rewrite !append_assoc in *.
    change (("," +:+ ?x) +:+ ?y) with (String "," (x +:+ y)) in *.
    rewrite (parse_members_comma _ _ _ _
               (join (map member_text (kv' :: members)) +:+ String "}" rest) v).
    + rewrite IH; [reflexivity | discriminate | exact Hall | exact Hcs | |];
        measure Helement; measure Hfuel; measure_goal; lia.
    + apply (Hv Hcv); [|now left].
      measure Helement. measure_goal. lia.
Qed.


(** *** Objects *)

Lemma define_last (k : string) (v : value) (object : list (string * value)) :
  Forall (fun o => after (fst o) k = true) object ->
  define k v object = object ++ [(k, v)].
Proof.
  induction object as [|[k' v'] object IH]; intros H; cbn [define]; [reflexivity|].
  apply Forall_cons_iff in H as [Hk H]. cbn [fst] in Hk.
  apply andb_true_iff in Hk as [H1 H2]. apply negb_true_iff in H1, H2.
  rewrite H1, H2, IH by exact H. reflexivity.
Qed.

Lemma build_onto (members : list (string * value)) :
  forall object,
    enumerated (map fst members) = true ->
    Forall (fun o => forallb (after (fst o)) (map fst members) = true) object ->
    fold_left (fun object kv => define (fst kv) (snd kv) object) members object =
    object ++ members.
Proof.
  induction members as [|[k v] members IH]; intros object Hm Ho.
  - cbn [fold_left]. now rewrite app_nil_r.
  - cbn [map fst enumerated] in Hm. apply andb_true_iff in Hm as [Hk Hm].
    cbn [fold_left fst snd]. rewrite define_last.
    + rewrite IH; [now rewrite <- app_assoc | exact Hm |].
      apply Forall_app. split.
      * eapply Forall_impl; [|exact Ho]. intros o H. cbn [map fst forallb] in H.
        now apply andb_true_iff in H as [_ H].
      * constructor; [exact Hk | constructor].
    + eapply Forall_impl; [|exact Ho]. intros o H. cbn [map fst forallb] in H.
      now apply andb_true_iff in H as [H _].
Qed.

Lemma build_enumerated (members : list (string * value)) :
  enumerated (map fst members) = true -> build members = members.
Proof. intros H. unfold build. now rewrite (build_onto members [] H) by constructor. Qed.

(** *** The round trip *)

Lemma number_text_head (n : Z) :
  exists c tail,
    JS.Number_toString n = String c tail /\ Ascii.eqb c "-" || JS.is_digit c = true.
Proof.
  unfold JS.Number_toString. destruct (Z.ltb_spec n 0) as [Hneg|Hpos].
  - eexists _, _. split; reflexivity.
  - destruct (digits_head n Hpos) as (c & tail & -> & Hc).
    exists c, tail. split; [reflexivity|]. rewrite Hc. apply orb_true_r.
Qed.

Lemma member_text_opens (kv : string * value) : opens (member_text kv).
Proof.
  unfold member_text. rewrite quote_append. eexists _, _. repeat split.
Qed.

Lemma stringify_parses (v : value) : parses v.
Proof.
  induction v as [ | b | n | s | items IH | members IH] using value_induction;
    intros Hcanonical fuel rest Hlen Hrest;
    (destruct fuel as [|fuel]; [lia|]).
  - reflexivity.
  - destruct b; reflexivity.
  - cbn [stringify]. destruct (number_text_head n) as (c & tail & E & Hc).
    pose proof (parse_number_toString n rest Hrest) as Hp.
    rewrite E in *. rewrite append_cons in *. now rewrite parse_value_number.
  - cbn [stringify]. rewrite quote_append, parse_value_string, parse_chars_escape.
    reflexivity.
  - cbn [stringify canonical] in *. rewrite !append_assoc in *.
    change ("[" +:+ ?x) with (String "[" x) in *.
    change ("]" +:+ rest) with (String "]" rest) in *.
    rewrite parse_value_array. cbn [String.length] in Hlen.
    destruct items as [|v items]; [reflexivity|].
    destruct (opens_skip (join (map stringify (v :: items)) +:+ String "]" rest))
      as (c & tail & -> & _ & Hclose & _).
    { apply opens_append, join_opens; [discriminate|].
      apply Forall_map, Forall_forall. intros x _. apply stringify_opens. }
    rewrite Hclose, items_parse; [reflexivity | discriminate | exact IH | exact Hcanonical
                                 | lia | lia].
  - cbn [stringify canonical] in *. apply andb_true_iff in Hcanonical as [Hkeys Hvalues].
    change (map (fun kv => quote (fst kv) +:+ ":" +:+ stringify (snd kv)) members)
      with (map member_text members) in *.
    rewrite !append_assoc in *.
    change ("{" +:+ ?x) with (String "{" x) in *.
    change ("}" +:+ rest) with (String "}" rest) in *.
    rewrite parse_value_object. cbn [String.length] in Hlen.
    destruct members as [|kv members]; [reflexivity|].
    destruct (opens_skip (join (map member_text (kv :: members)) +:+ String "}" rest))
      as (c & tail & -> & _ & _ & Hclose).
    { apply opens_append, join_opens; [discriminate|].
      apply Forall_map, Forall_forall. intros x _. apply member_text_opens. }
    rewrite Hclose, members_parse; [| discriminate | exact IH | exact Hvalues | lia | lia].
    now rewrite build_enumerated.
Qed.

(** [JSON.parse] reads a canonical value back from what
    [JSON.stringify] writes for it. *)
Lemma parse_stringify (v : value) :
  canonical v = true -> parse (stringify v) = Some v.
Proof.
  intros H. unfold parse.
  pose proof (stringify_parses v H (S (String.length (stringify v))) "") as Hp.
  rewrite append_empty in Hp. rewrite Hp; [reflexivity | lia | exact I].
Qed.

End RoundTrip.

(** ** Calls of the Generate block at the gate *)

Section Calls.

Variable t : Generate.ToolDefinition.
Variables eventId appSecret : string.
Variable parameters : JSON.value.
Variable sentMs : Z.
Variable requestId : string.

Local Abbreviation call :=
  (Generate.call_request t eventId appSecret parameters sentMs).

(** X12: the gate reads back from the timestamp header the very
    number of seconds that the caller wrote into it. *)
Theorem timestamp_header_round_trip :
  option_map JS.parseInt (Generate.fetch_headers call !! Security.TIMESTAMP) =
  Some (Some (sentMs / 1000)).
Proof.
  unfold Generate.call_request, Generate.signed_request. cbn [Generate.fetch_headers].
  rewrite lookup_insert_ne by discriminate. rewrite lookup_insert_eq.
  cbn [option_map]. now rewrite parseInt_Number_toString.
Qed.

Hypothesis secret_present : appSecret <> "".
Hypothesis event_present : eventId <> "".

(** X13: the Tool block that a call is made to admits it, when it
    arrives within 300 seconds: the body that was sent parses back to
    the object that was serialized, and the handler emits the
    parameters the call was made with, with the caller's event as
    secondary parent. *)
Theorem call_request_admitted (receivedMs : Z) :
  JSON.canonical parameters = true ->
  Z.abs (receivedMs / 1000 - sentMs / 1000) <= 300 ->
  exists request,
    Platform.arrival requestId call = Some request /\
    Tool.rawBody request = Generate.fetch_body call /\
    Tool.onRequest (Some appSecret) (Generate.blockId t) request receivedMs =
    Tool.Emit requestId (Some parameters) [Some (JSON.Str eventId)].
Proof.
  intros Hcanonical Hfresh.
  set (payload := JSON.Object [("parameters", parameters); ("eventId", JSON.Str eventId)]).
  assert (Hparse : JSON.parse (JSON.stringify payload) = Some payload).
  { apply parse_stringify. unfold payload.
    cbn [JSON.canonical forallb map fst snd]. rewrite Hcanonical. reflexivity. }
  exists (EndToEnd.deliver requestId payload call). split; [|split; [reflexivity|]].
  - unfold Platform.arrival, Generate.call_request, Generate.signed_request.
    cbn [Generate.fetch_body]. fold payload. now rewrite Hparse.
  - unfold Generate.call_request.
    rewrite (signed_request_at_gate t eventId appSecret _ sentMs receivedMs requestId _
               secret_present event_present Hfresh (Generate.blockId t)).
    rewrite String.eqb_refl. reflexivity.
Qed.

Lemma parseInt_brace (s : string) : JS.parseInt ("}" +:+ s) = None.
Proof.
  change ("}" +:+ s) with (String "}" s).
  now rewrite (parseInt_stripped _ (String "}" s) (String "}" s) 1 10)
    by (try rewrite trim_start_plain by (vm_compute; reflexivity); reflexivity).
Qed.

Lemma stringify_object_closes (members : list (string * JSON.value)) :
  exists prefix, JSON.stringify (JSON.Object members) = prefix +:+ "}".
Proof.
  eexists. cbn [JSON.stringify]. rewrite <- append_assoc. reflexivity.
Qed.

(** X10: a call once made passes the gate again at any later time.
    Its body ends with a closing brace; with that brace moved from the
    end of the body to the front of the timestamp header, the signed
    text is the same, [parseInt] reads no number from the header, and
    the gate admits the request whatever the current time is (for a
    body that the platform hands over as some value other than null). *)
Theorem moved_brace_is_admitted_at_any_time (nowMs : Z) (parsed : JSON.value) :
  parsed <> JSON.Null ->
  exists prefix,
    Generate.fetch_body call = prefix +:+ "}" /\
    Tool.onRequest (Some appSecret) (Generate.blockId t)
      {| Tool.body := parsed;
         Tool.requestId := requestId;
         Tool.headers :=
           <[Security.TIMESTAMP := "}" +:+ JS.Number_toString (sentMs / 1000)]>
             (Generate.fetch_headers call);
         Tool.rawBody := prefix |} nowMs =
    Tool.Emit requestId (JSON.get parsed "parameters") [JSON.get parsed "eventId"].
Proof.
  intros Hbody. unfold Generate.call_request, Generate.signed_request.
  cbn [Generate.fetch_body Generate.fetch_headers].
  destruct (stringify_object_closes
              [("parameters", parameters); ("eventId", JSON.Str eventId)])
    as (prefix & Ebody).
  exists prefix. split; [exact Ebody|].
  rewrite (onRequest_past_headers _ _ _ _ ("}" +:+ JS.Number_toString (sentMs / 1000))).
  - rewrite parseInt_brace. cbn [Tool.too_old].
    unfold GateSpec.signature_stage, GateSpec.signature_differs, GateSpec.header,
      GateSpec.recomputed_signature, GateSpec.passed, GateSpec.admitted.
    cbn [Tool.headers Tool.rawBody Tool.requestId Tool.body].
    rewrite lookup_insert_eq.
    rewrite (lookup_insert_ne _ Security.TIMESTAMP Security.SIGNATURE) by discriminate.
    rewrite lookup_insert_eq.
    change (default "" (Some ?x)) with x.
    unfold Security.signRequest, Security.generateFlowSecret.
    rewrite Ebody, append_assoc, String.eqb_refl. cbn [negb].
    destruct parsed; [congruence | reflexivity ..].
  - destruct appSecret; [congruence | reflexivity].
  - cbn [Tool.headers].
    rewrite (lookup_insert_ne _ Security.TIMESTAMP Security.EVENT_ID) by discriminate.
    rewrite lookup_insert_ne by discriminate.
    rewrite lookup_insert_ne by discriminate.
    rewrite lookup_insert_eq. destruct eventId; [congruence | reflexivity].
  - cbn [Tool.headers].
    rewrite (lookup_insert_ne _ Security.TIMESTAMP Security.SIGNATURE) by discriminate.
    rewrite lookup_insert_eq. apply hex_digest_nonempty.
  - cbn [Tool.headers]. apply lookup_insert_eq.
  - discriminate.
Qed.

End Calls.

Lemma call_request_admitted_witness :
  exists request,
    Platform.arrival "req-1"
      (Generate.call_request (EndToEnd.tool_of "tool-A") "evt-1" "S"
         (JSON.Object [("city", JSON.Str "Oslo")]) 1700000000123) = Some request /\
    Tool.rawBody request =
      Generate.fetch_body
        (Generate.call_request (EndToEnd.tool_of "tool-A") "evt-1" "S"
           (JSON.Object [("city", JSON.Str "Oslo")]) 1700000000123) /\
    Tool.onRequest (Some "S") "tool-A" request 1700000300999 =
    Tool.Emit "req-1" (Some (JSON.Object [("city", JSON.Str "Oslo")]))
      [Some (JSON.Str "evt-1")].
Proof.
  apply (call_request_admitted (EndToEnd.tool_of "tool-A") "evt-1" "S"
           (JSON.Object [("city", JSON.Str "Oslo")]) 1700000000123 "req-1").
  - discriminate.
  - discriminate.
  - reflexivity.
  - vm_compute. discriminate.
Defined.

Lemma moved_brace_is_admitted_at_any_time_witness :
  exists prefix,
    Generate.fetch_body
      (Generate.call_request (EndToEnd.tool_of "tool-A") "evt-1" "S"
         (JSON.Object [("city", JSON.Str "Oslo")]) 1700000000123) = prefix +:+ "}" /\
    Tool.onRequest (Some "S") "tool-A"
      {| Tool.body := JSON.Str "";
         Tool.requestId := "req-2";
         Tool.headers :=
           <[Security.TIMESTAMP := "}" +:+ JS.Number_toString (1700000000123 / 1000)]>
             (Generate.fetch_headers
                (Generate.call_request (EndToEnd.tool_of "tool-A") "evt-1" "S"
                   (JSON.Object [("city", JSON.Str "Oslo")]) 1700000000123));
         Tool.rawBody := prefix |} 4102444800000 =
    Tool.Emit "req-2" None [None].
Proof.
  apply (moved_brace_is_admitted_at_any_time (EndToEnd.tool_of "tool-A") "evt-1" "S"
           (JSON.Object [("city", JSON.Str "Oslo")]) 1700000000123 "req-2");
    discriminate.
Defined.

(** ** Signatures are hex digests *)

Section HexDigests.

Lemma to_hex_length (bytes : list Z) :
  String.length (Crypto.to_hex bytes) = (2 * length bytes)%nat.
Proof. induction bytes as [|b bytes IH]; simpl; [reflexivity | rewrite IH; lia]. Qed.

Lemma hex_digit_lower (d : Z) :
  0 <= d < 16 -> Hex.is_lower_hex (Crypto.hex_digit d) = true.
Proof.
  intros H.
  assert (d = 0 \/ d = 1 \/ d = 2 \/ d = 3 \/ d = 4 \/ d = 5 \/ d = 6 \/ d = 7 \/
          d = 8 \/ d = 9 \/ d = 10 \/ d = 11 \/ d = 12 \/ d = 13 \/ d = 14 \/
          d = 15) as Hd by lia.
  repeat destruct Hd as [-> | Hd]; try subst d; reflexivity.
Qed.

Lemma to_hex_lower (bytes : list Z) :
  Forall Hex.is_byte bytes ->
  Hex.all_chars Hex.is_lower_hex (Crypto.to_hex bytes) = true.
Proof.
  induction 1 as [|b bytes Hb _ IH]; [reflexivity|].
  cbn [Crypto.to_hex Hex.all_chars]. unfold Hex.is_byte in Hb.
  rewrite !hex_digit_lower, IH; [reflexivity | |].
  - apply Z.mod_pos_bound. lia.
  - split; [apply Z.div_pos; lia | apply Z.div_lt_upper_bound; lia].
Qed.

Lemma be_bytes_length (n : nat) (x : Z) : length (SHA256.be_bytes n x) = n.
Proof. induction n as [|n IH]; simpl; [reflexivity | now rewrite IH]. Qed.

Lemma digest_is_32_bytes (h : SHA256.hash) :
  length (SHA256.digest_bytes h) = 32%nat /\ Forall Hex.is_byte (SHA256.digest_bytes h).
Proof.
  unfold SHA256.digest_bytes. split.
  - rewrite !length_app, !be_bytes_length. reflexivity.
  - repeat (apply Forall_app; split); apply be_bytes_bytes.
Qed.

Lemma hmac_hex_shape (key data : string) :
  String.length (Crypto.createHmac_sha256_hex key data) = 64%nat /\
  Hex.all_chars Hex.is_lower_hex (Crypto.createHmac_sha256_hex key data) = true.
Proof.
  unfold Crypto.createHmac_sha256_hex.
  destruct (digest_is_32_bytes
              (Crypto.hmac_sha256 (Crypto.bytes_of_string key)
                 (Crypto.bytes_of_string data))) as [Hlen Hbytes].
  split; [rewrite to_hex_length, Hlen; reflexivity | now apply to_hex_lower].
Qed.

(** X11: a derived key and a signature are always 64 lowercase
    hexadecimal digits, whatever the secret, the identifier, the body
    and the timestamp are (empty ones too). *)
Theorem signatures_are_hex_digests (blockId appSecret body flowSecret : string)
    (timestamp : Z) :
  String.length (Security.generateFlowSecret blockId appSecret) = 64%nat /\
  Hex.all_chars Hex.is_lower_hex (Security.generateFlowSecret blockId appSecret) = true /\
  String.length (Security.signRequest body timestamp flowSecret) = 64%nat /\
  Hex.all_chars Hex.is_lower_hex (Security.signRequest body timestamp flowSecret) = true.
Proof.
  unfold Security.generateFlowSecret, Security.signRequest.
  destruct (hmac_hex_shape appSecret blockId) as [H1 H2].
  destruct (hmac_hex_shape flowSecret (body +:+ JS.Number_toString timestamp)) as [H3 H4].
  repeat split; assumption.
Qed.

End HexDigests.

(** ** The bridge and the Tool block's answer *)

Section BridgeMore.

Import Retry RetrySpec RunSpec.

(** An operation that fails retryably at every attempt up to the limit
    ends the run with the error of the last attempt. *)
Lemma run_exhausted {T : Type} (operation : Z -> settled T) (options : RetryOptions)
    (message : string) :
  1 <= limit options ->
  (forall i, 1 <= i < limit options -> fails_retryably (operation i)) ->
  operation (limit options) = Rejected (ErrorObject message) ->
  withRetry operation options =
  (steps_through options (limit options), Throws (ErrorObject message)).
Proof.
  intros Hm Hfail Hop.
  destruct (run_reaches operation options (limit options) ltac:(lia) Hfail) as (le & E).
  rewrite E, (run_fatal _ _ _ _ _ (ErrorObject message) message Hop eq_refl);
    [reflexivity|].
  rewrite Z.ltb_irrefl. reflexivity.
Qed.

Variable w : Generate.World.
Variable t : Generate.ToolDefinition.
Variables eventId pendingEventId secretKey : string.
Variable parameters : JSON.value.

Lemma gateway_timeout_result (r : Generate.Response) :
  Generate.status r = 504 ->
  Generate.call_result (Generate.Responded r) =
  Rejected (ErrorObject ("HTTP 504: " +:+ Generate.statusText r)) /\
  retryable ("HTTP 504: " +:+ Generate.statusText r) = true.
Proof.
  intros Hs. unfold Generate.call_result, Generate.ok. rewrite Hs. split; [reflexivity|].
  apply retryable_transient. left. exists "", (": " +:+ Generate.statusText r).
  reflexivity.
Qed.

(** X14: against an endpoint that answers 504 every time, a tool call
    makes exactly three requests, waits 1000 and then 2000 ms between
    them, and fails with the error of the third answer as it is. *)
Theorem execute_gateway_timeouts :
  (forall attempt request,
     exists r, Generate.network w attempt request = Generate.Responded r /\
               Generate.status r = 504) ->
  exists r,
    Generate.network w 3
      (Generate.call_request t eventId secretKey parameters (Generate.clock w 3))
    = Generate.Responded r /\
    snd (Generate.execute w t eventId pendingEventId secretKey parameters) =
      Throws (ErrorObject ("HTTP 504: " +:+ Generate.statusText r)) /\
    invocations (fst (Generate.execute w t eventId pendingEventId secretKey parameters))
      = [1; 2; 3] /\
    waits (fst (Generate.execute w t eventId pendingEventId secretKey parameters))
      = [1000; 2000].
Proof.
  intros Hnet.
  destruct (Hnet 3 (Generate.call_request t eventId secretKey parameters
                      (Generate.clock w 3))) as (r & Er & Hs).
  exists r. split; [exact Er|].
  destruct (gateway_timeout_result r Hs) as [Hres _].
  unfold Generate.execute.
  rewrite (run_exhausted _ _ ("HTTP 504: " +:+ Generate.statusText r)).
  - cbn [fst snd]. split; [reflexivity|].
    destruct (steps_calls
                {| maxRetries := None; maxDelay := None;
                   Retry.pendingEventId := Some pendingEventId;
                   operationName :=
                     Some ("Calling tool " +:+ String JSON.quote_char (Generate.name t) +:+
                           String JSON.quote_char "") |} 3 ltac:(lia)) as [Hi Hw].
    change (limit _) with 3. rewrite Hi, Hw. split; reflexivity.
  - vm_compute. discriminate.
  - intros i _. unfold Generate.operation.
    destruct (Hnet i (Generate.call_request t eventId secretKey parameters
                        (Generate.clock w i))) as (ri & Eri & Hsi).
    destruct (gateway_timeout_result ri Hsi) as [Hresi Hretry].
    exists (ErrorObject ("HTTP 504: " +:+ Generate.statusText ri)),
      ("HTTP 504: " +:+ Generate.statusText ri). rewrite Eri.
    split; [exact Hresi|]. split; [reflexivity | now apply retryable_transient].
  - change (limit _) with 3. unfold Generate.operation. rewrite Er. exact Hres.
Qed.

(** X15: a 2xx answer whose JSON body has no [result] member makes the
    call return [undefined] (the value of [JSON.stringify(undefined)]):
    no error is raised for the missing result. *)
Theorem call_result_without_result (response : Generate.Response) (v : JSON.value) :
  Generate.ok response = true ->
  Generate.json response = Generate.Parsed v ->
  v <> JSON.Null ->
  JSON.get v "result" = None ->
  Generate.call_result (Generate.Responded response) = Resolved None.
Proof.
  intros Hok Hjson Hnull Hget. unfold Generate.call_result.
  rewrite Hok, Hjson. cbn [negb]. destruct v; try congruence; now rewrite Hget.
Qed.

(** X16: the Tool block's [processResult] refuses an event without
    echo; with one, it answers the request named in the echo with
    status 200 and the result, which the calling side of the bridge
    returns to the generation loop as a JSON string. *)
Theorem processResult_round_trip (result : string) :
  ToolResult.onEvent None result =
    ToolResult.Throw "This block should not be called directly" /\
  forall echo : ToolResult.Echo,
    exists response,
      ToolResult.onEvent (Some echo) result =
        ToolResult.Respond (ToolResult.echo_requestId echo) response /\
      ToolResult.statusCode response = 200 /\
      forall statusText,
        Generate.call_result (Generate.Responded (Platform.received statusText response))
        = Resolved (Some (JSON.quote result)).
Proof.
  split; [reflexivity|]. intros echo. eexists. split; [reflexivity|].
  split; [reflexivity|]. intros statusText. reflexivity.
Qed.

End BridgeMore.

Lemma execute_gateway_timeouts_witness :
  exists r,
    Generate.network Samples.unreachable 3
      (Generate.call_request Samples.weather "evt-1" "S" (JSON.Object [])
         (Generate.clock Samples.unreachable 3))
    = Generate.Responded r /\
    snd (Generate.execute Samples.unreachable Samples.weather "evt-1" "pending-1" "S"
           (JSON.Object [])) =
      Retry.Throws (Retry.ErrorObject ("HTTP 504: " +:+ Generate.statusText r)) /\
    RunSpec.invocations
      (fst (Generate.execute Samples.unreachable Samples.weather "evt-1" "pending-1" "S"
              (JSON.Object []))) = [1; 2; 3] /\
    RunSpec.waits
      (fst (Generate.execute Samples.unreachable Samples.weather "evt-1" "pending-1" "S"
              (JSON.Object []))) = [1000; 2000].
Proof.
  apply (execute_gateway_timeouts Samples.unreachable Samples.weather "evt-1" "pending-1"
           "S" (JSON.Object [])).
  intros attempt request. eexists. split; reflexivity.
Defined.

Lemma call_result_without_result_witness :
  Generate.call_result (Generate.Responded Samples.empty_answer) = Retry.Resolved None.
Proof.
  apply (call_result_without_result Samples.empty_answer (JSON.Object []));
    first [reflexivity | discriminate].
Defined.

(** ** The tools of a generation *)

Section ToolsByName.

Lemma createToolsFromConfig_snoc (tools : list Generate.ToolDefinition)
    (t : Generate.ToolDefinition) :
  Tools.createToolsFromConfig (tools ++ [t]) =
  <[Generate.slug t := t]> (Tools.createToolsFromConfig tools).
Proof. unfold Tools.createToolsFromConfig. now rewrite fold_left_app. Qed.

(** X17: the tools handed to the model are keyed by slug; under a slug
    the map holds the last definition of the list that has it, so a
    later tool replaces an earlier one of the same slug, and a slug no
    definition has is not a key. *)
Theorem createToolsFromConfig_lookup (tools : list Generate.ToolDefinition)
    (name : string) :
  Tools.createToolsFromConfig tools !! name =
  List.find (fun t => String.eqb (Generate.slug t) name) (rev tools).
Proof.
  induction tools as [|t tools IH] using rev_ind; [reflexivity|].
  rewrite createToolsFromConfig_snoc, rev_app_distr. cbn [rev app List.find].
  destruct (String.eqb_spec (Generate.slug t) name) as [->|Hne].
  - apply lookup_insert_eq.
  - rewrite lookup_insert_ne by exact Hne. exact IH.
Qed.

End ToolsByName.

(** ** Synchronizations in a row *)

Section SyncAgain.

Variable signals : gmap string string.
Variable randomBytes : nat -> list Z.
Variable responseOk : bool.

Local Abbreviation stored :=
  (Platform.store signals
     (App.signalUpdates (App.onSync signals randomBytes responseOk))).

(** X18: once the updates of a synchronization are stored, the secret
    is set, and no later synchronization changes any signal, the
    secret included, whatever the random generator and the validation
    of the API key give then. *)
Theorem onSync_secret_stable :
  randomBytes 32%nat <> [] ->
  JS.truthy (stored !! "toolSecuritySecret") = true /\
  forall (randomBytes' : nat -> list Z) (responseOk' : bool),
    Platform.store stored
      (App.signalUpdates (App.onSync stored randomBytes' responseOk')) = stored.
Proof.
  intros Hbytes.
  assert (Hset : JS.truthy (stored !! "toolSecuritySecret") = true).
  { unfold Platform.store, App.onSync.
    destruct (JS.truthy (signals !! "toolSecuritySecret")) eqn:Hs;
      destruct responseOk; cbn [negb App.signalUpdates].
    - now rewrite (left_id_L ∅ (∪)).
    - now rewrite (left_id_L ∅ (∪)).
    - rewrite lookup_union_l' by (rewrite lookup_insert_eq; eauto).
      rewrite lookup_insert_eq. destruct (randomBytes 32%nat); [congruence | reflexivity].
    - rewrite lookup_union_l' by (rewrite lookup_insert_eq; eauto).
      rewrite lookup_insert_eq. destruct (randomBytes 32%nat); [congruence | reflexivity]. }
  split; [exact Hset|]. intros randomBytes' responseOk'.
  revert Hset. generalize stored. intros s Hset.
  unfold Platform.store, App.onSync. rewrite Hset.
  destruct responseOk'; cbn [negb App.signalUpdates]; apply (left_id_L ∅ (∪)).
Qed.

End SyncAgain.

Lemma onSync_secret_stable_witness :
  JS.truthy
    (Platform.store ∅ (App.signalUpdates (App.onSync ∅ (fun n => repeat 171 n) false))
       !! "toolSecuritySecret") = true /\
  forall (randomBytes' : nat -> list Z) (responseOk' : bool),
    Platform.store
      (Platform.store ∅ (App.signalUpdates (App.onSync ∅ (fun n => repeat 171 n) false)))
      (App.signalUpdates
         (App.onSync
            (Platform.store ∅
               (App.signalUpdates (App.onSync ∅ (fun n => repeat 171 n) false)))
            randomBytes' responseOk')) =
    Platform.store ∅ (App.signalUpdates (App.onSync ∅ (fun n => repeat 171 n) false)).
Proof.
  apply (onSync_secret_stable ∅ (fun n => repeat 171 n) false). discriminate.
Defined.

(** ** The Generate block's handler *)

Section Handler.

Import GenerateEvent EventSpec.

Variable w : World.
Variable secretKey : option string.
Variable config : InputConfig.

Local Abbreviation pending := (createPending w "Working...").
Local Abbreviation handled := (onEvent w secretKey config).

Ltac branches :=
  unfold onEvent;
  repeat match goal with
         | H : JS.truthy secretKey = _ |- _ => rewrite H; cbn [negb]
         | |- context [JS.truthy (prompt config)] =>
             destruct (JS.truthy (prompt config)) eqn:?
         | |- context [messages config] => destruct (messages config) eqn:?
         | |- context [generateText w ?c] =>
             destruct (generateText w c) as [[? ?] | ?] eqn:?
         | |- context [truthy_value (schema config)] =>
             destruct (truthy_value (schema config)) eqn:?
         | |- context [generateObject w ?c] =>
             destruct (generateObject w c) as [[? ?] | ?] eqn:?
         end;
  cbn [app fst snd].

(** X19: without the secret the handler throws before anything else
    happens: no pending event is created and the model is not called.
    With it, a run creates the pending event first and resolves it
    exactly once, as the last thing it does: by the emitted event when
    the handler returns, by a cancellation that carries the thrown
    message when it throws. *)
Theorem onEvent_resolves_pending :
  if JS.truthy secretKey then
    exists between last,
      fst handled = CreatePending "Working..." :: between ++ [last] /\
      forallb (fun e => negb (is_resolution e)) between = true /\
      is_resolution last = true /\
      resolved_by pending last (snd handled)
  else
    exists message, handled = ([], Throws message).
Proof.
  destruct (JS.truthy secretKey) eqn:Hs; [|unfold onEvent; rewrite Hs; eauto].
  branches;
    match goal with
    | |- exists between last, ?h :: ?l = _ /\ _ =>
        exists (removelast l), (List.last l h)
    end;
    cbn [removelast List.last app forallb is_resolution negb andb resolved_by];
    repeat split; eauto.
Qed.

(** X20: a non-empty prompt is what the model is called with, whether
    messages are given or not; without one, the messages are, an empty
    list of them too; with neither, the model is not called and the
    pending event is cancelled. *)
Theorem onEvent_prompt_or_messages :
  JS.truthy secretKey = true ->
  match (if JS.truthy (prompt config) then Some (prompt config, None)
         else match messages config with
              | Some ms => Some (None, Some ms)
              | None => None
              end) with
  | Some (p, ms) =>
      exists call rest,
        fst handled = CreatePending "Working..." :: GenerateText call :: rest /\
        text_prompt call = p /\ text_messages call = ms /\
        text_tools call = Tools.createToolsFromConfig (tools config) /\
        text_toolChoice call = "auto"
  | None =>
      handled =
      ([CreatePending "Working...";
        CancelPending pending "Error: Either 'prompt' or 'messages' must be provided."],
       Throws "Either 'prompt' or 'messages' must be provided.")
  end.
Proof.
  intros Hs. branches; try reflexivity; eexists _, _; repeat split.
Qed.

Ltac text_cases E :=
  lazymatch goal with
  | |- context [generateText w ?c] =>
      destruct (generateText w c) as [[? ?] | ?] eqn:E
  end.

Ltac object_cases E :=
  lazymatch goal with
  | |- context [generateObject w ?c] =>
      destruct (generateObject w c) as [[? ?] | ?] eqn:E
  end.

(** The one call of [generateText] in a run. *)
Lemma text_call_in_run (call : TextCall) :
  In (GenerateText call) (fst handled) ->
  JS.truthy secretKey = true /\
  exists rest, fst handled = CreatePending "Working..." :: GenerateText call :: rest.
Proof.
  destruct (JS.truthy secretKey) eqn:Hs.
  - intros Hin. split; [reflexivity|]. revert Hin.
    branches; cbn [In]; intros Hin;
      repeat match goal with
             | H : _ \/ _ |- _ => destruct H as [H | H]
             | H : False |- _ => destruct H
             | H : GenerateText _ = GenerateText _ |- _ => injection H as <-
             | H : _ = GenerateText _ |- _ => discriminate H
             end; eexists; reflexivity.
  - unfold onEvent. rewrite Hs. intros [].
Qed.

(** X21: when the text call succeeds and no schema is set, the handler
    emits the text with the usage of that call and does not call
    [generateObject]; with a schema it reports "Generating object...",
    asks for an object from the generated text, and emits the object,
    without the text, with the usages of the two calls added up. *)
Theorem onEvent_output (call : TextCall) (text : string) (usage : Usage) :
  In (GenerateText call) (fst handled) ->
  generateText w call = Fulfilled (text, usage) ->
  (truthy_value (schema config) = false ->
     handled =
     ([CreatePending "Working..."; GenerateText call;
       Emit {| output_object := None; output_text := Some text;
               output_model := model config; output_usage := usage |} pending],
      Returns)) /\
  (forall s object objectUsage,
     truthy_value (schema config) = true -> schema config = Some s ->
     generateObject w
       {| object_model := model config; object_prompt := text; object_schema := s |}
     = Fulfilled (object, objectUsage) ->
     handled =
     ([CreatePending "Working..."; GenerateText call;
       UpdatePending pending "Generating object...";
       GenerateObject
         {| object_model := model config; object_prompt := text; object_schema := s |};
       Emit {| output_object := Some object; output_text := None;
               output_model := model config;
               output_usage :=
                 {| promptTokens := promptTokens usage + promptTokens objectUsage;
                    completionTokens :=
                      completionTokens usage + completionTokens objectUsage;
                    totalTokens := totalTokens usage + totalTokens objectUsage |} |}
         pending],
      Returns)).
Proof.
  intros Hin Htext. destruct (text_call_in_run call Hin) as (Hs & rest & Etrace).
  split.
  - intros Hschema. revert Etrace. unfold onEvent. rewrite Hs, Hschema. cbn [negb].
    destruct (JS.truthy (prompt config)); [|destruct (messages config)];
      cbn [app fst]; try (intros Et; discriminate Et);
      (text_cases E; cbn [app fst];
       intros Et; injection Et as Ecall _; rewrite Ecall in E; rewrite Htext in E;
       [injection E as <- <-; rewrite Ecall; reflexivity | discriminate E]).
  - intros s object objectUsage Hschema Es Hobject. revert Etrace.
    unfold onEvent. rewrite Hs, Hschema, Es. cbn [negb].
    change (default JSON.Null (Some s)) with s.
    destruct (JS.truthy (prompt config)); [|destruct (messages config)];
      cbn [app fst]; try (intros Et; discriminate Et);
      (text_cases E; cbn [app fst];
       [ object_cases Eo; cbn [app fst];
         intros Et; injection Et as Ecall _; rewrite Ecall in E; rewrite Htext in E;
         injection E as <- <-; rewrite Hobject in Eo;
         [injection Eo as <- <-; rewrite Ecall; reflexivity | discriminate Eo]
       | intros Et; injection Et as Ecall _; rewrite Ecall in E; rewrite Htext in E;
         discriminate E ]).
Qed.

(** X22: when the text call fails, no object is asked for: the pending
    event is cancelled with "Error: " and the message built from the
    error, and the handler throws that message. *)
Theorem onEvent_text_failure (call : TextCall) (error : Caught) :
  In (GenerateText call) (fst handled) ->
  generateText w call = Failed error ->
  handled =
  ([CreatePending "Working..."; GenerateText call;
    CancelPending pending ("Error: " +:+ error_message w error)],
   Throws (error_message w error)).
Proof.
  intros Hin Htext. destruct (text_call_in_run call Hin) as (Hs & rest & Etrace).
  revert Etrace. unfold onEvent. rewrite Hs. cbn [negb].
  destruct (JS.truthy (prompt config)); [|destruct (messages config)];
    cbn [app fst]; try (intros Et; discriminate Et);
    (text_cases E;
     [ destruct (truthy_value (schema config));
       [object_cases Eo|]; cbn [app fst];
       intros Et; injection Et as Ecall _; rewrite Ecall in E; rewrite Htext in E;
       discriminate E
     | cbn [app fst]; intros Et; injection Et as Ecall _; rewrite Ecall in E;
       rewrite Htext in E; injection E as <-; rewrite Ecall; reflexivity ]).
Qed.

End Handler.

Lemma onEvent_prompt_or_messages_witness :
  exists call rest,
    fst (GenerateEvent.onEvent EventSpec.sample_world (Some "S")
           (EventSpec.sample_config (Some "What is the weather?") (Some []) None)) =
    GenerateEvent.CreatePending "Working..." :: GenerateEvent.GenerateText call :: rest /\
    GenerateEvent.text_prompt call = Some "What is the weather?" /\
    GenerateEvent.text_messages call = None /\
    GenerateEvent.text_tools call = Tools.createToolsFromConfig [] /\
    GenerateEvent.text_toolChoice call = "auto".
Proof.
  exact (onEvent_prompt_or_messages EventSpec.sample_world (Some "S")
           (EventSpec.sample_config (Some "What is the weather?") (Some []) None) eq_refl).
Defined.

Lemma onEvent_output_witness :
  GenerateEvent.onEvent EventSpec.sample_world (Some "S")
    (EventSpec.sample_config (Some "What is the weather?") None None) =
  ([GenerateEvent.CreatePending "Working...";
    GenerateEvent.GenerateText (EventSpec.sample_call (Some "What is the weather?") None);
    GenerateEvent.Emit
      {| GenerateEvent.output_object := None;
         GenerateEvent.output_text := Some "It is sunny.";
         GenerateEvent.output_model := "openai/gpt-4";
         GenerateEvent.output_usage :=
           {| GenerateEvent.promptTokens := 12;
              GenerateEvent.completionTokens := 5;
              GenerateEvent.totalTokens := 17 |} |} "pending-1"],
   GenerateEvent.Returns).
Proof.
  apply (proj1 (onEvent_output EventSpec.sample_world (Some "S")
                  (EventSpec.sample_config (Some "What is the weather?") None None)
                  (EventSpec.sample_call (Some "What is the weather?") None)
                  "It is sunny."
                  {| GenerateEvent.promptTokens := 12;
                     GenerateEvent.completionTokens := 5;
                     GenerateEvent.totalTokens := 17 |}
                  (or_intror (or_introl eq_refl)) eq_refl)).
  reflexivity.
Defined.

Lemma onEvent_text_failure_witness :
  GenerateEvent.onEvent EventSpec.sample_world (Some "S")
    (EventSpec.sample_config None (Some []) None) =
  ([GenerateEvent.CreatePending "Working...";
    GenerateEvent.GenerateText (EventSpec.sample_call None (Some []));
    GenerateEvent.CancelPending "pending-1"
      ("Error: " +:+
       GenerateEvent.error_message EventSpec.sample_world EventSpec.sample_failure)],
   GenerateEvent.Throws
     (GenerateEvent.error_message EventSpec.sample_world EventSpec.sample_failure)).
Proof.
  apply (onEvent_text_failure EventSpec.sample_world (Some "S")
           (EventSpec.sample_config None (Some []) None)
           (EventSpec.sample_call None (Some [])) EventSpec.sample_failure
           (or_intror (or_introl eq_refl)) eq_refl).
Defined.

(** ** A call answered by the Tool block *)

Section Answered.

Variable w : Generate.World.
Variable t : Generate.ToolDefinition.
Variables eventId pendingEventId secretKey : string.
Variable parameters : JSON.value.

(** X23: when the Tool block answers the first request of a call
    through [processResult], the call makes that one request only, with
    no wait and no status update, and returns the result as a JSON
    string. *)
Theorem execute_returns_tool_result (echo : ToolResult.Echo) (result statusText : string)
    (response : ToolResult.HttpResponse) :
  ToolResult.onEvent (Some echo) result =
    ToolResult.Respond (ToolResult.echo_requestId echo) response ->
  Generate.network w 1
    (Generate.call_request t eventId secretKey parameters (Generate.clock w 1)) =
    Generate.Responded (Platform.received statusText response) ->
  Generate.execute w t eventId pendingEventId secretKey parameters =
  ([Retry.Invoke 1], Retry.Returns (Some (JSON.quote result))).
Proof.
  intros Hanswer Hnet. injection Hanswer as <-.
  unfold Generate.execute. rewrite withRetry_run.
  change (Z.to_nat (RetrySpec.limit _)) with 3%nat.
  rewrite (run_resolved _ _ _ _ _ (Some (JSON.quote result))).
  - now rewrite (announce_first (Generate.operation w t eventId secretKey parameters)).
  - unfold Generate.operation. rewrite Hnet. reflexivity.
Qed.

End Answered.

Lemma execute_returns_tool_result_witness :
  Generate.execute
    {| Generate.clock := fun _ => 1700000000000;
       Generate.network := fun _ _ =>
         Generate.Responded
           (Platform.received "OK"
              {| ToolResult.statusCode := 200;
                 ToolResult.headers := {[ "Content-Type" := "application/json" ]};
                 ToolResult.body := JSON.Object [("result", JSON.Str "sunny")] |}) |}
    Samples.weather "evt-1" "pending-1" "S" (JSON.Object []) =
  ([Retry.Invoke 1], Retry.Returns (Some (JSON.quote "sunny"))).
Proof.
  apply (execute_returns_tool_result _ Samples.weather "evt-1" "pending-1" "S"
           (JSON.Object []) {| ToolResult.echo_requestId := "req-1" |} "sunny" "OK"
           {| ToolResult.statusCode := 200;
              ToolResult.headers := {[ "Content-Type" := "application/json" ]};
              ToolResult.body := JSON.Object [("result", JSON.Str "sunny")] |});
    reflexivity.
Defined.
